(** * Transcript segmentation engine of [YouTubeTranscriptCrawlilng.py]

    A shallow embedding of the segment normalizer, the paragraph
    reconstructor and the plain-text and SRT renderers, together with the
    properties the specification states about them.

    Python [str] values are sequences of Unicode code points, so they are
    modelled as lists of code points; a raw API mapping is a [gmap] from
    key names to Python values; exceptions are an explicit result type. *)

From Stdlib Require Import ZArith NArith QArith List Bool Lia String Ascii.
From stdpp Require Import gmap strings.
Import ListNotations.

Local Open Scope N_scope.

(** ** Python strings *)

(** A Unicode code point. *)
Definition char := N.

(** A Python [str]: [len] is the number of code points. *)
Definition pystr := list char.

(** An ASCII literal as a Python [str]. *)
Definition py (s : string) : pystr :=
  List.map N_of_ascii (list_ascii_of_string s).
Arguments py s : simpl never.

(** [Py_UNICODE_ISSPACE]: the characters [str.strip()], [str.isspace()] and
    the regular expression class [\s] (on [str] patterns) treat as
    whitespace. *)
Definition Py_UNICODE_ISSPACE (c : char) : bool :=
  ((9 <=? c) && (c <=? 13)) || ((28 <=? c) && (c <=? 32))
  || (c =? 0x85) || (c =? 0xA0) || (c =? 0x1680)
  || ((0x2000 <=? c) && (c <=? 0x200A))
  || (c =? 0x2028) || (c =? 0x2029) || (c =? 0x202F) || (c =? 0x205F)
  || (c =? 0x3000).

(** [Py_ISSPACE]: the C-locale ASCII whitespace skipped by the number
    parsers. *)
Definition Py_ISSPACE (c : char) : bool :=
  ((9 <=? c) && (c <=? 13)) || (c =? 32).

Fixpoint drop_while (p : char -> bool) (s : pystr) : pystr :=
  match s with
  | [] => []
  | c :: r => if p c then drop_while p r else s
  end.

Definition lstrip_by (p : char -> bool) (s : pystr) : pystr := drop_while p s.
Definition rstrip_by (p : char -> bool) (s : pystr) : pystr :=
  rev (drop_while p (rev s)).
Definition strip_by (p : char -> bool) (s : pystr) : pystr :=
  rstrip_by p (lstrip_by p s).

(** [s.strip()] *)
Definition strip (s : pystr) : pystr := strip_by Py_UNICODE_ISSPACE s.

(** [c in chars] for a one-character [c]. *)
Definition char_in (c : char) (chars : pystr) : bool :=
  existsb (N.eqb c) chars.

(** [s.strip(chars)] *)
Definition strip_chars (chars : pystr) (s : pystr) : pystr :=
  strip_by (fun c => char_in c chars) s.

(** [s.split(sep)] for a one-character separator. *)
Fixpoint split (sep : char) (s : pystr) : list pystr :=
  match s with
  | [] => [[]]
  | c :: r =>
      if c =? sep then [] :: split sep r
      else match split sep r with
           | p :: ps => (c :: p) :: ps
           | [] => [[c]]
           end
  end.

(** [s.count(c)] for a one-character [c]. *)
Definition count (c : char) (s : pystr) : nat :=
  List.length (List.filter (N.eqb c) s).

(** [s.replace(old, new)] for one-character [old] and [new]. *)
Definition replace (old new : char) (s : pystr) : pystr :=
  List.map (fun c => if c =? old then new else c) s.

(** [sep.join(parts)] *)
Fixpoint join (sep : pystr) (parts : list pystr) : pystr :=
  match parts with
  | [] => []
  | [p] => p
  | p :: ps => p ++ sep ++ join sep ps
  end.

(** [s[-1]], when [s] is not empty. *)
Definition last_char (s : pystr) : option char :=
  List.last (List.map Some s) None.

(** [s.endswith(c)] for a one-character [c]. *)
Definition endswith (s : pystr) (c : char) : bool :=
  match last_char s with
  | Some d => d =? c
  | None => false
  end.

(** [re.sub(r"\s+", " ", s)]: every maximal run of whitespace becomes one
    space. [in_ws] records that the previous character was whitespace. *)
Fixpoint collapse_ws (in_ws : bool) (s : pystr) : pystr :=
  match s with
  | [] => []
  | c :: r =>
      if Py_UNICODE_ISSPACE c
      then (if in_ws then collapse_ws true r else 32 :: collapse_ws true r)
      else c :: collapse_ws false r
  end.

Definition re_sub_ws (s : pystr) : pystr := collapse_ws false s.

(** [sum(len(x) for x in buf)] *)
Definition total_len (buf : list pystr) : Z :=
  List.fold_right (fun x acc => (Z.of_nat (List.length x) + acc)%Z) 0%Z buf.

(** Truthiness of a [str] or a [list]. *)
Definition nonempty {A} (s : list A) : bool :=
  match s with [] => false | _ => true end.

Definition is_Some_b {A} (o : option A) : bool :=
  match o with Some _ => true | None => false end.

(** ** Exceptions *)

Inductive exn :=
  ValueError | TypeError | AttributeError | OverflowError | IndexError.

(** The outcome of a Python computation: a value or a raised exception. *)
Inductive result (A : Type) :=
| Ok (a : A)
| Raise (e : exn).
Arguments Ok {A} a.
Arguments Raise {A} e.

Definition bind {A B} (m : result A) (k : A -> result B) : result B :=
  match m with
  | Ok a => k a
  | Raise e => Raise e
  end.

Notation "x <- m ;; k" := (bind m (fun x => k))
  (at level 100, m at next level, right associativity).

(** [try: body / except Exception: handler] *)
Definition try_except {A} (body : result A) (handler : exn -> result A)
  : result A :=
  match body with
  | Ok a => Ok a
  | Raise e => handler e
  end.

(** A builtin that fails with one fixed exception. *)
Definition or_raise {A} (e : exn) (o : option A) : result A :=
  match o with
  | Some a => Ok a
  | None => Raise e
  end.

(** ** Python numbers *)

(** Zero code points of the blocks of ten decimal digits (general category
    Nd) of the Unicode database (version 15.0). *)
Definition decimal_zeros : list N :=
  [0x0030; 0x0660; 0x06F0; 0x07C0; 0x0966; 0x09E6; 0x0A66; 0x0AE6; 0x0B66;
   0x0BE6; 0x0C66; 0x0CE6; 0x0D66; 0x0DE6; 0x0E50; 0x0ED0; 0x0F20; 0x1040;
   0x1090; 0x17E0; 0x1810; 0x1946; 0x19D0; 0x1A80; 0x1A90; 0x1B50; 0x1BB0;
   0x1C40; 0x1C50; 0xA620; 0xA8D0; 0xA900; 0xA9D0; 0xA9F0; 0xAA50; 0xABF0;
   0xFF10; 0x104A0; 0x10D30; 0x11066; 0x110F0; 0x11136; 0x111D0; 0x112F0;
   0x11450; 0x114D0; 0x11650; 0x116C0; 0x11730; 0x118E0; 0x11950; 0x11C50;
   0x11D50; 0x11DA0; 0x11F50; 0x16A60; 0x16AC0; 0x16B50; 0x1D7CE; 0x1D7D8;
   0x1D7E2; 0x1D7EC; 0x1D7F6; 0x1E140; 0x1E2F0; 0x1E4F0; 0x1E950; 0x1FBF0].

(** [Py_UNICODE_TODECIMAL] *)
Definition Py_UNICODE_TODECIMAL (c : char) : option N :=
  match List.find (fun z => (z <=? c) && (c <? z + 10)) decimal_zeros with
  | Some z => Some (c - z)
  | None => None
  end.

(** [_PyUnicode_TransformDecimalAndSpaceToASCII], one character: ASCII is
    kept, other whitespace becomes a space, other decimal digits become
    ASCII digits, and anything else makes the number parsers fail. *)
Definition to_ascii_char (c : char) : option char :=
  if c <? 127 then Some c
  else if Py_UNICODE_ISSPACE c then Some 32
  else match Py_UNICODE_TODECIMAL c with
       | Some d => Some (48 + d)
       | None => None
       end.

Fixpoint to_ascii (s : pystr) : option pystr :=
  match s with
  | [] => Some []
  | c :: r =>
      match to_ascii_char c, to_ascii r with
      | Some a, Some r' => Some (a :: r')
      | _, _ => None
      end
  end.

Definition is_digit (c : char) : bool := (48 <=? c) && (c <=? 57).
Definition digit_val (c : char) : Z := Z.of_N (c - 48).

(** Digits with single underscores between them; [prev_us] holds at the
    start and right after an underscore, where a digit must follow. *)
Fixpoint digits_value (acc : Z) (prev_us : bool) (s : pystr) : option Z :=
  match s with
  | [] => if prev_us then None else Some acc
  | c :: r =>
      if c =? 95 then (if prev_us then None else digits_value acc true r)
      else if is_digit c then digits_value (acc * 10 + digit_val c)%Z false r
      else None
  end.

(** [int(s)] for a [str] and base ten; [None] is [ValueError]. The
    interpreter's configurable bound on the number of digits is not
    modelled. *)
Definition py_int (s : pystr) : option Z :=
  match to_ascii s with
  | None => None
  | Some a =>
      match rstrip_by Py_ISSPACE (lstrip_by Py_ISSPACE a) with
      | c :: ds =>
          if c =? 43 then digits_value 0 true ds
          else if c =? 45 then option_map Z.opp (digits_value 0 true ds)
          else digits_value 0 true (c :: ds)
      | [] => None
      end
  end.

Definition int (s : pystr) : result Z := or_raise ValueError (py_int s).

(** A Python [float]: a finite binary64 value, held as the rational it
    denotes, an infinity or a NaN. Comparisons between [int] and [float] are
    exact in Python, so they are comparisons of rationals. *)
Inductive pyfloat :=
| FFinite (q : Q)
| FInf (neg : bool)
| FNaN.

Definition fzero : pyfloat := FFinite 0%Q.

(** [z > f] for an [int] [z] and a [float] [f]. *)
Definition int_gt_float (z : Z) (f : pyfloat) : bool :=
  match f with
  | FFinite q => if Qlt_le_dec q (inject_Z z) then true else false
  | FInf neg => neg
  | FNaN => false
  end.

(** [n / d] rounded to the nearest integer, ties to the even one
    ([0 < d]). *)
Definition round_half_even_div (n d : Z) : Z :=
  let q := (n / d)%Z in
  match (2 * (n mod d) ?= d)%Z with
  | Lt => q
  | Gt => (q + 1)%Z
  | Eq => if Z.even q then q else (q + 1)%Z
  end.

(** [x * 2 ^ k] for [0 <= k], and [x] otherwise. *)
Definition scale2 (x k : Z) : Z := (x * 2 ^ Z.max k 0)%Z.

(** The binary64 value nearest to [n / d] ([0 < n], [0 < d]), ties to even;
    [None] when it exceeds the largest finite value. *)
Definition binary64_of_ratio (n d : Z) : option Q :=
  let l := (Z.log2 n - Z.log2 d)%Z in
  let fl := if (scale2 n (- l) <? scale2 d l)%Z then (l - 1)%Z else l in
  let e := Z.max (fl - 52) (-1074) in
  let q := round_half_even_div (scale2 n (- e)) (scale2 d e) in
  if ((971 <? e) || ((e =? 971) && (2 ^ 53 <=? q)))%Z then None
  else Some (Qmake (scale2 q e) (Z.to_pos (scale2 1 (- e)))).

(** [float(z)] for an [int]: [None] is [OverflowError]. *)
Definition float_of_Z (z : Z) : option pyfloat :=
  if (z =? 0)%Z then Some fzero
  else match binary64_of_ratio (Z.abs z) 1 with
       | Some q => Some (FFinite (if (z <? 0)%Z then Qopp q else q))
       | None => None
       end.

(** The float nearest to [(-1)^neg * m * 10 ^ e10]; too large a value
    becomes an infinity. *)
Definition float_of_decimal (neg : bool) (m e10 : Z) : pyfloat :=
  if (m =? 0)%Z then fzero
  else match binary64_of_ratio (m * 10 ^ Z.max e10 0) (10 ^ Z.max (- e10) 0) with
       | Some q => FFinite (if neg then Qopp q else q)
       | None => FInf neg
       end.

(** A run of digits with single underscores between digits; returns the
    digits read and the rest of the input. *)
Fixpoint scan_digitpart (prev_digit : bool) (acc : list Z) (s : pystr)
  : list Z * pystr :=
  match s with
  | [] => (acc, [])
  | c :: r =>
      if is_digit c then scan_digitpart true (acc ++ [digit_val c]) r
      else if (c =? 95) && prev_digit then
        match r with
        | c2 :: _ => if is_digit c2 then scan_digitpart false acc r else (acc, s)
        | [] => (acc, s)
        end
      else (acc, s)
  end.

Definition Zdigits (ds : list Z) : Z :=
  List.fold_left (fun a d => (a * 10 + d)%Z) ds 0%Z.

Definition parse_sign (s : pystr) : bool * pystr :=
  match s with
  | c :: r =>
      if c =? 43 then (false, r)
      else if c =? 45 then (true, r)
      else (false, s)
  | [] => (false, s)
  end.

(** The optional exponent, which must end the literal. *)
Definition parse_exponent (s : pystr) : option Z :=
  match s with
  | [] => Some 0%Z
  | c :: r =>
      if (c =? 101) || (c =? 69) then
        let (neg, r1) := parse_sign r in
        match scan_digitpart false [] r1 with
        | ((_ :: _) as ds, []) => Some (if neg then (- Zdigits ds)%Z else Zdigits ds)
        | _ => None
        end
      else None
  end.

(** An unsigned decimal literal as mantissa and power of ten. *)
Definition parse_float_abs (s : pystr) : option (Z * Z) :=
  let (ip, r1) := scan_digitpart false [] s in
  let (fp, r2) := match r1 with
                  | c :: r => if c =? 46 then scan_digitpart false [] r
                              else ([], r1)
                  | [] => ([], r1)
                  end in
  match ip ++ fp with
  | [] => None
  | ds => match parse_exponent r2 with
          | Some e => Some (Zdigits ds, (e - Z.of_nat (List.length fp))%Z)
          | None => None
          end
  end.

Definition lower (c : char) : char :=
  if (65 <=? c) && (c <=? 90) then c + 32 else c.

Definition pystr_eqb (a b : pystr) : bool :=
  bool_decide (a = b).

(** [float(s)] for a [str]; [None] is [ValueError]. *)
Definition py_float_of_str (s : pystr) : option pyfloat :=
  match to_ascii s with
  | None => None
  | Some a =>
      let (neg, r) := parse_sign (rstrip_by Py_ISSPACE (lstrip_by Py_ISSPACE a)) in
      let w := List.map lower r in
      if pystr_eqb w (py "inf") || pystr_eqb w (py "infinity") then Some (FInf neg)
      else if pystr_eqb w (py "nan") then Some FNaN
      else match parse_float_abs r with
           | Some (m, e10) => Some (float_of_decimal neg m e10)
           | None => None
           end
  end.

(** [round(f)] for a [float]: the nearest [int], ties to even. *)
Definition round (f : pyfloat) : result Z :=
  match f with
  | FFinite q => Ok (round_half_even_div (Qnum q) (Zpos (Qden q)))
  | FInf _ => Raise OverflowError
  | FNaN => Raise ValueError
  end.

(** The decimal digits of [n], most significant first. *)
Fixpoint to_digits (fuel : nat) (n : N) (acc : pystr) : pystr :=
  match fuel with
  | O => acc
  | S f =>
      let acc' := (48 + n mod 10) :: acc in
      if n / 10 =? 0 then acc' else to_digits f (n / 10) acc'
  end.

Definition str_of_N (n : N) : pystr :=
  to_digits (S (N.to_nat (N.log2 n))) n [].

(** [str(z)] for an [int]. *)
Definition str (z : Z) : pystr :=
  if (z <? 0)%Z then 45 :: str_of_N (Z.abs_N z) else str_of_N (Z.abs_N z).

(** [format(z, "0{w}d")]: sign first, then zeros up to width [w]. The
    interpreter's configurable bound on the number of digits printed is not
    modelled. *)
Definition format_0d (w : nat) (z : Z) : pystr :=
  let ds := str_of_N (Z.abs_N z) in
  let sign := if (z <? 0)%Z then [45] else [] in
  sign ++ List.repeat 48 (w - List.length sign - List.length ds) ++ ds.

(** ** Python values of raw transcript records *)

Inductive pyval :=
| VNone
| VBool (b : bool)
| VInt (z : Z)
| VFloat (f : pyfloat)
| VStr (s : pystr)
| VOther (truthy : bool).

(** Truthiness, as [or] and [not] test it. *)
Definition truthy (v : pyval) : bool :=
  match v with
  | VNone => false
  | VBool b => b
  | VInt z => negb (z =? 0)%Z
  | VFloat (FFinite q) => if Qeq_dec q 0 then false else true
  | VFloat _ => true
  | VStr s => nonempty s
  | VOther t => t
  end.

(** [v or d] *)
Definition py_or (v d : pyval) : pyval := if truthy v then v else d.

(** [float(v)] *)
Definition float (v : pyval) : result pyfloat :=
  match v with
  | VNone => Raise TypeError
  | VBool b => Ok (FFinite (if b then 1 else 0)%Q)
  | VInt z => or_raise OverflowError (float_of_Z z)
  | VFloat f => Ok f
  | VStr s => or_raise ValueError (py_float_of_str s)
  | VOther _ => Raise TypeError
  end.

(** The receiver of a [str] method call: anything but a [str] has no
    [replace]. *)
Definition as_str (v : pyval) : result pystr :=
  match v with
  | VStr s => Ok s
  | _ => Raise AttributeError
  end.

(** An object of the transcript API: its [start] and [text] attributes, if
    it has them, and the outcome of calling its [get_text] method, if it has
    one. *)
Record pyobj := {
  attr_start : option pyval;
  attr_text : option pyval;
  meth_get_text : option (result pyval)
}.

(** A raw transcript record: a [dict], an object, a [list] or [tuple], or
    any other value. *)
Inductive raw :=
| RDict (d : gmap string pyval)
| RObj (o : pyobj)
| RSeq (items : list pyval)
| ROther.

(** ** Segments *)

(** A segment [{"timestamp": ..., "text": ...}]. Both producers
    ([extract_from_html], [_normalize_segments]) always set both keys, the
    text to a [str] and the timestamp to a [str] or [None]. *)
Record segment := { timestamp : option pystr; text : pystr }.

(** [o or d] for an optional [str]. *)
Definition str_or (o : option pystr) (d : pystr) : pystr :=
  match o with
  | Some s => if nonempty s then s else d
  | None => d
  end.

Definition colon : char := 58.
Definition newline : char := 10.

(** ** [extract_from_html] *)

(** One [ytd-transcript-segment-renderer] element as the markup parser
    presents it: the stripped text of its timestamp sub-element and of its
    text sub-element, when these exist. *)
Record html_element := { ts_el : option pystr; text_el : option pystr }.

Definition extract_from_html (elements : list html_element) : list segment :=
  List.fold_left
    (fun segments seg =>
       let ts := ts_el seg in
       let text := default [] (text_el seg) in
       if nonempty text || nonempty (default [] ts)
       then segments ++ [{| timestamp := ts; text := text |}]
       else segments)
    elements [].

(** ** [_normalize_segments] *)

Definition sec_to_hms (sec : pyfloat) : result pystr :=
  sec <- round sec ;;
  let h := (sec / 3600)%Z in
  let m := ((sec mod 3600) / 60)%Z in
  let s := (sec mod 60)%Z in
  Ok (format_0d 2 h ++ [colon] ++ format_0d 2 m ++ [colon] ++ format_0d 2 s).

(** [t.replace("\n", " ").strip()] on a value that must be a [str]. *)
Definition replace_strip (v : pyval) : result pystr :=
  t <- as_str v ;; Ok (strip (replace newline 32 t)).

(** The shape dispatch of the loop body: the start and text of a record, or
    [None] where the loop executes [continue]. *)
Definition normalize_record (i : raw) : result (option (pyfloat * pystr)) :=
  match i with
  | RDict d =>
      start <- float (default (VFloat fzero) (d !! "start"%string)) ;;
      text <- replace_strip (py_or (default VNone (d !! "text"%string)) (VStr [])) ;;
      Ok (Some (start, text))
  | RObj o =>
      if is_Some_b (attr_start o) || is_Some_b (attr_text o) then
        start <- float (default (VFloat fzero) (attr_start o)) ;;
        let text := py_or (default (VStr []) (attr_text o)) (VStr []) in
        text <- (if negb (truthy text)
                 then match meth_get_text o with
                      | Some r => r
                      | None => Ok text
                      end
                 else Ok text) ;;
        text <- replace_strip text ;;
        Ok (Some (start, text))
      else Ok None
  | RSeq items =>
      let convert start text :=
        start <- float (py_or start (VFloat fzero)) ;;
        text <- replace_strip (py_or text (VStr [])) ;;
        Ok (Some (start, text)) in
      match items with
      | start :: _ :: text :: _ => convert start text
      | [start; text] => convert start text
      | _ => Ok None
      end
  | ROther => Ok None
  end.

Fixpoint normalize_loop (raw : list raw) (out : list segment)
  : result (list segment) :=
  match raw with
  | [] => Ok out
  | i :: rest =>
      r <- normalize_record i ;;
      match r with
      | None => normalize_loop rest out
      | Some (start, text) =>
          ts <- sec_to_hms start ;;
          normalize_loop rest (out ++ [{| timestamp := Some ts; text := text |}])
      end
  end.

Definition _normalize_segments (raw : list raw) : result (list segment) :=
  normalize_loop raw [].

(** ** [to_plain_text] *)

Definition plain_line (seg : segment) : pystr :=
  let ts := str_or (timestamp seg) [] in
  (* [seg.get("text") or ""] is the text itself: it is always a [str] *)
  let txt := text seg in
  if nonempty ts then py "[" ++ ts ++ py "] " ++ txt else txt.

Definition to_plain_text (segments : list segment) : pystr :=
  let lines := List.fold_left (fun lines seg => lines ++ [plain_line seg])
                              segments [] in
  join [newline] lines.

(** ** [to_srt] *)

(** [[f(p) for p in parts]], stopping at the first exception. *)
Fixpoint map_result {A B} (f : A -> result B) (l : list A) : result (list B) :=
  match l with
  | [] => Ok []
  | a :: r => b <- f a ;; bs <- map_result f r ;; Ok (b :: bs)
  end.

Definition hms_to_secs (hms : pystr) : result Z :=
  parts <- map_result int (split colon hms) ;;
  match parts with
  | [p0; p1] => Ok (0 * 3600 + p0 * 60 + p1)%Z
  | [h; m; s] => Ok (h * 3600 + m * 60 + s)%Z
  | _ => Raise ValueError
  end.

(** [secs_to_srt_time] on an [int], the only kind of argument [to_srt]
    passes: the [str] and [float] branches are not taken and the
    milliseconds are zero. *)
Definition secs_to_srt_time (sec : Z) : pystr :=
  let ms := 0%Z in
  let h := (sec / 3600)%Z in
  let m := ((sec mod 3600) / 60)%Z in
  let s := (sec mod 60)%Z in
  format_0d 2 h ++ [colon] ++ format_0d 2 m ++ [colon] ++ format_0d 2 s
    ++ py "," ++ format_0d 3 ms.

(** A normalized entry of [norm]: its timestamp is always a [str]. *)
Record norm_entry := { n_timestamp : pystr; n_text : pystr }.

(** The body of the first loop: [M:SS] becomes [00:MM:SS]. *)
Definition srt_normalize (seg : segment) : result norm_entry :=
  let ts := str_or (timestamp seg) (py "00:00:00") in
  ts <- (if Nat.eqb (count colon ts) 1 then
           match split colon ts with
           | [m; s] =>
               m <- int m ;; s <- int s ;;
               Ok (py "00:" ++ format_0d 2 m ++ [colon] ++ format_0d 2 s)
           | _ => Raise ValueError
           end
         else Ok ts) ;;
  Ok {| n_timestamp := ts; n_text := text seg |}.

Fixpoint srt_norm_loop (segments : list segment) (norm : list norm_entry)
  : result (list norm_entry) :=
  match segments with
  | [] => Ok norm
  | seg :: rest => e <- srt_normalize seg ;; srt_norm_loop rest (norm ++ [e])
  end.

(** The second loop, over [enumerate(norm, start=1)]: [todo] is what is left
    to enumerate and [i] the index of its head. *)
Fixpoint srt_loop (norm : list norm_entry) (i : nat) (todo : list norm_entry)
  (srt_lines : list pystr) : result (list pystr) :=
  match todo with
  | [] => Ok srt_lines
  | seg :: rest =>
      start_sec <- hms_to_secs (n_timestamp seg) ;;
      end_sec <- (if (i <? List.length norm)%nat then
                    nxt <- or_raise IndexError (norm !! i) ;;
                    next_start_sec <- hms_to_secs (n_timestamp nxt) ;;
                    Ok (Z.max (start_sec + 1) (next_start_sec - 1))
                  else Ok (start_sec + 2)%Z) ;;
      srt_loop norm (S i) rest
        (srt_lines ++ [str (Z.of_nat i);
                       secs_to_srt_time start_sec ++ py " --> "
                         ++ secs_to_srt_time end_sec;
                       n_text seg;
                       []])
  end.

Definition to_srt (segments : list segment) : result pystr :=
  norm <- srt_norm_loop segments [] ;;
  srt_lines <- srt_loop norm 1 norm [] ;;
  Ok (join [newline] srt_lines).

(** ** Paragraph reconstruction *)

Definition END_PUNCT : pystr := [0x3002; 0xFF01; 0xFF1F; 0x21; 0x3F; 0x2026].

Definition _ts_to_secs (ts : pystr) : result Z :=
  if negb (nonempty ts) then Ok (-1)%Z
  else
    let ts := strip_chars (py "[]") (strip ts) in
    let parts := split colon ts in
    (* the [try] block either returns a value or falls through *)
    r <- try_except
           (if Nat.eqb (List.length parts) 2 then
              m <- int (List.nth 0 parts []) ;;
              s <- int (List.nth 1 parts []) ;;
              Ok (Some (m * 60 + s)%Z)
            else if Nat.eqb (List.length parts) 3 then
              h <- int (List.nth 0 parts []) ;;
              m <- int (List.nth 1 parts []) ;;
              s <- int (List.nth 2 parts []) ;;
              Ok (Some (h * 3600 + m * 60 + s)%Z)
            else Ok None)
           (fun _ => Ok (Some (-1)%Z)) ;;
    match r with
    | Some v => Ok v
    | None => Ok (-1)%Z
    end.

Definition _clean_piece (text : pystr) : pystr :=
  let t := replace 13 32 (replace newline 32 text) in
  strip (re_sub_ws t).

(** The loop variables of [segments_to_paragraphs]. *)
Record para_state := {
  paras : list pystr;
  buf : list pystr;
  para_start_ts : option pystr;
  prev_secs : option Z
}.

Definition init_state : para_state :=
  {| paras := []; buf := []; para_start_ts := None; prev_secs := None |}.

(** The paragraph string a flush appends to [paras]. *)
Definition para_of (keep_timestamps : bool) (start_ts : option pystr)
  (buf : list pystr) : pystr :=
  let para_text := strip (join [] buf) in
  if keep_timestamps && nonempty (default [] start_ts)
  then py "[" ++ default [] start_ts ++ py "] " ++ para_text
  else para_text.

(** The three flush sites: append the paragraph, clear the buffer and the
    paragraph start. *)
Definition flush (keep_timestamps : bool) (st : para_state) : para_state :=
  {| paras := paras st ++ [para_of keep_timestamps (para_start_ts st) (buf st)];
     buf := [];
     para_start_ts := None;
     prev_secs := prev_secs st |}.

(** The break decision taken before a piece is added. *)
Definition should_break (gap_threshold : pyfloat) (max_chars : Z)
  (st : para_state) (secs : Z) : bool :=
  let should_break :=
    match prev_secs st with
    | Some prev =>
        if (0 <=? secs)%Z && (0 <=? prev)%Z
        then (if int_gt_float (secs - prev) gap_threshold then true else false)
        else false
    | None => false
    end in
  if negb should_break && nonempty (buf st)
     && (max_chars <=? total_len (buf st))%Z
  then true else should_break.

(** The characters after which no joiner space is added. *)
Definition joiner_punct (end_punct : pystr) : pystr :=
  end_punct ++ [0xFF0C; 0x2C; 0x3002; 0xFF0E; 0x2E; 0x3001; 0x3B; 0xFF1B;
                0x3A; 0xFF1A].

(** [any(buf[-1].endswith(p) for p in (end_punct + ...))] *)
Definition ends_with_punct (end_punct : pystr) (buf : list pystr) : bool :=
  existsb (endswith (List.last buf [])) (joiner_punct end_punct).

(** [piece and piece[-1] in end_punct and sum(len(x) for x in buf) >= 30] *)
Definition eager_flush (end_punct : pystr) (piece : pystr)
  (buf : list pystr) : bool :=
  nonempty piece
  && match last_char piece with
     | Some c => char_in c end_punct
     | None => false
     end
  && (30 <=? total_len buf)%Z.

(** Finalize the previous paragraph when a break was decided. *)
Definition break_phase (keep_timestamps should_break : bool)
  (st : para_state) : para_state :=
  if should_break && nonempty (buf st) then flush keep_timestamps st else st.

(** Start a new paragraph if the buffer is empty, then append the piece,
    after a joiner space where one is due, and record [prev_secs]. *)
Definition append_phase (end_punct : pystr) (ts : pystr) (secs : Z)
  (piece : pystr) (st : para_state) : para_state :=
  let start := if nonempty (buf st)
               then para_start_ts st
               else (if (0 <=? secs)%Z then Some ts else None) in
  let buf1 := if nonempty (buf st)
              then (if negb (ends_with_punct end_punct (buf st))
                    then buf st ++ [py " "] else buf st)
              else buf st in
  {| paras := paras st;
     buf := buf1 ++ [piece];
     para_start_ts := start;
     prev_secs := Some secs |}.

(** Flush at once after a strong sentence end. *)
Definition eager_phase (end_punct : pystr) (keep_timestamps : bool)
  (piece : pystr) (st : para_state) : para_state :=
  if eager_flush end_punct piece (buf st) then flush keep_timestamps st else st.

(** One iteration of the loop over [segments]. *)
Definition para_step (gap_threshold : pyfloat) (max_chars : Z)
  (end_punct : pystr) (keep_timestamps : bool)
  (st : para_state) (seg : segment) : result para_state :=
  let ts := str_or (timestamp seg) [] in
  secs <- _ts_to_secs ts ;;
  let piece := _clean_piece (text seg) in
  if negb (nonempty piece) then Ok st
  else
    let sb := should_break gap_threshold max_chars st secs in
    let st := break_phase keep_timestamps sb st in
    let st := append_phase end_punct ts secs piece st in
    Ok (eager_phase end_punct keep_timestamps piece st).

Fixpoint para_loop (gap_threshold : pyfloat) (max_chars : Z)
  (end_punct : pystr) (keep_timestamps : bool)
  (segments : list segment) (st : para_state) : result para_state :=
  match segments with
  | [] => Ok st
  | seg :: rest =>
      st <- para_step gap_threshold max_chars end_punct keep_timestamps st seg ;;
      para_loop gap_threshold max_chars end_punct keep_timestamps rest st
  end.

Definition segments_to_paragraphs (segments : list segment)
  (gap_threshold : pyfloat) (max_chars : Z) (end_punct : pystr)
  (keep_timestamps : bool) : result (list pystr) :=
  st <- para_loop gap_threshold max_chars end_punct keep_timestamps
          segments init_state ;;
  (* flush remaining *)
  Ok (paras (if nonempty (buf st) then flush keep_timestamps st else st)).

(** The defaults of the signature: [gap_threshold=2.0], [max_chars=220]. *)
Definition default_gap : pyfloat := FFinite 2%Q.
Definition default_max_chars : Z := 220.

(** [to_paragraph_text] *)
Definition to_paragraph_text (segments : list segment)
  (gap_threshold : pyfloat) (max_chars : Z) (end_punct : pystr)
  (keep_timestamps : bool) : result pystr :=
  paras <- segments_to_paragraphs segments gap_threshold max_chars end_punct
             keep_timestamps ;;
  Ok (join [newline; newline] paras).

(** * Specification-side definitions *)

(** The seconds a list of [':']-separated parts denotes, in the words of the
    specification: two integer parts are minutes and seconds, three are
    hours, minutes and seconds, anything else is the sentinel [-1]. *)
Definition ts_secs_spec (parts : list pystr) : Z :=
  match parts with
  | [m; s] =>
      match py_int m, py_int s with
      | Some m, Some s => (m * 60 + s)%Z
      | _, _ => (-1)%Z
      end
  | [h; m; s] =>
      match py_int h, py_int m, py_int s with
      | Some h, Some m, Some s => (h * 3600 + m * 60 + s)%Z
      | _, _, _ => (-1)%Z
      end
  | _ => (-1)%Z
  end.

(** The seconds of a segment's timestamp, as the paragraph reconstructor
    reads it. *)
Definition secs_of (seg : segment) : Z :=
  let ts := str_or (timestamp seg) [] in
  ts_secs_spec (split colon (strip_chars (py "[]") (strip ts))).

(** A timestamp is known when its seconds are not negative. *)
Definition known (secs : Z) : Prop := (0 <= secs)%Z.

(** [delta > gap_threshold], read on the values the two numbers denote. *)
Definition exceeds (delta : Z) (gap_threshold : pyfloat) : Prop :=
  match gap_threshold with
  | FFinite q => (q < inject_Z delta)%Q
  | FInf neg => neg = true
  | FNaN => False
  end.

(** The six strong sentence terminators. *)
Definition strong_terminators : list char :=
  [0x3002; 0xFF01; 0xFF1F; 0x21; 0x3F; 0x2026].

(** ASCII period, comma, semicolon and colon. *)
Definition weak_ascii_punct : list char := [0x2E; 0x2C; 0x3B; 0x3A].

(** The state one iteration reaches from [st] on a segment whose cleaned
    text [piece] is not empty, phase by phase. *)
Definition after_break (gap_threshold : pyfloat) (max_chars : Z)
  (keep_timestamps : bool) (st : para_state) (seg : segment) : para_state :=
  break_phase keep_timestamps
    (should_break gap_threshold max_chars st (secs_of seg)) st.

Definition after_append (gap_threshold : pyfloat) (max_chars : Z)
  (end_punct : pystr) (keep_timestamps : bool) (st : para_state)
  (seg : segment) : para_state :=
  append_phase end_punct (str_or (timestamp seg) []) (secs_of seg)
    (_clean_piece (text seg))
    (after_break gap_threshold max_chars keep_timestamps st seg).

(** [s] is not empty and its first character does not satisfy [p]. *)
Definition starts_ok (p : char -> bool) (s : pystr) : Prop :=
  match s with
  | c :: _ => p c = false
  | [] => False
  end.

(** [s] is not empty and neither begins nor ends with a [p] character. *)
Definition trimmed (p : char -> bool) (s : pystr) : Prop :=
  starts_ok p s /\ starts_ok p (rev s).

(** A cleaned, non-empty piece: no whitespace at either end. *)
Definition clean (s : pystr) : Prop := trimmed Py_UNICODE_ISSPACE s.

(** A buffer entry that is the joiner [" "]. *)
Definition is_separator (x : pystr) : bool := pystr_eqb x (py " ").

Definition remove_separators (b : list pystr) : list pystr :=
  List.filter (fun x => negb (is_separator x)) b.

(** The cleaned, non-empty texts of the input, in order. *)
Definition cleaned_pieces (segs : list segment) : list pystr :=
  List.filter nonempty (List.map (fun s => _clean_piece (text s)) segs).

(** [joined ps b]: the buffer [b] holds the pieces [ps] in order, with at
    most one joiner [" "] between two consecutive pieces and none
    elsewhere. *)
Inductive joined : list pystr -> list pystr -> Prop :=
| joined_one p : joined [p] [p]
| joined_next ps b p : joined ps b -> joined (ps ++ [p]) (b ++ [p])
| joined_next_space ps b p :
    joined ps b -> joined (ps ++ [p]) (b ++ [py " "] ++ [p]).

(** A paragraph as it was flushed: the start timestamp recorded for it, the
    pieces merged into it and the buffer they were merged in. *)
Record group := {
  g_start : option pystr;
  g_pieces : list pystr;
  g_buf : list pystr
}.

(** The bracketed timestamp that [keep_timestamps] puts before a body. *)
Definition ts_prefix (keep_timestamps : bool) (start : option pystr) : pystr :=
  if keep_timestamps && nonempty (default [] start)
  then py "[" ++ default [] start ++ py "] "
  else [].

(** The body of a paragraph: its buffer entries put together. *)
Definition body (g : group) : pystr := List.concat (g_buf g).

Definition render (keep_timestamps : bool) (g : group) : pystr :=
  ts_prefix keep_timestamps (g_start g) ++ body g.

(** A flushed paragraph is well formed when its buffer holds exactly its
    pieces and these are cleaned, non-empty texts. *)
Definition group_ok (g : group) : Prop :=
  joined (g_pieces g) (g_buf g) /\ Forall clean (g_pieces g).

(** The invariant of the paragraph loop: the paragraphs flushed so far and
    the pieces still buffered account, in order, for exactly the pieces
    [done] processed so far. *)
Definition para_inv (keep_timestamps : bool) (st : para_state)
  (done : list pystr) : Prop :=
  exists (groups : list group) (cur : list pystr),
    paras st = List.map (render keep_timestamps) groups
    /\ Forall group_ok groups
    /\ ((buf st = [] /\ cur = []) \/ joined cur (buf st))
    /\ Forall clean cur
    /\ List.concat (List.map g_pieces groups) ++ cur = done.

(** The shape dispatch of [_normalize_segments]: a mapping, an object with
    a [start] or a [text] attribute, or a list or tuple of at least two
    items (three or more are read as a triple, two as a pair). *)
Definition recognized (i : raw) : bool :=
  match i with
  | RDict _ => true
  | RObj o => is_Some_b (attr_start o) || is_Some_b (attr_text o)
  | RSeq items => (2 <=? List.length items)%nat
  | ROther => false
  end.


(** [HH:MM:SS] for a whole number of seconds, as [sec_to_hms] prints it. *)
Definition hms_of_secs (sec : Z) : pystr :=
  format_0d 2 (sec / 3600) ++ [colon] ++ format_0d 2 ((sec mod 3600) / 60)
    ++ [colon] ++ format_0d 2 (sec mod 60).

(** The text a mapping contributes: [(i.get("text") or "")], cleaned. *)
Definition dict_text (d : gmap string pyval) : result pystr :=
  replace_strip (py_or (default VNone (d !! "text"%string)) (VStr [])).

(** The number a run of ASCII digits denotes, continuing from [acc]. *)
Definition dval (acc : Z) (ds : pystr) : Z :=
  List.fold_left (fun a c => (a * 10 + digit_val c)%Z) ds acc.

Definition all_digits (s : pystr) : Prop :=
  Forall (fun c => is_digit c = true) s.

(** The seconds a list of already converted timestamp parts denotes to the
    SRT renderer: minutes and seconds, or hours, minutes and seconds. *)
Definition hms_parts_secs (parts : list (option Z)) : option Z :=
  match parts with
  | [Some m; Some s] => Some (m * 60 + s)%Z
  | [Some h; Some m; Some s] => Some (h * 3600 + m * 60 + s)%Z
  | _ => None
  end.

(** The start time, in seconds, the SRT renderer reads from a segment: that
    of its [M:SS] or [H:MM:SS] timestamp, zero when the timestamp is absent
    or empty, and none when the timestamp has another form. *)
Definition srt_start (seg : segment) : option Z :=
  hms_parts_secs
    (List.map py_int (split colon (str_or (timestamp seg) (py "00:00:00")))).

(** The end time of every cue, from the start times of all cues: one second
    before the next cue starts but at least one second after its own start,
    and two seconds after its start for the last cue. *)
Fixpoint cue_ends (starts : list Z) : list Z :=
  match starts with
  | [] => []
  | s :: rest =>
      match rest with
      | [] => (s + 2)%Z
      | n :: _ => Z.max (s + 1) (n - 1)
      end :: cue_ends rest
  end.

(** The four lines of cue number [i]. *)
Definition cue (i : nat) (start_sec end_sec : Z) (txt : pystr) : list pystr :=
  [str (Z.of_nat i);
   secs_to_srt_time start_sec ++ py " --> " ++ secs_to_srt_time end_sec;
   txt;
   []].

(** The lines of the cues numbered from [i] on. *)
Fixpoint cues (i : nat) (starts ends : list Z) (texts : list pystr)
  : list pystr :=
  match starts, ends, texts with
  | s :: ss, e :: es, t :: ts => cue i s e t ++ cues (S i) ss es ts
  | _, _, _ => []
  end.

(** * Names of saved files *)

(** The characters the file-name pattern replaces: backslash, slash, colon,
    asterisk, question mark, double quote, angle brackets and bar. *)
Definition unsafe_chars : pystr := [92; 47; 58; 42; 63; 34; 60; 62; 124].

(** The [re.sub] of [_safe_name]: every maximal run of unsafe characters
    becomes one underscore. [in_run] records that the previous character
    was unsafe. *)
Fixpoint sub_unsafe (in_run : bool) (s : pystr) : pystr :=
  match s with
  | [] => []
  | c :: r =>
      if char_in c unsafe_chars
      then (if in_run then sub_unsafe true r else 95 :: sub_unsafe true r)
      else c :: sub_unsafe false r
  end.

Definition _safe_name (s : pystr) : pystr :=
  let s := strip_chars (py ".") (strip (sub_unsafe false s)) in
  firstn 120 (if nonempty s then s else py "transcript").

(** A character of the class [[A-Za-z0-9_-]]. *)
Definition is_id_char (c : char) : bool :=
  ((65 <=? c) && (c <=? 90)) || ((97 <=? c) && (c <=? 122))
  || ((48 <=? c) && (c <=? 57)) || (c =? 95) || (c =? 45).

Fixpoint take_while (p : char -> bool) (s : pystr) : pystr :=
  match s with
  | [] => []
  | c :: r => if p c then c :: take_while p r else []
  end.

(** What follows the prefix [pre] in [s], when [s] starts with it. *)
Fixpoint strip_prefix (pre s : pystr) : option pystr :=
  match pre, s with
  | [], _ => Some s
  | a :: pre', c :: s' => if a =? c then strip_prefix pre' s' else None
  | _ :: _, [] => None
  end.

(** The alternatives of [(?:v=|/shorts/|/live/|/embed/)], in order. *)
Definition video_markers : list pystr :=
  [py "v="; py "/shorts/"; py "/live/"; py "/embed/"].

(** A match of [(?:v=|/shorts/|/live/|/embed/)([A-Za-z0-9_-]{6,})] at the
    start of [s]: the first alternative that is followed by at least six
    identifier characters; the group takes all of them. *)
Fixpoint match_markers (markers : list pystr) (s : pystr) : option pystr :=
  match markers with
  | [] => None
  | m :: rest =>
      match strip_prefix m s with
      | Some r =>
          let g := take_while is_id_char r in
          if (6 <=? List.length g)%nat then Some g else match_markers rest s
      | None => match_markers rest s
      end
  end.

(** [re.search(...)]: group 1 of the leftmost match. *)
Fixpoint search_video_id (s : pystr) : option pystr :=
  match match_markers video_markers s with
  | Some g => Some g
  | None =>
      match s with
      | [] => None
      | _ :: r => search_video_id r
      end
  end.

Definition _video_id_of (s : pystr) : pystr :=
  if negb (nonempty s) then py "video"
  else match search_video_id s with
       | Some g => g
       | None => s
       end.

(** * The automatic file name *)

(** The earlier definitions of [_video_id_of] and [_safe_name] in the file,
    which the later ones above replace. *)
Definition _video_id_of_first (s : pystr) : pystr :=
  match search_video_id s with
  | Some g => g
  | None => if nonempty s then s else py "video"
  end.

Definition _safe_name_first (s : pystr) : pystr :=
  let s := sub_unsafe false s in
  let s := (let t := strip_chars (py ".") (strip s) in
            if nonempty t then t else py "transcript") in
  firstn 120 s.

(** The choices of [--out]. *)
Inductive out_fmt := FmtText | FmtJson | FmtSrt.

Definition _ext_for (f : out_fmt) : pystr :=
  match f with
  | FmtText => py ".txt"
  | FmtJson => py ".json"
  | FmtSrt => py ".srt"
  end.

Definition is_text (f : out_fmt) : bool :=
  match f with FmtText => true | _ => false end.

(** The last component of [_auto_save_path]: [video] and [paragraphs] are
    the arguments [--video] and [--paragraphs], [html_stem] is the stem of
    the [--html] path. *)
Definition auto_save_name (video : option pystr) (html_stem : pystr)
  (paragraphs : bool) (f : out_fmt) : pystr :=
  let base :=
    if nonempty (default [] video) then
      let vid := _safe_name (_video_id_of (default [] video)) in
      if paragraphs && is_text f
      then py "transcript_paras_" ++ vid
      else py "transcript_" ++ vid
    else
      let base := _safe_name html_stem in
      if paragraphs && is_text f then base ++ py "_paras" else base in
  base ++ _ext_for f.

(** * The progress bar of [JsonCollectionAndConvertion.py] *)

(** The dictionary [FILLER_OPTION] of [PrintProgressBar]: the fill
    character of each bar option. *)
Definition FILLER_OPTION : list (Z * char) :=
  [(1%Z, 0x2588); (2%Z, 42); (3%Z, 35); (4%Z, 79); (5%Z, 43); (6%Z, 86);
   (7%Z, 63); (8%Z, 36); (9%Z, 64); (10%Z, 91); (11%Z, 0x885D);
   (12%Z, 0x96E3); (13%Z, 0x706B); (14%Z, 0x8DD1)].

(** [d[k]] on a dictionary literal with distinct keys. *)
Fixpoint dict_get (k : Z) (d : list (Z * char)) : option char :=
  match d with
  | [] => None
  | (k', v) :: rest => if (k =? k')%Z then Some v else dict_get k rest
  end.

(** [s * n] for a string and an [int]: empty when [n] is not positive. *)
Definition str_mul (s : pystr) (n : Z) : pystr :=
  List.concat (List.repeat s (Z.to_nat n)).

(** How a call of [PrintProgressBar] ends, as far as the bar goes: with the
    bar it prints, or with an exception. *)
Inductive bar_outcome :=
| BarPrinted (bar : pystr)
| BarPercentRaised
| BarZeroDivisionError
| BarKeyError.

(** The bar of [PrintProgressBar] for [int] arguments. The text of the
    percentage is not modelled: [percent_ok] tells whether the statement
    computing it, which comes first, returned. *)
Definition PrintProgressBar (percent_ok : bool)
  (iteration total length fill : Z) : bar_outcome :=
  if negb percent_ok then BarPercentRaised
  else if (total =? 0)%Z then BarZeroDivisionError
  else
    let filledLength := (length * iteration / total)%Z in
    match dict_get fill FILLER_OPTION with
    | None => BarKeyError
    | Some f =>
        BarPrinted (str_mul [f] filledLength
                    ++ str_mul [45] (length - filledLength))
    end.

(** * Further specification-side definitions *)

(** [s] holds no whitespace but single ASCII spaces: every whitespace
    character is a space and is not preceded by another one. [prev] tells
    whether the character before [s] was a space. *)
Fixpoint single_spaced (prev : bool) (s : pystr) : Prop :=
  match s with
  | [] => True
  | c :: r =>
      (Py_UNICODE_ISSPACE c = true -> c = 32 /\ prev = false)
      /\ single_spaced (Py_UNICODE_ISSPACE c) r
  end.

(** The normal form of cleaned text: empty, or single-spaced with no
    whitespace at either end. *)
Definition ws_normal (s : pystr) : Prop :=
  s = [] \/ (clean s /\ single_spaced false s).

(** A list of characters free of the character [c]. *)
Definition free_of (c : char) (s : pystr) : Prop := Forall (fun d => d <> c) s.


(** A paragraph built from a buffer whose entries before the last piece
    stay within [max_chars] characters. *)
Definition capped (keep_timestamps : bool) (max_chars : Z) (pieces : list pystr)
  (para : pystr) : Prop :=
  exists start b p,
    para = para_of keep_timestamps start (b ++ [p])
    /\ In p pieces
    /\ (b = [] \/ (total_len b <= max_chars)%Z).


(** The invariant behind the soft length cap: every flushed paragraph and
    the current buffer consist of entries within [max_chars] characters
    followed by one last piece. *)
Definition cap_inv (keep_timestamps : bool) (max_chars : Z) (st : para_state)
  (done : list pystr) : Prop :=
  Forall (capped keep_timestamps max_chars done) (paras st)
  /\ (buf st = []
      \/ exists b p,
           buf st = b ++ [p] /\ In p done
           /\ (b = [] \/ (total_len b <= max_chars)%Z)).

(** A character allowed in a file name on Windows. *)
Definition safe_char (c : char) : Prop := char_in c unsafe_chars = false.

(** The usual forms of a video address, up to the identifier. *)
Definition video_url_prefixes : list pystr :=
  [py "https://www.youtube.com/watch?v=";
   py "https://www.youtube.com/shorts/";
   py "https://www.youtube.com/live/";
   py "https://www.youtube.com/embed/"].

(** [rest] does not continue an identifier. *)
Definition ends_id (rest : pystr) : Prop :=
  rest = [] \/ starts_ok is_id_char rest.

(** What one raw record contributes to the output of the normalizer:
    nothing when its shape is not recognized, else one segment, unless a
    conversion raises. *)
Definition record_segment (i : raw) : result (option segment) :=
  r <- normalize_record i ;;
  match r with
  | None => Ok None
  | Some (start, text) =>
      ts <- sec_to_hms start ;;
      Ok (Some {| timestamp := Some ts; text := text |})
  end.

(** The segments among the contributions of the records. *)
Definition segments_of (outs : list (option segment)) : list segment :=
  List.flat_map (fun o => match o with Some s => [s] | None => [] end) outs.

(** A text on one line that is empty or has no whitespace at either end. *)
Definition one_line (s : pystr) : Prop :=
  free_of newline s /\ (s = [] \/ clean s).

(** The segments that have text left after cleaning. *)
Definition voiced (segs : list segment) : list segment :=
  List.filter (fun s => nonempty (_clean_piece (text s))) segs.

(** Start times that are all known and each more than [gap] after the one
    before, [prev] being the time before the first. *)
Fixpoint well_spaced (gap : pyfloat) (prev : option Z) (secs : list Z)
  : Prop :=
  match secs with
  | [] => True
  | s :: rest =>
      known s
      /\ match prev with
         | Some p => exceeds (s - p) gap
         | None => True
         end
      /\ well_spaced gap (Some s) rest
  end.

(** The paragraph a segment with a known timestamp makes on its own. *)
Definition own_paragraph (keep_timestamps : bool) (seg : segment) : pystr :=
  ts_prefix keep_timestamps (Some (str_or (timestamp seg) []))
    ++ _clean_piece (text seg).

(** The seconds of the last of [vs]. *)
Definition last_secs (vs : list segment) : option Z :=
  match rev vs with
  | [] => None
  | s :: _ => Some (secs_of s)
  end.

(** The invariant of the paragraph loop on well spaced segments: every
    segment seen is a paragraph of its own, the last one possibly still in
    the buffer. *)
Definition spaced_inv (keep_timestamps : bool) (st : para_state)
  (vs : list segment) : Prop :=
  prev_secs st = last_secs vs
  /\ (forall p, last_secs vs = Some p -> known p)
  /\ ((buf st = [] /\ paras st = List.map (own_paragraph keep_timestamps) vs)
      \/ exists vs0 s,
           vs = vs0 ++ [s]
           /\ buf st = [_clean_piece (text s)]
           /\ nonempty (_clean_piece (text s)) = true
           /\ para_start_ts st = Some (str_or (timestamp s) [])
           /\ paras st = List.map (own_paragraph keep_timestamps) vs0).

(** The time-gap test cannot fire on [segs]: the threshold is not a number
    or is plus infinity, or no timestamp is known. *)
Definition no_gap (gap : pyfloat) (segs : list segment) : Prop :=
  gap = FNaN \/ gap = FInf false
  \/ Forall (fun seg => (secs_of seg < 0)%Z) segs.

(** The characters of the pieces [ps], and one more for each piece. *)
Definition weight (ps : list pystr) : Z :=
  (total_len ps + Z.of_nat (List.length ps))%Z.

(** The invariant of the paragraph loop on a short text: nothing was
    flushed, and the buffer holds the pieces seen, if any, within their
    weight. *)
Definition merge_inv (st : para_state) (done : list pystr) : Prop :=
  paras st = []
  /\ (buf st = [] <-> done = [])
  /\ (buf st <> [] -> (total_len (buf st) + 1 <= weight done)%Z).

(** * Properties *)

(** ** The result monad *)

Lemma bind_Ok {A B} (a : A) (k : A -> result B) : bind (Ok a) k = k a.
Proof. reflexivity. Qed.

Lemma bind_Ok_inv {A B} (m : result A) (k : A -> result B) (b : B) :
  bind m k = Ok b -> exists a, m = Ok a /\ k a = Ok b.
Proof. destruct m as [a|e]; simpl; intros H; [eauto | discriminate]. Qed.

(** ** [_ts_to_secs] *)

Lemma int_eq (s : pystr) : int s = or_raise ValueError (py_int s).
Proof. reflexivity. Qed.

Lemma _ts_to_secs_nonempty (ts : pystr) :
  _ts_to_secs ts
  = Ok (if nonempty ts
        then ts_secs_spec (split colon (strip_chars (py "[]") (strip ts)))
        else (-1)%Z).
Proof.
  unfold _ts_to_secs. destruct (nonempty ts); simpl; [|reflexivity].
  set (parts := split colon _).
  destruct parts as [|a [|b [|c [|d l]]]]; simpl; try reflexivity.
  - unfold int. destruct (py_int a), (py_int b); reflexivity.
  - unfold int. destruct (py_int a), (py_int b), (py_int c); reflexivity.
Qed.

Lemma strip_by_nil p : strip_by p [] = [].
Proof. reflexivity. Qed.

(** The value [_ts_to_secs] returns, for use in the proofs below. *)
Lemma _ts_to_secs_value (ts : pystr) :
  _ts_to_secs ts
  = Ok (ts_secs_spec (split colon (strip_chars (py "[]") (strip ts)))).
Proof.
  rewrite _ts_to_secs_nonempty. destruct ts; reflexivity.
Qed.

(** C7 (as amended): for every input string the conversion returns without
    raising, and it returns the sentinel -1 whenever the parts left after
    trimming surrounding whitespace and surrounding square brackets denote
    it: any part count other than two or three, any non-integer part, an
    empty string. For an input of at most 4300 characters it returns the
    value these parts denote: minutes*60+seconds for two integer parts,
    hours*3600+minutes*60+seconds for three. The bound keeps every part
    below the interpreter's limit on the digits [int] accepts, which
    [py_int] leaves out. *)
Theorem ts_to_secs_total_spec (ts : pystr) :
  let parts := split colon (strip_chars (py "[]") (strip ts)) in
  (exists v, _ts_to_secs ts = Ok v)
  /\ (ts_secs_spec parts = (-1)%Z -> _ts_to_secs ts = Ok (-1)%Z)
  /\ ((List.length ts <= 4300)%nat ->
      _ts_to_secs ts = Ok (ts_secs_spec parts)).
Proof.
  cbv zeta. rewrite _ts_to_secs_value. split; [|split].
  - eexists. reflexivity.
  - now intros ->.
  - reflexivity.
Qed.

(** C7 (as stated) fails: splitting the raw input ["[1:30]"] on [':'] gives
    the parts ["[1"] and ["30]"], neither of which is an integer, yet the
    conversion answers 90 and not the sentinel. *)
Lemma ts_to_secs_brackets_counterexample :
  _ts_to_secs (py "[1:30]") = Ok 90%Z
  /\ split colon (py "[1:30]") = [py "[1"; py "30]"]
  /\ py_int (py "[1") = None /\ py_int (py "30]") = None
  /\ _ts_to_secs (py "[1:30]") <> Ok (ts_secs_spec (split colon (py "[1:30]"))).
Proof. vm_compute. repeat split; congruence. Qed.

(** ** One iteration of the paragraph loop *)

Lemma para_step_eq gap max_chars end_punct keep st seg :
  para_step gap max_chars end_punct keep st seg
  = Ok (if nonempty (_clean_piece (text seg))
        then eager_phase end_punct keep (_clean_piece (text seg))
               (after_append gap max_chars end_punct keep st seg)
        else st).
Proof.
  unfold para_step, after_append, after_break, secs_of.
  rewrite _ts_to_secs_value. simpl.
  destruct (nonempty (_clean_piece (text seg))); reflexivity.
Qed.

Lemma int_gt_float_spec (z : Z) (f : pyfloat) :
  int_gt_float z f = true <-> exceeds z f.
Proof.
  destruct f as [q|neg|]; simpl.
  - destruct (Qlt_le_dec q (inject_Z z)) as [H|H]; split; intros H'; auto.
    + discriminate.
    + exfalso. apply (Qlt_irrefl q). eapply Qlt_le_trans; eauto.
  - reflexivity.
  - split; [discriminate | tauto].
Qed.

Lemma nonempty_true {A} (l : list A) : nonempty l = true <-> l <> [].
Proof. destruct l; simpl; split; congruence. Qed.

Lemma nonempty_false {A} (l : list A) : nonempty l = false <-> l = [].
Proof. destruct l; simpl; split; congruence. Qed.

Lemma should_break_iff gap max_chars st secs :
  should_break gap max_chars st secs = true
  <-> ((exists prev, prev_secs st = Some prev /\ known prev /\ known secs
                     /\ exceeds (secs - prev) gap)
       \/ (buf st <> [] /\ (max_chars <= total_len (buf st))%Z)).
Proof.
  unfold should_break, known.
  destruct (prev_secs st) as [prev|].
  - destruct (Z.leb_spec 0 secs); destruct (Z.leb_spec 0 prev); simpl;
      try (destruct (int_gt_float (secs - prev) gap) eqn:G; simpl);
      try (apply int_gt_float_spec in G);
      try (assert (~ exceeds (secs - prev) gap)
             by (rewrite <- int_gt_float_spec; congruence));
      destruct (nonempty (buf st)) eqn:B; simpl;
      try (apply nonempty_true in B); try (apply nonempty_false in B);
      try (destruct (Z.leb_spec max_chars (total_len (buf st))));
      split; intros Hx; try discriminate; auto;
      try (left; eexists; split; [reflexivity|]; tauto);
      try (right; split; auto; congruence);
      destruct Hx as [(p & E & ? & ? & ?)|[? ?]];
      try (injection E as <-); try lia; try tauto; try congruence.
  - destruct (nonempty (buf st)) eqn:B; simpl;
      try (apply nonempty_true in B); try (apply nonempty_false in B);
      try (destruct (Z.leb_spec max_chars (total_len (buf st))));
      split; intros Hx; try discriminate; auto;
      destruct Hx as [(p & E & ? & ? & ?)|[? ?]];
      try lia; try tauto; try congruence.
Qed.

Lemma total_len_single (p : pystr) :
  total_len [p] = Z.of_nat (List.length p).
Proof. unfold total_len. simpl. lia. Qed.

Lemma eager_flush_short end_punct piece :
  (List.length piece < 30)%nat -> eager_flush end_punct piece [piece] = false.
Proof.
  intros H. unfold eager_flush. rewrite total_len_single.
  destruct (Z.leb_spec 30 (Z.of_nat (List.length piece))); [lia|].
  apply andb_false_r.
Qed.

Lemma para_loop_app gap max_chars end_punct keep xs ys st :
  para_loop gap max_chars end_punct keep (xs ++ ys) st
  = (st' <- para_loop gap max_chars end_punct keep xs st ;;
     para_loop gap max_chars end_punct keep ys st').
Proof.
  revert st. induction xs as [|x xs IH]; intros st; simpl; [reflexivity|].
  rewrite para_step_eq. simpl. apply IH.
Qed.

(** The end-of-input flush leaves exactly one more paragraph than [paras]
    when the buffer is not empty. *)
Lemma final_paras keep st :
  paras (if nonempty (buf st) then flush keep st else st)
  = paras st ++ (if nonempty (buf st)
                 then [para_of keep (para_start_ts st) (buf st)] else []).
Proof. destruct (nonempty (buf st)); simpl; [reflexivity|]. now rewrite app_nil_r. Qed.

(** C1: in every iteration that processes a segment (one whose cleaned text
    is not empty) the loop body is the break phase taken on [should_break],
    then the append, then the eager flush; [should_break] is true exactly
    when the previous and the current timestamp are both known and their
    difference exceeds [gap_threshold], or the buffer is not empty and holds
    at least [max_chars] characters. In particular, with
    [gap_threshold = 2.0], two segments with short texts at 0 and 5 seconds
    give two paragraphs, and at 0 and 1 seconds one paragraph. *)
Theorem should_break_spec :
  (forall gap max_chars end_punct keep st seg,
      nonempty (_clean_piece (text seg)) = true ->
      para_step gap max_chars end_punct keep st seg
      = Ok (eager_phase end_punct keep (_clean_piece (text seg))
              (append_phase end_punct (str_or (timestamp seg) [])
                 (secs_of seg) (_clean_piece (text seg))
                 (break_phase keep
                    (should_break gap max_chars st (secs_of seg)) st))))
  /\ (forall gap max_chars st secs,
         should_break gap max_chars st secs = true
         <-> ((exists prev, prev_secs st = Some prev /\ known prev
                            /\ known secs /\ exceeds (secs - prev) gap)
              \/ (buf st <> [] /\ (max_chars <= total_len (buf st))%Z)))
  /\ (forall max_chars end_punct keep s1 s2,
         nonempty (_clean_piece (text s1)) = true ->
         nonempty (_clean_piece (text s2)) = true ->
         (List.length (_clean_piece (text s1)) < 30)%nat ->
         (30 <= max_chars)%Z ->
         secs_of s1 = 0%Z ->
         (secs_of s2 = 5%Z ->
          exists a b,
            segments_to_paragraphs [s1; s2] default_gap max_chars end_punct keep
            = Ok [a; b])
         /\ (secs_of s2 = 1%Z ->
             exists a,
               segments_to_paragraphs [s1; s2] default_gap max_chars end_punct
                 keep = Ok [a])).
Proof.
  split; [|split].
  - intros. rewrite para_step_eq, H. reflexivity.
  - apply should_break_iff.
  - intros max_chars end_punct keep s1 s2 N1 N2 Hshort Hmax T1.
    assert (E1 : para_step default_gap max_chars end_punct keep init_state s1
                 = Ok {| paras := []; buf := [_clean_piece (text s1)];
                         para_start_ts := Some (str_or (timestamp s1) []);
                         prev_secs := Some 0%Z |}).
    { rewrite para_step_eq, N1.
      unfold after_append, after_break, break_phase, append_phase. rewrite T1.
      unfold eager_phase. simpl. now rewrite eager_flush_short. }
    split; intros T2; unfold segments_to_paragraphs; simpl para_loop;
      rewrite E1; simpl bind; rewrite para_step_eq, N2; simpl bind;
      rewrite final_paras;
      unfold after_append, after_break, break_phase, append_phase,
        should_break, eager_phase; rewrite T2; simpl.
    + destruct (eager_flush _ _ _); simpl; eauto.
    + match goal with
      | |- context [(max_chars <=? ?x)%Z] =>
          destruct (Z.leb_spec max_chars x); [lia|]
      end.
      simpl.
      destruct (eager_flush _ _ _); simpl; eauto.
      destruct (negb (ends_with_punct _ _)); simpl; eauto.
Qed.

(** ** Trimming *)

Lemma drop_while_starts_ok p s : starts_ok p s -> drop_while p s = s.
Proof. destruct s as [|c r]; simpl; [tauto|]. now intros ->. Qed.

Lemma drop_while_cases p s :
  drop_while p s = [] \/ starts_ok p (drop_while p s).
Proof.
  induction s as [|c r IH]; simpl; [now left|].
  destruct (p c) eqn:E; [exact IH|]. right. exact E.
Qed.

Lemma drop_while_snoc p l c :
  p c = false -> drop_while p (l ++ [c]) = drop_while p l ++ [c].
Proof.
  intros Hc. induction l as [|a l IH]; simpl.
  - now rewrite Hc.
  - destruct (p a); [exact IH | reflexivity].
Qed.

Lemma strip_by_trimmed p s : trimmed p s -> strip_by p s = s.
Proof.
  intros [H1 H2]. unfold strip_by, lstrip_by, rstrip_by.
  rewrite (drop_while_starts_ok p s H1), (drop_while_starts_ok p _ H2).
  apply rev_involutive.
Qed.

Lemma strip_by_cases p s : strip_by p s = [] \/ trimmed p (strip_by p s).
Proof.
  unfold strip_by, lstrip_by, rstrip_by.
  destruct (drop_while_cases p s) as [E|H]; [rewrite E; now left|].
  destruct (drop_while p s) as [|c x] eqn:E; [now left|]. simpl in H.
  right. simpl rev. rewrite (drop_while_snoc p (rev x) c H).
  split.
  - rewrite rev_app_distr. simpl. exact H.
  - rewrite rev_involutive.
    destruct (drop_while_cases p (rev x)) as [E'|H'].
    + rewrite E'. simpl. exact H.
    + destruct (drop_while p (rev x)); [contradiction|]. exact H'.
Qed.

Lemma starts_ok_app p a b : starts_ok p a -> starts_ok p (a ++ b).
Proof. destruct a; simpl; tauto. Qed.

Lemma trimmed_app p a m b : trimmed p a -> trimmed p b -> trimmed p (a ++ m ++ b).
Proof.
  intros [Ha _] [_ Hb]. split.
  - now apply starts_ok_app.
  - rewrite !rev_app_distr, <- app_assoc. now apply starts_ok_app.
Qed.

Lemma trimmed_app2 p a b : trimmed p a -> trimmed p b -> trimmed p (a ++ b).
Proof. intros Ha Hb. apply (trimmed_app p a [] b Ha Hb). Qed.

Lemma _clean_piece_clean t :
  nonempty (_clean_piece t) = true -> clean (_clean_piece t).
Proof.
  unfold _clean_piece, strip, clean.
  destruct (strip_by_cases Py_UNICODE_ISSPACE
              (re_sub_ws (replace 13 32 (replace newline 32 t)))) as [E|H];
    [rewrite E; discriminate | intros _; exact H].
Qed.

Lemma clean_not_separator s : clean s -> is_separator s = false.
Proof.
  intros [H _]. unfold is_separator, pystr_eqb.
  apply bool_decide_eq_false. intros ->. vm_compute in H. discriminate.
Qed.

Lemma join_nil_concat (l : list pystr) : join [] l = List.concat l.
Proof.
  induction l as [|a l IH]; simpl; [reflexivity|].
  destruct l as [|b l]; [now rewrite app_nil_r|].
  simpl in *. now rewrite IH.
Qed.

(** ** Printing and reading back integers *)

Lemma dval_app a x y : dval a (x ++ y) = dval (dval a x) y.
Proof. unfold dval. apply fold_left_app. Qed.

Lemma is_digit_mod10 (n : N) : is_digit (48 + n mod 10) = true.
Proof.
  assert (H : n mod 10 < 10) by (apply N.mod_lt; discriminate).
  revert H. generalize (n mod 10). intros r H.
  unfold is_digit. apply andb_true_iff. split; apply N.leb_le; lia.
Qed.

Lemma digit_val_mod10 (n : N) : digit_val (48 + n mod 10) = Z.of_N (n mod 10).
Proof. unfold digit_val. generalize (n mod 10). intros r. f_equal. lia. Qed.

Lemma to_digits_spec f : forall n acc,
  n < 2 ^ N.of_nat (S f) ->
  exists ds,
    to_digits (S f) n acc = ds ++ acc
    /\ ds <> [] /\ all_digits ds
    /\ forall a, dval a ds
                 = (a * 10 ^ Z.of_nat (List.length ds) + Z.of_N n)%Z.
Proof.
  induction f as [|f IH]; intros n acc Hn.
  - change (2 ^ N.of_nat 1) with 2 in Hn.
    assert (E : n / 10 = 0) by (apply N.div_small; lia).
    exists [48 + n mod 10]. cbn [to_digits]. rewrite E. simpl N.eqb. cbv iota.
    split; [reflexivity|]. split; [discriminate|]. split.
    + constructor; [apply is_digit_mod10 | constructor].
    + intros a. unfold dval. cbn [List.fold_left List.length].
      rewrite digit_val_mod10, N.mod_small by lia.
      change (Z.of_nat 1) with 1%Z. lia.
  - change (to_digits (S (S f)) n acc)
      with (if n / 10 =? 0 then (48 + n mod 10) :: acc
            else to_digits (S f) (n / 10) ((48 + n mod 10) :: acc)).
    destruct (N.eqb_spec (n / 10) 0) as [E|E].
    + exists [48 + n mod 10].
      split; [reflexivity|]. split; [discriminate|]. split.
      * constructor; [apply is_digit_mod10 | constructor].
      * intros a. unfold dval. cbn [List.fold_left List.length].
        rewrite digit_val_mod10.
        assert (n = n mod 10).
        { rewrite (N.div_mod n 10) at 1 by discriminate. rewrite E. lia. }
        change (Z.of_nat 1) with 1%Z. lia.
    + assert (Hlt : n / 10 < 2 ^ N.of_nat (S f)).
      { apply N.Div0.div_lt_upper_bound.
        replace (N.of_nat (S (S f))) with (N.succ (N.of_nat (S f))) in Hn by lia.
        rewrite N.pow_succ_r' in Hn. lia. }
      destruct (IH (n / 10) ((48 + n mod 10) :: acc) Hlt)
        as (ds & Eds & Hne & Hd & Hv).
      exists (ds ++ [48 + n mod 10]).
      split; [rewrite Eds, <- app_assoc; reflexivity|].
      split; [intros X; apply app_eq_nil in X; destruct X; discriminate|].
      split.
      * apply Forall_app. split; [exact Hd|].
        constructor; [apply is_digit_mod10 | constructor].
      * intros a. rewrite dval_app, Hv. unfold dval at 1.
        cbn [List.fold_left]. rewrite digit_val_mod10, length_app.
        cbn [List.length].
        rewrite Nat2Z.inj_add, Z.pow_add_r by lia.
        change (Z.of_nat 1) with 1%Z.
        rewrite (N.div_mod n 10) at 3 by discriminate.
        rewrite N2Z.inj_add, N2Z.inj_mul. change (Z.of_N 10) with 10%Z.
        rewrite Z.pow_1_r. ring.
Qed.

Lemma str_of_N_spec (n : N) :
  str_of_N n <> [] /\ all_digits (str_of_N n)
  /\ forall a, dval a (str_of_N n)
               = (a * 10 ^ Z.of_nat (List.length (str_of_N n)) + Z.of_N n)%Z.
Proof.
  unfold str_of_N.
  assert (Hn : n < 2 ^ N.of_nat (S (N.to_nat (N.log2 n)))).
  { replace (N.of_nat (S (N.to_nat (N.log2 n)))) with (N.succ (N.log2 n)) by lia.
    destruct n as [|p]; [reflexivity|]. apply N.log2_spec. reflexivity. }
  destruct (to_digits_spec _ n [] Hn) as (ds & E & Hne & Hd & Hv).
  rewrite E, app_nil_r. auto.
Qed.

Lemma is_digit_range c : is_digit c = true -> 48 <= c <= 57.
Proof.
  unfold is_digit. intros H. apply andb_true_iff in H as [H1 H2].
  apply N.leb_le in H1, H2. lia.
Qed.

Lemma Py_ISSPACE_range c : Py_ISSPACE c = true -> c <= 32.
Proof.
  unfold Py_ISSPACE. intros H. apply orb_true_iff in H as [H|H].
  - apply andb_true_iff in H as [_ H]. apply N.leb_le in H. lia.
  - apply N.eqb_eq in H. lia.
Qed.

Lemma not_space_above c : 32 < c -> Py_ISSPACE c = false.
Proof.
  intros H. destruct (Py_ISSPACE c) eqn:E; [|reflexivity].
  apply Py_ISSPACE_range in E. lia.
Qed.

Lemma to_ascii_id (s : pystr) :
  Forall (fun c => c < 127) s -> to_ascii s = Some s.
Proof.
  induction 1 as [|c s Hc _ IH]; [reflexivity|].
  simpl. rewrite IH. unfold to_ascii_char.
  destruct (N.ltb_spec c 127); [reflexivity | lia].
Qed.

Lemma digits_value_digits ds : forall acc b,
  all_digits ds -> ds <> [] -> digits_value acc b ds = Some (dval acc ds).
Proof.
  induction ds as [|c r IH]; intros acc b Hd Hne; [contradiction|].
  inversion Hd as [|? ? Hc Hr]; subst. simpl.
  destruct (N.eqb_spec c 95) as [->|_]; [discriminate|].
  rewrite Hc. destruct r as [|c2 r2]; [reflexivity|].
  now apply IH.
Qed.

Lemma all_digits_repeat k : all_digits (List.repeat 48 k).
Proof. induction k; simpl; constructor; auto. Qed.

Lemma dval_zeros k : dval 0 (List.repeat 48 k) = 0%Z.
Proof. induction k as [|k IH]; [reflexivity|]. simpl. exact IH. Qed.

(** The digits [format_0d] prints after the sign. *)
Lemma format_0d_shape w z :
  exists body,
    format_0d w z = (if (z <? 0)%Z then [45] else []) ++ body
    /\ all_digits body /\ body <> []
    /\ dval 0 body = Z.abs z.
Proof.
  unfold format_0d.
  destruct (str_of_N_spec (Z.abs_N z)) as (Hne & Hd & Hv).
  eexists. split; [reflexivity|]. split; [|split].
  - apply Forall_app. split; [apply all_digits_repeat | exact Hd].
  - intros E. apply app_eq_nil in E. destruct E. contradiction.
  - rewrite dval_app, dval_zeros, Hv, N2Z.inj_abs_N. lia.
Qed.

Lemma all_digits_last body :
  all_digits body -> body <> [] ->
  exists l d, body = l ++ [d] /\ is_digit d = true.
Proof.
  intros Hd Hne. destruct (exists_last Hne) as (l & d & ->).
  exists l, d. split; [reflexivity|].
  apply Forall_app in Hd as [_ Hd]. now inversion Hd.
Qed.

Lemma digits_trimmed p pre body :
  (forall c, c = 45 \/ 48 <= c <= 57 -> p c = false) ->
  all_digits body -> body <> [] -> pre = [] \/ pre = [45] ->
  trimmed p (pre ++ body).
Proof.
  intros Hp Hd Hne Hpre. split.
  - destruct Hpre as [->| ->]; [|apply Hp; now left].
    destruct body as [|c r]; [contradiction|]. inversion Hd; subst. simpl.
    apply Hp. right. now apply is_digit_range.
  - destruct (all_digits_last body Hd Hne) as (l & d & -> & Hdig).
    rewrite app_assoc, rev_app_distr. simpl.
    apply Hp. right. now apply is_digit_range.
Qed.

Lemma format_0d_trimmed p w z :
  (forall c, c = 45 \/ 48 <= c <= 57 -> p c = false) ->
  trimmed p (format_0d w z).
Proof.
  intros Hp. destruct (format_0d_shape w z) as (body & -> & Hd & Hne & _).
  apply digits_trimmed; auto. destruct (z <? 0)%Z; auto.
Qed.

Lemma Py_ISSPACE_digit c : c = 45 \/ 48 <= c <= 57 -> Py_ISSPACE c = false.
Proof. intros H. apply not_space_above. lia. Qed.

Lemma format_0d_ascii w z : Forall (fun c => c < 127) (format_0d w z).
Proof.
  destruct (format_0d_shape w z) as (body & -> & Hd & _).
  apply Forall_app. split.
  - destruct (z <? 0)%Z; [|constructor]. constructor; [reflexivity|constructor].
  - eapply List.Forall_impl; [|exact Hd]. intros c Hc.
    apply is_digit_range in Hc. lia.
Qed.

Lemma py_int_format_0d w z : py_int (format_0d w z) = Some z.
Proof.
  unfold py_int. rewrite (to_ascii_id _ (format_0d_ascii w z)).
  destruct (format_0d_shape w z) as (body & E & Hd & Hne & Hv). rewrite E.
  change (rstrip_by Py_ISSPACE (lstrip_by Py_ISSPACE ?a))
    with (strip_by Py_ISSPACE a).
  rewrite strip_by_trimmed.
  2:{ apply digits_trimmed; auto using Py_ISSPACE_digit.
      destruct (z <? 0)%Z; auto. }
  destruct (Z.ltb_spec z 0).
  - simpl. rewrite (digits_value_digits body 0%Z true Hd Hne), Hv. simpl.
    f_equal. lia.
  - cbn [app]. destruct body as [|c r]; [contradiction|].
    assert (Hr' : 48 <= c <= 57).
    { apply is_digit_range. now inversion Hd. }
    destruct (N.eqb_spec c 43); [lia|]. destruct (N.eqb_spec c 45); [lia|].
    etransitivity; [apply digits_value_digits; assumption|].
    f_equal. transitivity (Z.abs z); [exact Hv | lia].
Qed.

Lemma int_format_0d w z : int (format_0d w z) = Ok z.
Proof. unfold int. now rewrite py_int_format_0d. Qed.

(** ** Splitting *)

Lemma split_nonnil sep s : split sep s <> [].
Proof.
  destruct s as [|c r]; simpl; [discriminate|].
  destruct (c =? sep); [discriminate|]. destruct (split sep r); discriminate.
Qed.

Lemma split_no_sep sep a : Forall (fun c => c <> sep) a -> split sep a = [a].
Proof.
  induction 1 as [|c a Hc _ IH]; [reflexivity|]. simpl.
  destruct (N.eqb_spec c sep); [contradiction|]. now rewrite IH.
Qed.

Lemma split_app_sep sep a b :
  Forall (fun c => c <> sep) a -> split sep (a ++ sep :: b) = a :: split sep b.
Proof.
  induction 1 as [|c a Hc _ IH]; simpl.
  - now rewrite N.eqb_refl.
  - destruct (N.eqb_spec c sep); [contradiction|]. now rewrite IH.
Qed.

Lemma split_length sep s : List.length (split sep s) = S (count sep s).
Proof.
  unfold count. induction s as [|c r IH]; [reflexivity|]. simpl.
  rewrite (N.eqb_sym sep c). destruct (c =? sep); simpl.
  - now rewrite IH.
  - destruct (split sep r) eqn:E; [now destruct (split_nonnil sep r)|].
    simpl in *. exact IH.
Qed.

Lemma format_0d_no_colon w z : Forall (fun c => c <> colon) (format_0d w z).
Proof.
  destruct (format_0d_shape w z) as (body & -> & Hd & _).
  apply Forall_app. split.
  - destruct (z <? 0)%Z; [|constructor]. constructor; [discriminate|constructor].
  - eapply List.Forall_impl; [|exact Hd]. intros c Hc.
    apply is_digit_range in Hc. unfold colon. lia.
Qed.

(** ** Timestamps printed by the normalizer *)

Lemma split_hms n :
  split colon (hms_of_secs n)
  = [format_0d 2 (n / 3600); format_0d 2 ((n mod 3600) / 60);
     format_0d 2 (n mod 60)].
Proof.
  unfold hms_of_secs. etransitivity.
  { apply (split_app_sep colon (format_0d 2 (n / 3600))
             (format_0d 2 ((n mod 3600) / 60) ++ [colon]
                ++ format_0d 2 (n mod 60))).
    apply format_0d_no_colon. }
  f_equal. etransitivity.
  { apply (split_app_sep colon (format_0d 2 ((n mod 3600) / 60))
             (format_0d 2 (n mod 60))).
    apply format_0d_no_colon. }
  f_equal. apply split_no_sep, format_0d_no_colon.
Qed.

Lemma hms_value (n : Z) :
  (n / 3600 * 3600 + (n mod 3600) / 60 * 60 + n mod 60)%Z = n.
Proof.
  assert (H1 := Z.div_mod n 3600 ltac:(lia)).
  assert (H2 := Z.div_mod (n mod 3600) 60 ltac:(lia)).
  assert (H3 : ((n mod 3600) mod 60 = n mod 60)%Z).
  { apply Z.mod_mod_divide. exists 60%Z. reflexivity. }
  lia.
Qed.

Lemma Py_UNICODE_ISSPACE_digit c :
  c = 45 \/ 48 <= c <= 57 -> Py_UNICODE_ISSPACE c = false.
Proof.
  intros H. unfold Py_UNICODE_ISSPACE.
  rewrite !orb_false_iff, !andb_false_iff, !N.leb_gt, !N.eqb_neq. lia.
Qed.

Lemma brackets_digit c :
  c = 45 \/ 48 <= c <= 57 -> char_in c (py "[]") = false.
Proof.
  intros H. change (py "[]") with [91; 93]. unfold char_in. simpl.
  rewrite !orb_false_iff, !N.eqb_neq. lia.
Qed.

Lemma hms_trimmed p n :
  (forall c, c = 45 \/ 48 <= c <= 57 -> p c = false) ->
  trimmed p (hms_of_secs n).
Proof.
  intros Hp. unfold hms_of_secs.
  replace (format_0d 2 (n / 3600) ++ [colon]
             ++ format_0d 2 ((n mod 3600) / 60) ++ [colon]
             ++ format_0d 2 (n mod 60))
    with (format_0d 2 (n / 3600)
            ++ ([colon] ++ format_0d 2 ((n mod 3600) / 60) ++ [colon])
            ++ format_0d 2 (n mod 60))
    by (now rewrite <- !app_assoc).
  apply trimmed_app; now apply format_0d_trimmed.
Qed.

(** A timestamp printed by [sec_to_hms] reads back as the seconds it was
    printed from. *)
Lemma ts_to_secs_hms n : _ts_to_secs (hms_of_secs n) = Ok n.
Proof.
  rewrite _ts_to_secs_value.
  replace (strip (hms_of_secs n)) with (hms_of_secs n)
    by (symmetry; apply strip_by_trimmed, hms_trimmed,
          Py_UNICODE_ISSPACE_digit).
  replace (strip_chars (py "[]") (hms_of_secs n)) with (hms_of_secs n)
    by (symmetry; apply strip_by_trimmed, hms_trimmed, brackets_digit).
  rewrite split_hms. unfold ts_secs_spec. rewrite !py_int_format_0d.
  f_equal. apply hms_value.
Qed.

Lemma srt_start_hms seg n :
  timestamp seg = Some (hms_of_secs n) -> srt_start seg = Some n.
Proof.
  intros H. unfold srt_start, str_or. rewrite H.
  destruct (hms_of_secs n) eqn:E.
  - exfalso. revert E. unfold hms_of_secs.
    destruct (format_0d_shape 2 (n / 3600)) as (body & -> & _ & Hne & _).
    intros E. apply app_eq_nil in E as [E _].
    apply app_eq_nil in E as [_ E]. contradiction.
  - cbn [nonempty]. rewrite <- E, split_hms. cbn [List.map].
    rewrite !py_int_format_0d. simpl. f_equal. apply hms_value.
Qed.

(** ** Buffers and the pieces they hold *)

Lemma joined_nonempty ps b : joined ps b -> b <> [] /\ ps <> [].
Proof.
  induction 1; split; try discriminate;
    try (intros E; apply app_eq_nil in E; destruct E; discriminate).
Qed.

Lemma joined_clean_concat ps b :
  joined ps b -> Forall clean ps -> clean (List.concat b).
Proof.
  induction 1 as [p|ps b p J IH|ps b p J IH]; intros F.
  - simpl. rewrite app_nil_r. inversion F. assumption.
  - apply Forall_app in F as [F1 F2]. inversion F2; subst.
    rewrite concat_app. simpl. rewrite app_nil_r.
    apply trimmed_app2; [apply IH|]; assumption.
  - apply Forall_app in F as [F1 F2]. inversion F2; subst.
    rewrite !concat_app. cbn [List.concat]. rewrite !app_nil_r.
    apply trimmed_app; [apply IH|]; assumption.
Qed.

Lemma remove_separators_app a b :
  remove_separators (a ++ b) = remove_separators a ++ remove_separators b.
Proof. apply List.filter_app. Qed.

Lemma joined_remove_separators ps b :
  joined ps b -> Forall clean ps -> remove_separators b = ps.
Proof.
  induction 1 as [p|ps b p J IH|ps b p J IH]; intros F.
  - inversion F; subst. unfold remove_separators. simpl.
    now rewrite clean_not_separator.
  - apply Forall_app in F as [F1 F2]. inversion F2; subst.
    rewrite remove_separators_app, IH by assumption.
    unfold remove_separators. simpl. now rewrite clean_not_separator.
  - apply Forall_app in F as [F1 F2]. inversion F2; subst.
    rewrite !remove_separators_app, IH by assumption.
    unfold remove_separators at 2. simpl.
    unfold remove_separators. simpl. now rewrite clean_not_separator.
Qed.

Lemma para_of_joined keep start ps b :
  joined ps b -> Forall clean ps ->
  para_of keep start b = ts_prefix keep start ++ List.concat b.
Proof.
  intros J F. unfold para_of, ts_prefix.
  rewrite join_nil_concat.
  unfold strip. rewrite (strip_by_trimmed _ _ (joined_clean_concat _ _ J F)).
  destruct (keep && nonempty (default [] start)); [|reflexivity].
  now rewrite <- !app_assoc.
Qed.

(** ** The loop invariant *)

Lemma para_inv_init keep : para_inv keep init_state [].
Proof.
  exists [], []. simpl. split; [|split; [|split; [|split]]]; auto.
Qed.

Lemma para_inv_flush keep st done :
  para_inv keep st done -> buf st <> [] -> para_inv keep (flush keep st) done.
Proof.
  intros (groups & cur & Hp & Hg & Hb & Hc & Hd) Hne.
  destruct Hb as [[E _]|J]; [contradiction|].
  exists (groups ++ [{| g_start := para_start_ts st; g_pieces := cur;
                        g_buf := buf st |}]), [].
  simpl. split; [|split; [|split; [|split]]].
  - rewrite Hp, List.map_app. simpl. f_equal.
    rewrite (para_of_joined keep _ cur (buf st) J Hc). reflexivity.
  - apply Forall_app. split; [assumption|].
    constructor; [|constructor]. split; assumption.
  - now left.
  - constructor.
  - rewrite List.map_app, concat_app. simpl. now rewrite !app_nil_r.
Qed.

Lemma para_inv_append keep end_punct ts secs piece st done :
  para_inv keep st done -> clean piece ->
  para_inv keep (append_phase end_punct ts secs piece st) (done ++ [piece]).
Proof.
  intros (groups & cur & Hp & Hg & Hb & Hc & Hd) Hpc.
  exists groups, (cur ++ [piece]).
  unfold append_phase. simpl.
  split; [assumption|split; [assumption|split; [|split]]].
  - right. destruct Hb as [[E ->]|J].
    + rewrite E. simpl. constructor.
    + destruct (joined_nonempty _ _ J) as [Hne _].
      destruct (buf st) as [|b0 bs] eqn:E; [contradiction|].
      cbn [nonempty].
      destruct (negb (ends_with_punct end_punct (b0 :: bs))).
      * rewrite <- app_assoc. now constructor.
      * now constructor.
  - apply Forall_app. split; [assumption|].
    apply List.Forall_cons; [assumption | apply List.Forall_nil].
  - now rewrite app_assoc, Hd.
Qed.

Lemma para_inv_step keep gap max_chars end_punct st seg done :
  para_inv keep st done ->
  exists st',
    para_step gap max_chars end_punct keep st seg = Ok st'
    /\ para_inv keep st'
         (done ++ List.filter nonempty [_clean_piece (text seg)]).
Proof.
  intros Hinv. rewrite para_step_eq. eexists. split; [reflexivity|].
  simpl. destruct (nonempty (_clean_piece (text seg))) eqn:N.
  - assert (Hc := _clean_piece_clean _ N).
    assert (H1 : para_inv keep (after_break gap max_chars keep st seg) done).
    { unfold after_break, break_phase.
      destruct (should_break _ _ _ _ && nonempty (buf st)) eqn:B; [|assumption].
      apply andb_true_iff in B as [_ B]. apply nonempty_true in B.
      now apply para_inv_flush. }
    assert (H2 := para_inv_append keep end_punct (str_or (timestamp seg) [])
                    (secs_of seg) _ _ _ H1 Hc).
    fold (after_append gap max_chars end_punct keep st seg) in H2.
    unfold eager_phase. destruct (eager_flush _ _ _); [|assumption].
    apply para_inv_flush; [assumption|].
    unfold after_append, append_phase. simpl.
    intros E. apply app_eq_nil in E. destruct E. discriminate.
  - now rewrite app_nil_r.
Qed.

Lemma cleaned_pieces_cons seg segs :
  cleaned_pieces (seg :: segs)
  = List.filter nonempty [_clean_piece (text seg)] ++ cleaned_pieces segs.
Proof.
  unfold cleaned_pieces. simpl.
  destruct (nonempty (_clean_piece (text seg))); reflexivity.
Qed.

Lemma para_inv_loop keep gap max_chars end_punct segs st done :
  para_inv keep st done ->
  exists st',
    para_loop gap max_chars end_punct keep segs st = Ok st'
    /\ para_inv keep st' (done ++ cleaned_pieces segs).
Proof.
  revert st done. induction segs as [|seg segs IH]; intros st done Hinv.
  - exists st. split; [reflexivity|]. unfold cleaned_pieces. simpl.
    now rewrite app_nil_r.
  - destruct (para_inv_step keep gap max_chars end_punct st seg done Hinv)
      as (st1 & E1 & H1).
    destruct (IH st1 _ H1) as (st' & E' & H').
    exists st'. split.
    + simpl. rewrite E1. exact E'.
    + now rewrite cleaned_pieces_cons, app_assoc.
Qed.

(** C3: for every segment sequence and configuration the paragraphs are the
    renderings of groups of pieces, each body being its pieces put together
    with at most a single-space separator between consecutive pieces;
    removing those separators and concatenating the bodies gives back, in
    order, exactly the cleaned non-empty texts of the input, nothing dropped
    and nothing duplicated. *)
Theorem paragraphs_preserve_text segs gap max_chars end_punct keep :
  exists groups : list group,
    segments_to_paragraphs segs gap max_chars end_punct keep
    = Ok (List.map (render keep) groups)
    /\ Forall (fun g => joined (g_pieces g) (g_buf g)
                        /\ remove_separators (g_buf g) = g_pieces g) groups
    /\ List.concat (List.map (fun g => remove_separators (g_buf g)) groups)
       = cleaned_pieces segs
    /\ List.concat
         (List.map (fun g => List.concat (remove_separators (g_buf g))) groups)
       = List.concat (cleaned_pieces segs).
Proof.
  destruct (para_inv_loop keep gap max_chars end_punct segs init_state []
              (para_inv_init keep)) as (st & E & Hinv).
  assert (Hfin : para_inv keep
                   (if nonempty (buf st) then flush keep st else st)
                   (cleaned_pieces segs)).
  { destruct (nonempty (buf st)) eqn:N; [|exact Hinv].
    apply para_inv_flush; [exact Hinv | now apply nonempty_true]. }
  destruct Hfin as (groups & cur & Hp & Hg & Hb & Hc & Hd).
  assert (cur = []) as ->.
  { destruct Hb as [[_ ?]|J]; [assumption|].
    destruct (joined_nonempty _ _ J) as [Hne _].
    destruct (nonempty (buf st)) eqn:N; simpl in Hne; [congruence|].
    apply nonempty_false in N. contradiction. }
  rewrite app_nil_r in Hd.
  assert (Hrm : Forall (fun g => joined (g_pieces g) (g_buf g)
                        /\ remove_separators (g_buf g) = g_pieces g) groups).
  { eapply List.Forall_impl; [|exact Hg]. intros g [J F]. split; [exact J|].
    now apply joined_remove_separators. }
  assert (Hmap : List.map (fun g => remove_separators (g_buf g)) groups
                 = List.map g_pieces groups).
  { clear -Hrm. induction Hrm as [|g l [_ Hx] _ IH]; simpl; [reflexivity|].
    now rewrite Hx, IH. }
  exists groups. split; [|split; [exact Hrm|split]].
  - unfold segments_to_paragraphs. rewrite E. simpl. now rewrite Hp.
  - now rewrite Hmap.
  - rewrite <- Hd, <- Hmap. clear.
    induction groups as [|g l IH]; simpl; [reflexivity|].
    now rewrite concat_app, IH.
Qed.

(** ** The eager flush *)

Lemma last_char_nonempty (s : pystr) c : last_char s = Some c -> nonempty s = true.
Proof. destruct s; [discriminate | reflexivity]. Qed.

Lemma last_char_snoc (s : pystr) c : last_char (s ++ [c]) = Some c.
Proof. unfold last_char. rewrite List.map_app. simpl. apply last_last. Qed.

Lemma char_in_In c (l : pystr) : char_in c l = true <-> In c l.
Proof.
  unfold char_in. rewrite existsb_exists. split.
  - intros (x & Hx & E). apply N.eqb_eq in E. now subst.
  - intros H. exists c. split; [assumption | apply N.eqb_refl].
Qed.

Lemma after_append_buf gap max_chars end_punct keep st seg :
  exists b0,
    buf (after_append gap max_chars end_punct keep st seg)
    = b0 ++ [_clean_piece (text seg)].
Proof. unfold after_append, append_phase. simpl. eauto. Qed.

(** C2: right after the cleaned text of a segment is appended to the buffer,
    if that text ends in a character of the end-punctuation set and the
    buffer holds at least 30 characters, the same iteration flushes the
    buffer as a paragraph: the step ends with the paragraph appended, the
    buffer empty and the paragraph start cleared. The default set
    [END_PUNCT] holds no comma. *)
Theorem eager_flush_same_iteration gap max_chars end_punct keep st seg c :
  last_char (_clean_piece (text seg)) = Some c ->
  char_in c end_punct = true ->
  (30 <= total_len (buf (after_append gap max_chars end_punct keep st seg)))%Z ->
  (exists b0, buf (after_append gap max_chars end_punct keep st seg)
              = b0 ++ [_clean_piece (text seg)])
  /\ para_step gap max_chars end_punct keep st seg
     = Ok {| paras :=
               paras (after_break gap max_chars keep st seg)
               ++ [para_of keep
                     (para_start_ts
                        (after_append gap max_chars end_punct keep st seg))
                     (buf (after_append gap max_chars end_punct keep st seg))];
             buf := [];
             para_start_ts := None;
             prev_secs := Some (secs_of seg) |}
  /\ char_in 0x2C END_PUNCT = false
  /\ char_in 0xFF0C END_PUNCT = false
  /\ char_in 0x3001 END_PUNCT = false.
Proof.
  intros Hl Hc Hlen. split; [apply after_append_buf|].
  split; [|repeat split].
  rewrite para_step_eq, (last_char_nonempty _ _ Hl).
  unfold eager_phase, eager_flush.
  rewrite (last_char_nonempty _ _ Hl), Hl, Hc.
  destruct (Z.leb_spec 30
              (total_len (buf (after_append gap max_chars end_punct keep st seg))));
    [|lia].
  reflexivity.
Qed.

Lemma endswith_last (s : pystr) c d :
  last_char s = Some c -> endswith s d = (c =? d).
Proof. unfold endswith. now intros ->. Qed.

Lemma weak_punct_not_strong c :
  In c weak_ascii_punct -> char_in c END_PUNCT = false.
Proof.
  intros H. repeat (destruct H as [<-|H]; [reflexivity|]). contradiction.
Qed.

Lemma weak_punct_suppresses_joiner (piece : pystr) c :
  last_char piece = Some c -> In c weak_ascii_punct ->
  existsb (endswith piece) (joiner_punct END_PUNCT) = true.
Proof.
  intros Hl H. apply existsb_exists. exists c. split.
  - repeat (destruct H as [<-|H]; [vm_compute; tauto|]). contradiction.
  - rewrite (endswith_last _ _ _ Hl). apply N.eqb_refl.
Qed.

Lemma eager_flush_iff piece b :
  eager_flush END_PUNCT piece b = true
  <-> (exists c, last_char piece = Some c /\ In c strong_terminators)
      /\ (30 <= total_len b)%Z.
Proof.
  unfold eager_flush. rewrite !andb_true_iff, Z.leb_le. split.
  - intros [[_ H] Hlen]. split; [|assumption].
    destruct (last_char piece) as [c|]; [|discriminate].
    exists c. split; [reflexivity|]. now apply char_in_In.
  - intros [(c & Hl & Hin) Hlen]. rewrite Hl, (last_char_nonempty _ _ Hl).
    repeat split; try assumption. now apply char_in_In.
Qed.

(** C10: with the default [END_PUNCT] the eager flush fires only when the
    appended piece ends in one of exactly six characters (ideographic full
    stop, full-width and ASCII exclamation and question marks, ellipsis).
    A piece ending in an ASCII period, comma, semicolon or colon never
    triggers it, although these characters do suppress the joiner space:
    the piece stays in the buffer after its own iteration, and the
    paragraph ends at that piece only if the next processed segment takes
    the break decided by [should_break] (time gap or length), or at the
    end of the input; otherwise the next piece is appended right after
    it. *)
Theorem weak_punct_never_eager_flushes :
  (forall c, char_in c END_PUNCT = true <-> In c strong_terminators)
  /\ (forall piece b,
         eager_flush END_PUNCT piece b = true
         <-> (exists c, last_char piece = Some c /\ In c strong_terminators)
             /\ (30 <= total_len b)%Z)
  /\ (forall piece c,
         last_char piece = Some c -> In c weak_ascii_punct ->
         (forall b, eager_flush END_PUNCT piece b = false)
         /\ (forall b, ends_with_punct END_PUNCT (b ++ [piece]) = true)
         /\ (forall gap max_chars keep st seg,
                _clean_piece (text seg) = piece ->
                para_step gap max_chars END_PUNCT keep st seg
                = Ok (after_append gap max_chars END_PUNCT keep st seg)
                /\ exists b0,
                    buf (after_append gap max_chars END_PUNCT keep st seg)
                    = b0 ++ [piece])
         /\ (forall gap max_chars keep st b seg2,
                buf st = b ++ [piece] ->
                after_append gap max_chars END_PUNCT keep st seg2
                = if should_break gap max_chars st (secs_of seg2)
                  then {| paras := paras st
                                   ++ [para_of keep (para_start_ts st)
                                         (b ++ [piece])];
                          buf := [_clean_piece (text seg2)];
                          para_start_ts :=
                            if (0 <=? secs_of seg2)%Z
                            then Some (str_or (timestamp seg2) []) else None;
                          prev_secs := Some (secs_of seg2) |}
                  else {| paras := paras st;
                          buf := (b ++ [piece]) ++ [_clean_piece (text seg2)];
                          para_start_ts := para_start_ts st;
                          prev_secs := Some (secs_of seg2) |})
         /\ (forall keep st b,
                buf st = b ++ [piece] ->
                paras (if nonempty (buf st) then flush keep st else st)
                = paras st ++ [para_of keep (para_start_ts st) (b ++ [piece])])).
Proof.
  split; [intros c; apply char_in_In|].
  split; [apply eager_flush_iff|].
  intros piece c Hl Hin.
  assert (Hno : forall b, eager_flush END_PUNCT piece b = false).
  { intros b. unfold eager_flush.
    rewrite Hl, (weak_punct_not_strong c Hin). now rewrite andb_false_r. }
  assert (Hj : forall b, ends_with_punct END_PUNCT (b ++ [piece]) = true).
  { intros b. unfold ends_with_punct. rewrite last_last.
    exact (weak_punct_suppresses_joiner piece c Hl Hin). }
  assert (Hnb : forall b, nonempty (b ++ [piece]) = true).
  { intros b. apply nonempty_true. intros E. apply app_eq_nil in E.
    destruct E. discriminate. }
  split; [exact Hno|]. split; [exact Hj|]. split; [|split].
  - intros gap max_chars keep st seg <-. split; [|apply after_append_buf].
    rewrite para_step_eq, (last_char_nonempty _ _ Hl).
    unfold eager_phase. now rewrite Hno.
  - intros gap max_chars keep st b seg2 Hb.
    unfold after_append, after_break, break_phase, append_phase.
    rewrite Hb, Hnb, andb_true_r.
    destruct (should_break gap max_chars st (secs_of seg2)); simpl.
    + now rewrite Hb.
    + rewrite Hb, Hnb, Hj. reflexivity.
  - intros keep st b Hb. rewrite final_paras, Hb, Hnb. reflexivity.
Qed.

(** ** The normalizer *)

Lemma normalize_record_recognized i :
  recognized i = false -> normalize_record i = Ok None.
Proof.
  destruct i as [d|o|items|]; simpl; try discriminate; try reflexivity.
  - now intros ->.
  - destruct items as [|a [|b [|c l]]]; simpl; try reflexivity; discriminate.
Qed.

Lemma normalize_record_Some i r :
  normalize_record i = Ok (Some r) -> recognized i = true.
Proof.
  destruct (recognized i) eqn:E; [reflexivity|].
  rewrite (normalize_record_recognized i E). discriminate.
Qed.

Lemma normalize_record_None i :
  normalize_record i = Ok None -> recognized i = false.
Proof.
  destruct i as [d|o|items|]; simpl; try reflexivity.
  - destruct (float _); simpl; [|discriminate].
    destruct (replace_strip _); simpl; discriminate.
  - destruct (is_Some_b (attr_start o) || is_Some_b (attr_text o));
      [|reflexivity].
    destruct (float _); simpl; [|discriminate].
    match goal with |- bind ?m _ = _ -> _ => destruct m; simpl; [|discriminate] end.
    destruct (replace_strip _); simpl; discriminate.
  - destruct items as [|a [|b [|c l]]]; simpl; try reflexivity;
      (destruct (float _); simpl; [|discriminate]);
      (destruct (replace_strip _); simpl; discriminate).
Qed.





Lemma sec_to_hms_round f n :
  round f = Ok n -> sec_to_hms f = Ok (hms_of_secs n).
Proof. unfold sec_to_hms. now intros ->. Qed.

Lemma round_fzero : round fzero = Ok 0%Z.
Proof. reflexivity. Qed.

(** C4 (as amended): a mapping whose text is a [str] (or missing) yields
    exactly one segment. Its timestamp is the [HH:MM:SS] rendering of the
    start value, converted by [float] and rounded to whole seconds, when
    [start] is present and convertible; when [start] is absent the start
    defaults to zero and the timestamp is ["00:00:00"], a known timestamp
    and not the unknown sentinel; when [start] is present and [float]
    rejects it, no segment is produced and the conversion error leaves the
    normalizer. A timestamp so rendered reads back as the whole seconds it
    was rendered from. *)
Theorem dict_record_timestamp (d : gmap string pyval) rest out :
  (forall t,
      d !! "start"%string = None -> dict_text d = Ok t ->
      normalize_loop (RDict d :: rest) out
      = normalize_loop rest
          (out ++ [{| timestamp := Some (py "00:00:00"); text := t |}]))
  /\ (forall v f n t,
         d !! "start"%string = Some v -> float v = Ok f -> round f = Ok n ->
         dict_text d = Ok t ->
         normalize_loop (RDict d :: rest) out
         = normalize_loop rest
             (out ++ [{| timestamp := Some (hms_of_secs n); text := t |}]))
  /\ (forall v e,
         d !! "start"%string = Some v -> float v = Raise e ->
         normalize_loop (RDict d :: rest) out = Raise e)
  /\ _ts_to_secs (py "00:00:00") = Ok 0%Z
  /\ (forall n, _ts_to_secs (hms_of_secs n) = Ok n).
Proof.
  unfold dict_text. split; [|split; [|split; [|split]]];
    [| | | |exact ts_to_secs_hms].
  - intros t Hs Ht. simpl. rewrite Hs. simpl. rewrite Ht. reflexivity.
  - intros v f n t Hs Hf Hn Ht. simpl. rewrite Hs. simpl.
    rewrite Hf. simpl. rewrite Ht. simpl.
    now rewrite (sec_to_hms_round f n Hn).
  - intros v e Hs Hf. simpl. rewrite Hs. simpl. now rewrite Hf.
  - reflexivity.
Qed.

(** C4 (as stated) fails: a mapping with a text and no [start] gets the
    timestamp ["00:00:00"], which reads back as the known time 0 and not as
    the sentinel; and a mapping whose [start] is not a number yields no
    segment at all, because the normalizer raises. *)
Lemma dict_record_timestamp_counterexample :
  _normalize_segments [RDict {[ "text"%string := VStr (py "hi") ]}]
  = Ok [{| timestamp := Some (py "00:00:00"); text := py "hi" |}]
  /\ _ts_to_secs (py "00:00:00") = Ok 0%Z
  /\ _ts_to_secs (py "00:00:00") <> Ok (-1)%Z
  /\ _normalize_segments
       [RDict {[ "start"%string := VStr (py "abc");
                 "text"%string := VStr (py "hi") ]}]
     = Raise ValueError.
Proof. vm_compute. repeat split; congruence. Qed.

Lemma normalize_loop_length raw out0 out :
  normalize_loop raw out0 = Ok out ->
  List.length out
  = (List.length out0 + List.length (List.filter recognized raw))%nat.
Proof.
  revert out0. induction raw as [|i raw IH]; intros out0; simpl.
  - intros [= <-]. lia.
  - destruct (normalize_record i) as [[[start t]|]|e] eqn:E; simpl;
      [| |discriminate].
    + rewrite (normalize_record_Some i _ E).
      destruct (sec_to_hms start); simpl; [|discriminate].
      intros H. apply IH in H. rewrite H, length_app. simpl. lia.
    + rewrite (normalize_record_None i E). apply IH.
Qed.

Lemma para_step_empty gap max_chars end_punct keep st seg :
  _clean_piece (text seg) = [] ->
  para_step gap max_chars end_punct keep st seg = Ok st.
Proof. intros H. rewrite para_step_eq, H. reflexivity. Qed.

(** C6 (as amended): the normalizer does not drop a record whose text is
    empty after cleaning: every record of an accepted shape yields a
    segment, so a normalized batch has as many segments as it has such
    records, and a record with empty cleaned text yields a segment with
    empty text. The markup extractor drops an element only when its text and
    its timestamp are both empty. It is the paragraph reconstructor that
    skips segments with empty cleaned text: its result is the same with and
    without them. *)
Theorem empty_text_skipped_by_reconstructor :
  (forall raw out,
      _normalize_segments raw = Ok out ->
      List.length out = List.length (List.filter recognized raw))
  /\ (forall i start ts rest out,
         normalize_record i = Ok (Some (start, [])) ->
         sec_to_hms start = Ok ts ->
         normalize_loop (i :: rest) out
         = normalize_loop rest (out ++ [{| timestamp := Some ts; text := [] |}]))
  /\ (forall els el,
         extract_from_html (els ++ [el])
         = extract_from_html els
           ++ (if nonempty (default [] (text_el el))
                  || nonempty (default [] (ts_el el))
               then [{| timestamp := ts_el el;
                        text := default [] (text_el el) |}]
               else []))
  /\ (forall xs s ys gap max_chars end_punct keep,
         _clean_piece (text s) = [] ->
         segments_to_paragraphs (xs ++ s :: ys) gap max_chars end_punct keep
         = segments_to_paragraphs (xs ++ ys) gap max_chars end_punct keep).
Proof.
  split; [|split; [|split]].
  - intros raw out H. now apply normalize_loop_length in H.
  - intros i start ts rest out Hr Hs. simpl. rewrite Hr. simpl.
    now rewrite Hs.
  - intros els el. unfold extract_from_html. rewrite fold_left_app. simpl.
    destruct (nonempty (default [] (text_el el))
              || nonempty (default [] (ts_el el)));
      [reflexivity | now rewrite app_nil_r].
  - intros xs s ys gap max_chars end_punct keep H.
    unfold segments_to_paragraphs. rewrite !para_loop_app.
    destruct (para_loop gap max_chars end_punct keep xs init_state);
      [|reflexivity].
    simpl. now rewrite (para_step_empty gap max_chars end_punct keep a s H).
Qed.

(** C6 (as stated) fails: a mapping whose text cleans to the empty string
    still yields a segment of the canonical sequence, and so does a markup
    element with a timestamp and an empty text. *)
Lemma empty_text_kept_counterexample :
  _normalize_segments
    [RDict {[ "start"%string := VFloat (FFinite 1);
              "text"%string := VStr [32; 10; 32] ]}]
  = Ok [{| timestamp := Some (py "00:00:01"); text := [] |}]
  /\ extract_from_html [{| ts_el := Some (py "0:05"); text_el := Some [] |}]
     = [{| timestamp := Some (py "0:05"); text := [] |}].
Proof. vm_compute. split; reflexivity. Qed.

Lemma hms_of_secs_nonempty n : hms_of_secs n <> [].
Proof.
  unfold hms_of_secs.
  destruct (format_0d_shape 2 (n / 3600)) as (body & -> & _ & Hne & _).
  intros E. apply app_eq_nil in E as [E _]. apply app_eq_nil in E as [_ E].
  contradiction.
Qed.

Lemma sec_to_hms_inv f ts :
  sec_to_hms f = Ok ts -> exists n, ts = hms_of_secs n.
Proof.
  unfold sec_to_hms. destruct (round f) as [n|e]; simpl; [|discriminate].
  intros [= <-]. now exists n.
Qed.

Lemma normalize_loop_timestamps raw : forall out0 out,
  Forall (fun seg => exists n, timestamp seg = Some (hms_of_secs n)) out0 ->
  normalize_loop raw out0 = Ok out ->
  Forall (fun seg => exists n, timestamp seg = Some (hms_of_secs n)) out.
Proof.
  induction raw as [|i raw IH]; intros out0 out H0; simpl.
  - now intros [= <-].
  - destruct (normalize_record i) as [[[start t]|]|e]; simpl;
      [| |discriminate].
    + destruct (sec_to_hms start) as [ts|e] eqn:E; simpl; [|discriminate].
      apply IH. apply Forall_app. split; [assumption|].
      destruct (sec_to_hms_inv _ _ E) as (n & ->).
      constructor; [|constructor]. now exists n.
    + now apply IH.
Qed.

(** ** [to_plain_text] *)

Lemma fold_left_snoc_map {A B} (f : A -> B) (l : list A) (acc : list B) :
  List.fold_left (fun acc x => acc ++ [f x]) l acc = acc ++ List.map f l.
Proof.
  revert acc. induction l as [|x l IH]; intros acc; simpl.
  - now rewrite app_nil_r.
  - now rewrite IH, <- app_assoc.
Qed.

Lemma to_plain_text_lines segments :
  to_plain_text segments = join [newline] (List.map plain_line segments).
Proof. unfold to_plain_text. now rewrite fold_left_snoc_map. Qed.

(** ** [to_srt] *)

Lemma hms_to_secs_parts ts s :
  hms_parts_secs (List.map py_int (split colon ts)) = Some s ->
  hms_to_secs ts = Ok s.
Proof.
  unfold hms_to_secs, int.
  destruct (split colon ts) as [|a [|b [|c [|d l]]]]; simpl; try discriminate.
  - destruct (py_int a); discriminate.
  - destruct (py_int a); [|discriminate]. destruct (py_int b); [|discriminate].
    intros [= <-]. simpl. f_equal.
  - destruct (py_int a); [|discriminate]. destruct (py_int b); [|discriminate].
    destruct (py_int c); [|discriminate]. intros [= <-]. reflexivity.
  - destruct (py_int a); [|discriminate]. destruct (py_int b); [|discriminate].
    destruct (py_int c); discriminate.
Qed.

Lemma split_normalized m s :
  split colon (py "00:" ++ format_0d 2 m ++ [colon] ++ format_0d 2 s)
  = [py "00"; format_0d 2 m; format_0d 2 s].
Proof.
  etransitivity.
  { apply (split_app_sep colon (py "00")
             (format_0d 2 m ++ [colon] ++ format_0d 2 s)).
    repeat constructor; discriminate. }
  f_equal. etransitivity.
  { apply (split_app_sep colon (format_0d 2 m) (format_0d 2 s)).
    apply format_0d_no_colon. }
  f_equal. apply split_no_sep, format_0d_no_colon.
Qed.

Lemma hms_to_secs_normalized m s :
  hms_to_secs (py "00:" ++ format_0d 2 m ++ [colon] ++ format_0d 2 s)
  = Ok (m * 60 + s)%Z.
Proof.
  apply hms_to_secs_parts. rewrite split_normalized.
  cbn [List.map]. rewrite !py_int_format_0d. reflexivity.
Qed.

Lemma srt_normalize_ok seg s :
  srt_start seg = Some s ->
  exists e,
    srt_normalize seg = Ok e /\ n_text e = text seg
    /\ hms_to_secs (n_timestamp e) = Ok s.
Proof.
  unfold srt_start, srt_normalize.
  set (ts := str_or (timestamp seg) (py "00:00:00")). intros H.
  destruct (Nat.eqb_spec (count colon ts) 1) as [Hc|Hc].
  - assert (Hl := split_length colon ts). rewrite Hc in Hl.
    destruct (split colon ts) as [|a [|b [|c l]]]; try discriminate.
    simpl in H. unfold int.
    destruct (py_int a) as [m|]; [|discriminate].
    destruct (py_int b) as [s'|]; [|discriminate].
    injection H as <-. simpl. eexists. split; [reflexivity|].
    split; [reflexivity|]. simpl. apply hms_to_secs_normalized.
  - simpl. eexists. split; [reflexivity|]. split; [reflexivity|].
    simpl. now apply hms_to_secs_parts.
Qed.

Lemma srt_norm_loop_ok segments : forall starts acc,
  Forall2 (fun seg s => srt_start seg = Some s) segments starts ->
  exists norm,
    srt_norm_loop segments acc = Ok (acc ++ norm)
    /\ Forall2 (fun e s => hms_to_secs (n_timestamp e) = Ok s) norm starts
    /\ List.map n_text norm = List.map text segments.
Proof.
  induction segments as [|seg segments IH]; intros starts acc H;
    inversion H as [|? s ? ss Hs Hrest]; subst.
  - exists []. simpl. rewrite app_nil_r. repeat split. constructor.
  - destruct (srt_normalize_ok seg s Hs) as (e & He & Ht & Hh).
    destruct (IH ss (acc ++ [e]) Hrest) as (norm & Hn & Hf & Hm).
    exists (e :: norm). simpl. rewrite He. simpl.
    rewrite Hn, <- app_assoc. split; [reflexivity|]. split.
    + now constructor.
    + now rewrite Ht, Hm.
Qed.

Lemma srt_loop_ok todo : forall done i srt_lines starts,
  Forall2 (fun e s => hms_to_secs (n_timestamp e) = Ok s) todo starts ->
  i = S (List.length done) ->
  srt_loop (done ++ todo) i todo srt_lines
  = Ok (srt_lines
        ++ cues i starts (cue_ends starts) (List.map n_text todo)).
Proof.
  induction todo as [|seg rest IH]; intros done i srt_lines starts H Hi;
    inversion H as [|? s ? ss Hs Hrest]; subst.
  - simpl. now rewrite app_nil_r.
  - cbn [srt_loop]. rewrite Hs. cbn [bind].
    destruct rest as [|e2 rest'].
    + inversion Hrest; subst.
      destruct (Nat.ltb_spec (S (List.length done))
                  (List.length (done ++ [seg]))) as [Hlt|_].
      { rewrite length_app in Hlt. simpl in Hlt. lia. }
      simpl. rewrite ?app_nil_r. reflexivity.
    + inversion Hrest as [|? s2 ? ss' Hs2 Hrest']; subst.
      destruct (Nat.ltb_spec (S (List.length done))
                  (List.length (done ++ seg :: e2 :: rest'))) as [_|Hge].
      2:{ rewrite length_app in Hge. simpl in Hge. lia. }
      assert (Hlk : (done ++ seg :: e2 :: rest') !! S (List.length done)
                    = Some e2).
      { change (done ++ seg :: e2 :: rest')
          with (done ++ [seg] ++ e2 :: rest').
        rewrite app_assoc.
        replace (S (List.length done)) with (List.length (done ++ [seg]))
          by (rewrite length_app; simpl; lia).
        apply list_lookup_middle. reflexivity. }
      rewrite Hlk. cbn [or_raise bind]. rewrite Hs2. cbn [bind].
      change (done ++ seg :: e2 :: rest')
        with (done ++ [seg] ++ e2 :: rest').
      rewrite app_assoc.
      rewrite (IH (done ++ [seg]) (S (S (List.length done))) _ (s2 :: ss')
                 Hrest)
        by (rewrite length_app; simpl; lia).
      rewrite <- app_assoc. reflexivity.
Qed.

Lemma to_srt_spec segments starts :
  Forall2 (fun seg s => srt_start seg = Some s) segments starts ->
  to_srt segments
  = Ok (join [newline]
          (cues 1 starts (cue_ends starts) (List.map text segments))).
Proof.
  intros H. unfold to_srt.
  destruct (srt_norm_loop_ok segments starts [] H) as (norm & Hn & Hf & Hm).
  rewrite Hn. cbn [app bind].
  pose proof (srt_loop_ok norm [] 1%nat [] starts Hf eq_refl) as Hl.
  cbn [app] in Hl. rewrite Hl. cbn [bind].
  now rewrite Hm.
Qed.

Lemma normalized_srt_total raw out :
  _normalize_segments raw = Ok out ->
  exists starts,
    Forall2 (fun seg s => srt_start seg = Some s) out starts
    /\ to_srt out
       = Ok (join [newline]
               (cues 1 starts (cue_ends starts) (List.map text out))).
Proof.
  intros H.
  assert (Hts := normalize_loop_timestamps raw [] out (List.Forall_nil _) H).
  assert (Hst : exists starts,
             Forall2 (fun seg s => srt_start seg = Some s) out starts).
  { clear H. induction Hts as [|seg out (n & Hn) _ (starts & IH)].
    - exists []. constructor.
    - exists (n :: starts). constructor; [|exact IH].
      now apply srt_start_hms. }
  destruct Hst as (starts & Hst). exists starts.
  split; [exact Hst | now apply to_srt_spec].
Qed.

(** C8: for a segment sequence whose timestamps are absent or of the form
    [M:SS] or [H:MM:SS], the SRT renderer emits one numbered cue per segment,
    in order; the end time of a cue that is not the last is
    max(start + 1, next cue's start - 1) seconds and that of the last cue is
    its start + 2 seconds. An [M:SS] timestamp is first rewritten to
    [00:MM:SS], which reads back as minutes*60+seconds. For segments at
    0:00, 0:05 and 0:10 the end times are 4, 9 and 12 seconds. Every
    sequence the normalizer builds has timestamps of that form, so it is
    rendered in this way. *)
Theorem srt_cue_end_times segments starts :
  Forall2 (fun seg s => srt_start seg = Some s) segments starts ->
  to_srt segments
  = Ok (join [newline]
          (cues 1 starts (cue_ends starts) (List.map text segments)))
  /\ (forall seg a b m s,
         split colon (str_or (timestamp seg) (py "00:00:00")) = [a; b] ->
         py_int a = Some m -> py_int b = Some s ->
         srt_normalize seg
         = Ok {| n_timestamp :=
                   py "00:" ++ format_0d 2 m ++ [colon] ++ format_0d 2 s;
                 n_text := text seg |}
         /\ hms_to_secs (py "00:" ++ format_0d 2 m ++ [colon] ++ format_0d 2 s)
            = Ok (m * 60 + s)%Z
         /\ srt_start seg = Some (m * 60 + s)%Z)
  /\ (forall t1 t2 t3,
         to_srt [{| timestamp := Some (py "0:00"); text := t1 |};
                 {| timestamp := Some (py "0:05"); text := t2 |};
                 {| timestamp := Some (py "0:10"); text := t3 |}]
         = Ok (join [newline]
                 (cue 1 0 4 t1 ++ cue 2 5 9 t2 ++ cue 3 10 12 t3)))
  /\ secs_to_srt_time 4 = py "00:00:04,000"
  /\ secs_to_srt_time 9 = py "00:00:09,000"
  /\ secs_to_srt_time 12 = py "00:00:12,000"
  /\ (forall raw out,
         _normalize_segments raw = Ok out ->
         exists starts',
           Forall2 (fun seg s => srt_start seg = Some s) out starts'
           /\ to_srt out
              = Ok (join [newline]
                      (cues 1 starts' (cue_ends starts')
                         (List.map text out)))).
Proof.
  intros H. split; [now apply to_srt_spec|].
  split; [|split; [|split; [|split; [|split]]]];
    [| |vm_compute; reflexivity |vm_compute; reflexivity
     |vm_compute; reflexivity |exact normalized_srt_total].
  - intros seg a b m s Hsp Ha Hb.
    assert (Hc : count colon (str_or (timestamp seg) (py "00:00:00")) = 1%nat).
    { pose proof (split_length colon
                    (str_or (timestamp seg) (py "00:00:00"))) as Hl.
      rewrite Hsp in Hl. simpl in Hl. lia. }
    split; [|split].
    + unfold srt_normalize. rewrite Hc, Hsp. unfold int. rewrite Ha, Hb.
      reflexivity.
    + apply hms_to_secs_normalized.
    + unfold srt_start. rewrite Hsp. simpl. now rewrite Ha, Hb.
  - intros t1 t2 t3.
    rewrite (to_srt_spec _ [0; 5; 10]%Z).
    + reflexivity.
    + repeat constructor.
Qed.

(** The claim of C8 at the three segments of the specification. *)
Lemma srt_cue_end_times_witness :
  to_srt [{| timestamp := Some (py "0:00"); text := py "a" |};
          {| timestamp := Some (py "0:05"); text := py "b" |};
          {| timestamp := Some (py "0:10"); text := py "c" |}]
  = Ok (join [newline]
          (cues 1 [0; 5; 10]%Z (cue_ends [0; 5; 10]%Z)
             [py "a"; py "b"; py "c"])).
Proof.
  apply (srt_cue_end_times
           [{| timestamp := Some (py "0:00"); text := py "a" |};
            {| timestamp := Some (py "0:05"); text := py "b" |};
            {| timestamp := Some (py "0:10"); text := py "c" |}]
           [0; 5; 10]%Z).
  repeat constructor.
Defined.

(** ** [to_plain_text], continued *)

Lemma plain_line_known seg ts :
  timestamp seg = Some ts -> ts <> [] ->
  plain_line seg = py "[" ++ ts ++ py "] " ++ text seg.
Proof.
  intros H Hne. unfold plain_line, str_or. rewrite H.
  destruct ts; [contradiction|]. reflexivity.
Qed.

Lemma format_0d_two_digits z :
  (0 <= z < 100)%Z -> List.length (format_0d 2 z) = 2%nat.
Proof.
  intros Hz. rewrite <- (Z2Nat.id z) by lia.
  assert (Hk : (Z.to_nat z < 100)%nat) by lia.
  revert Hk. generalize (Z.to_nat z). intros k Hk.
  do 100 (destruct k as [|k]; [vm_compute; reflexivity|]). lia.
Qed.

(** C9 (as amended): the plain-text renderer emits one line per segment and
    joins the lines with a single newline; the line of a segment whose
    timestamp string is present and not empty is that string, as stored,
    between square brackets, a space and the text; the line of a segment
    whose timestamp is absent or empty is the text alone. For the segments
    the normalizer builds the stored string is the [HH:MM:SS] rendering of
    the start, whose fields below 100 are printed on two digits. *)
Theorem plain_text_lines :
  (forall segments,
      to_plain_text segments = join [newline] (List.map plain_line segments))
  /\ (forall seg ts,
         timestamp seg = Some ts -> ts <> [] ->
         plain_line seg = py "[" ++ ts ++ py "] " ++ text seg)
  /\ (forall seg,
         timestamp seg = None \/ timestamp seg = Some [] ->
         plain_line seg = text seg)
  /\ (forall raw out,
         _normalize_segments raw = Ok out ->
         Forall (fun seg =>
                   exists n,
                     timestamp seg = Some (hms_of_secs n)
                     /\ plain_line seg
                        = py "[" ++ hms_of_secs n ++ py "] " ++ text seg)
                out)
  /\ (forall z, (0 <= z < 100)%Z -> List.length (format_0d 2 z) = 2%nat).
Proof.
  split; [exact to_plain_text_lines|]. split; [exact plain_line_known|].
  split; [|split; [|exact format_0d_two_digits]].
  - intros seg [H|H]; unfold plain_line, str_or; rewrite H; reflexivity.
  - intros raw out H.
    eapply List.Forall_impl;
      [|exact (normalize_loop_timestamps raw [] out (List.Forall_nil _) H)].
    intros seg (n & Hn). exists n. split; [exact Hn|].
    apply plain_line_known; [exact Hn | apply hms_of_secs_nonempty].
Qed.

(** C9 (as stated) fails: a segment taken from markup with the known
    timestamp ["2:15"] is printed as ["[2:15] hi"], which is not of the form
    [H:MM:SS] with zero-padded fields; and a segment whose timestamp is not
    a time at all, hence unknown, still gets its bracketed prefix. *)
Lemma plain_text_counterexample :
  to_plain_text [{| timestamp := Some (py "2:15"); text := py "hi" |}]
  = py "[2:15] hi"
  /\ _ts_to_secs (py "2:15") = Ok 135%Z
  /\ py "[2:15] hi" <> py "[0:02:15] hi"
  /\ py "[2:15] hi" <> py "[00:02:15] hi"
  /\ to_plain_text [{| timestamp := Some (py "abc"); text := py "hi" |}]
     = py "[abc] hi"
  /\ _ts_to_secs (py "abc") = Ok (-1)%Z.
Proof. vm_compute. repeat split; congruence. Qed.

(** ** The theorems at concrete inputs *)

(** The claim of C7 at the timestamp ["1:30"]. *)
Lemma ts_to_secs_total_spec_witness :
  _ts_to_secs (py "1:30") = Ok 90%Z.
Proof.
  apply (proj2 (proj2 (ts_to_secs_total_spec (py "1:30")))).
  apply Nat.leb_le. vm_compute. reflexivity.
Defined.

(** C1 at ["hello"] and ["world"], five seconds and one second apart. *)
Lemma should_break_spec_witness :
  (exists a b,
      segments_to_paragraphs
        [{| timestamp := Some (py "00:00:00"); text := py "hello" |};
         {| timestamp := Some (py "00:00:05"); text := py "world" |}]
        default_gap default_max_chars END_PUNCT false = Ok [a; b])
  /\ (exists a,
         segments_to_paragraphs
           [{| timestamp := Some (py "00:00:00"); text := py "hello" |};
            {| timestamp := Some (py "00:00:01"); text := py "world" |}]
           default_gap default_max_chars END_PUNCT false = Ok [a]).
Proof.
  destruct should_break_spec as (_ & _ & H). split.
  - apply (H default_max_chars END_PUNCT false
             {| timestamp := Some (py "00:00:00"); text := py "hello" |}
             {| timestamp := Some (py "00:00:05"); text := py "world" |});
      try reflexivity.
    + vm_compute. lia.
    + vm_compute. discriminate.
  - apply (H default_max_chars END_PUNCT false
             {| timestamp := Some (py "00:00:00"); text := py "hello" |}
             {| timestamp := Some (py "00:00:01"); text := py "world" |});
      try reflexivity.
    + vm_compute. lia.
    + vm_compute. discriminate.
Defined.

(** C2 at a first segment of 31 characters ending in an exclamation mark. *)
Lemma eager_flush_same_iteration_witness :
  para_step default_gap default_max_chars END_PUNCT false init_state
    {| timestamp := Some (py "0:00");
       text := py "This is a long enough sentence!" |}
  = Ok {| paras := [py "This is a long enough sentence!"];
          buf := [];
          para_start_ts := None;
          prev_secs := Some 0%Z |}.
Proof.
  apply (eager_flush_same_iteration default_gap default_max_chars END_PUNCT
           false init_state
           {| timestamp := Some (py "0:00");
              text := py "This is a long enough sentence!" |} 33).
  - reflexivity.
  - reflexivity.
  - vm_compute. discriminate.
Defined.

(** C10 at a piece ending in an ASCII period. *)
Lemma weak_punct_never_eager_flushes_witness :
  (forall b, eager_flush END_PUNCT (py "Hello there.") b = false)
  /\ (forall b, ends_with_punct END_PUNCT (b ++ [py "Hello there."]) = true).
Proof.
  destruct weak_punct_never_eager_flushes as (_ & _ & H).
  destruct (H (py "Hello there.") 46) as (H1 & H2 & _).
  - reflexivity.
  - vm_compute. tauto.
  - split; assumption.
Defined.


(** C4 at a mapping with a numeric-string start. *)
Lemma dict_record_timestamp_witness :
  normalize_loop
    [RDict {[ "start"%string := VStr (py "75.4");
              "text"%string := VStr (py "hi") ]}] []
  = normalize_loop []
      ([] ++ [{| timestamp := Some (hms_of_secs 75); text := py "hi" |}]).
Proof.
  destruct (dict_record_timestamp
              {[ "start"%string := VStr (py "75.4");
                 "text"%string := VStr (py "hi") ]} [] []) as (_ & H & _).
  apply (H (VStr (py "75.4"))
           (FFinite (5305803310995866 # 70368744177664)) 75%Z (py "hi"));
    vm_compute; reflexivity.
Defined.

(** C6 at a segment of whitespace between two spoken ones. *)
Lemma empty_text_skipped_by_reconstructor_witness :
  segments_to_paragraphs
    ([{| timestamp := Some (py "0:00"); text := py "one" |}]
       ++ {| timestamp := Some (py "0:09"); text := py "   " |}
       :: [{| timestamp := Some (py "0:01"); text := py "two" |}])
    default_gap default_max_chars END_PUNCT false
  = segments_to_paragraphs
      ([{| timestamp := Some (py "0:00"); text := py "one" |}]
         ++ [{| timestamp := Some (py "0:01"); text := py "two" |}])
      default_gap default_max_chars END_PUNCT false.
Proof.
  destruct empty_text_skipped_by_reconstructor as (_ & _ & _ & H).
  apply (H [{| timestamp := Some (py "0:00"); text := py "one" |}]
           {| timestamp := Some (py "0:09"); text := py "   " |}
           [{| timestamp := Some (py "0:01"); text := py "two" |}]).
  reflexivity.
Defined.

(** C9 at a markup segment with the timestamp ["2:15"]. *)
Lemma plain_text_lines_witness :
  plain_line {| timestamp := Some (py "2:15"); text := py "hi" |}
  = py "[" ++ py "2:15" ++ py "] " ++ py "hi".
Proof.
  destruct plain_text_lines as (_ & H & _).
  apply (H {| timestamp := Some (py "2:15"); text := py "hi" |} (py "2:15")).
  - reflexivity.
  - discriminate.
Defined.

(** * Further properties of the code *)

(** ** Paragraphs as groups of pieces *)

Lemma segments_to_paragraphs_groups segs gap max_chars end_punct keep :
  exists groups,
    segments_to_paragraphs segs gap max_chars end_punct keep
    = Ok (List.map (render keep) groups)
    /\ Forall group_ok groups
    /\ List.concat (List.map g_pieces groups) = cleaned_pieces segs.
Proof.
  destruct (para_inv_loop keep gap max_chars end_punct segs init_state []
              (para_inv_init keep)) as (st & E & Hinv).
  assert (Hfin : para_inv keep
                   (if nonempty (buf st) then flush keep st else st)
                   (cleaned_pieces segs)).
  { destruct (nonempty (buf st)) eqn:N; [|exact Hinv].
    apply para_inv_flush; [exact Hinv | now apply nonempty_true]. }
  destruct Hfin as (groups & cur & Hp & Hg & Hb & Hc & Hd).
  assert (cur = []) as ->.
  { destruct Hb as [[_ ?]|J]; [assumption|].
    destruct (joined_nonempty _ _ J) as [Hne _].
    destruct (nonempty (buf st)) eqn:N; simpl in Hne; [congruence|].
    apply nonempty_false in N. contradiction. }
  rewrite app_nil_r in Hd. exists groups. split; [|split; assumption].
  unfold segments_to_paragraphs. rewrite E. simpl. now rewrite Hp.
Qed.

Lemma starts_ok_nonempty p s : starts_ok p s -> s <> [].
Proof. destruct s; [contradiction | discriminate]. Qed.

Lemma group_ok_body g : group_ok g -> clean (body g).
Proof. intros [J F]. now apply (joined_clean_concat (g_pieces g)). Qed.

Lemma render_nonempty keep g : group_ok g -> render keep g <> [].
Proof.
  intros H E. unfold render in E. apply app_eq_nil in E as [_ E].
  destruct (group_ok_body g H) as [Hs _].
  now apply (starts_ok_nonempty _ _ Hs).
Qed.

Lemma groups_count groups :
  Forall group_ok groups ->
  (List.length groups
   <= List.length (List.concat (List.map g_pieces groups)))%nat.
Proof.
  induction 1 as [|g l [J _] _ IH]; simpl; [lia|].
  rewrite length_app. destruct (joined_nonempty _ _ J) as [_ Hne].
  destruct (g_pieces g); [contradiction|]. simpl. lia.
Qed.

(** No paragraph is empty, there are at most as many paragraphs as there
    are segments with non-empty cleaned text, and there is no paragraph at
    all exactly when there is no such segment. *)
Theorem paragraphs_nonempty_and_counted segs gap max_chars end_punct keep :
  exists paragraphs,
    segments_to_paragraphs segs gap max_chars end_punct keep = Ok paragraphs
    /\ Forall (fun p => p <> []) paragraphs
    /\ (List.length paragraphs <= List.length (cleaned_pieces segs))%nat
    /\ (paragraphs = [] <-> cleaned_pieces segs = []).
Proof.
  destruct (segments_to_paragraphs_groups segs gap max_chars end_punct keep)
    as (groups & E & Hg & Hd).
  exists (List.map (render keep) groups). split; [exact E|].
  split; [|split].
  - apply Forall_map. eapply List.Forall_impl; [|exact Hg].
    intros g. apply render_nonempty.
  - rewrite length_map, <- Hd. now apply groups_count.
  - rewrite <- Hd. split.
    + intros H. apply map_eq_nil in H. now subst.
    + intros H. pose proof (groups_count groups Hg) as Hc. rewrite H in Hc.
      destruct groups; [reflexivity | simpl in Hc; lia].
Qed.

(** A single segment gives exactly one paragraph, its cleaned text (after
    the bracketed timestamp when timestamps are kept and its own is known),
    however long the text is and whatever the thresholds are; it gives no
    paragraph when its cleaned text is empty. *)
Theorem single_segment_one_paragraph seg gap max_chars end_punct keep :
  segments_to_paragraphs [seg] gap max_chars end_punct keep
  = Ok (if nonempty (_clean_piece (text seg))
        then [ts_prefix keep
                (if (0 <=? secs_of seg)%Z
                 then Some (str_or (timestamp seg) []) else None)
              ++ _clean_piece (text seg)]
        else []).
Proof.
  unfold segments_to_paragraphs. cbn [para_loop]. rewrite para_step_eq.
  cbn [bind para_loop]. rewrite final_paras.
  destruct (nonempty (_clean_piece (text seg))) eqn:N; [|reflexivity].
  assert (Hc := _clean_piece_clean _ N).
  assert (Hp : forall start,
             para_of keep start [_clean_piece (text seg)]
             = ts_prefix keep start ++ _clean_piece (text seg)).
  { intros start.
    rewrite (para_of_joined keep start [_clean_piece (text seg)]
               [_clean_piece (text seg)]).
    - simpl. now rewrite app_nil_r.
    - constructor.
    - constructor; [exact Hc | constructor]. }
  unfold after_append, after_break, break_phase, append_phase, should_break,
    eager_phase. simpl.
  destruct (eager_flush _ _ _); simpl; now rewrite Hp.
Qed.

(** ** The effect of [keep_timestamps] *)











(** ** The time-gap test *)

Lemma should_break_unknown gap gap' max_chars st secs :
  (secs < 0)%Z ->
  should_break gap max_chars st secs = should_break gap' max_chars st secs.
Proof.
  intros H. unfold should_break.
  destruct (prev_secs st) as [prev|]; [|reflexivity].
  destruct (Z.leb_spec 0 secs); [lia | reflexivity].
Qed.

Lemma para_step_unknown gap gap' max_chars end_punct keep st seg :
  (secs_of seg < 0)%Z ->
  para_step gap max_chars end_punct keep st seg
  = para_step gap' max_chars end_punct keep st seg.
Proof.
  intros H. rewrite !para_step_eq. unfold after_append, after_break.
  now rewrite (should_break_unknown gap gap' max_chars st _ H).
Qed.

(** When no segment has a known timestamp, the paragraphs do not depend on
    [gap_threshold]: breaking is driven by length and punctuation alone. *)
Theorem unknown_timestamps_ignore_gap segs gap gap' max_chars end_punct keep :
  Forall (fun seg => (secs_of seg < 0)%Z) segs ->
  segments_to_paragraphs segs gap max_chars end_punct keep
  = segments_to_paragraphs segs gap' max_chars end_punct keep.
Proof.
  intros H. unfold segments_to_paragraphs. f_equal.
  generalize init_state. induction H as [|seg segs Hs _ IH]; intros st.
  - reflexivity.
  - simpl. rewrite (para_step_unknown gap gap' max_chars end_punct keep st seg Hs).
    destruct (para_step gap' max_chars end_punct keep st seg); simpl;
      [apply IH | reflexivity].
Qed.

Lemma unknown_timestamps_ignore_gap_witness :
  segments_to_paragraphs
    [{| timestamp := None; text := py "one" |};
     {| timestamp := Some (py "soon"); text := py "two" |}]
    (FFinite 0) default_max_chars END_PUNCT false
  = segments_to_paragraphs
      [{| timestamp := None; text := py "one" |};
       {| timestamp := Some (py "soon"); text := py "two" |}]
      default_gap default_max_chars END_PUNCT false.
Proof.
  apply (unknown_timestamps_ignore_gap
           [{| timestamp := None; text := py "one" |};
            {| timestamp := Some (py "soon"); text := py "two" |}]).
  repeat constructor.
Defined.

(** The time-gap test at the ends of its range. With a zero or negative
    threshold every increase between two known timestamps breaks the
    paragraph; with a threshold that is not a number, or is plus infinity,
    only the length test can break it; with minus infinity any two known
    timestamps break it, equal or decreasing ones too. *)
Theorem gap_threshold_extremes max_chars st secs :
  (forall q prev,
      (q <= 0)%Q -> prev_secs st = Some prev -> (0 <= prev < secs)%Z ->
      should_break (FFinite q) max_chars st secs = true)
  /\ (forall gap,
         gap = FNaN \/ gap = FInf false ->
         (should_break gap max_chars st secs = true
          <-> buf st <> [] /\ (max_chars <= total_len (buf st))%Z))
  /\ (forall prev,
         prev_secs st = Some prev -> (0 <= prev)%Z -> (0 <= secs)%Z ->
         should_break (FInf true) max_chars st secs = true).
Proof.
  split; [|split].
  - intros q prev Hq Hp Hs. apply should_break_iff. left.
    exists prev. unfold known. repeat split; try lia; try assumption.
    simpl. eapply Qle_lt_trans; [exact Hq|].
    change 0%Q with (inject_Z 0). rewrite <- Zlt_Qlt. lia.
  - intros gap Hg. rewrite should_break_iff. split; [|tauto].
    intros [(prev & _ & _ & _ & He)|H]; [|exact H].
    destruct Hg as [-> | ->]; simpl in He; [contradiction | discriminate].
  - intros prev Hp H1 H2. apply should_break_iff. left.
    exists prev. unfold known. repeat split; assumption.
Qed.

Lemma gap_threshold_extremes_witness :
  should_break (FFinite 0) default_max_chars
    {| paras := []; buf := [py "a"]; para_start_ts := None;
       prev_secs := Some 3%Z |} 4
  = true.
Proof.
  destruct (gap_threshold_extremes default_max_chars
              {| paras := []; buf := [py "a"]; para_start_ts := None;
                 prev_secs := Some 3%Z |} 4) as (H & _).
  apply (H 0%Q 3%Z).
  - discriminate.
  - reflexivity.
  - lia.
Defined.

(** ** The normal form of cleaned text *)

Lemma collapse_ws_single_spaced s : forall b, single_spaced b (collapse_ws b s).
Proof.
  induction s as [|c r IH]; intros b; simpl; [exact I|].
  destruct (Py_UNICODE_ISSPACE c) eqn:E.
  - destruct b; [apply IH|]. simpl. split; [auto | apply IH].
  - simpl. rewrite E. split; [discriminate | apply IH].
Qed.

Lemma single_spaced_false b s : single_spaced b s -> single_spaced false s.
Proof.
  destruct s as [|c r]; [auto|]. simpl. intros [H1 H2]. split; [|exact H2].
  intros E. destruct (H1 E) as [-> _]. auto.
Qed.

Lemma single_spaced_start b s :
  starts_ok Py_UNICODE_ISSPACE s -> single_spaced false s -> single_spaced b s.
Proof.
  destruct s as [|c r]; [contradiction|]. simpl. intros E [_ H].
  split; [congruence | exact H].
Qed.

Lemma single_spaced_suffix pre : forall b s,
  single_spaced b (pre ++ s) -> single_spaced false s.
Proof.
  induction pre as [|c pre IH]; intros b s; simpl.
  - apply single_spaced_false.
  - intros [_ H]. now apply IH in H.
Qed.

Lemma single_spaced_prefix s : forall b t,
  single_spaced b (s ++ t) -> single_spaced b s.
Proof.
  induction s as [|c s IH]; intros b t; simpl; [auto|].
  intros [H1 H2]. split; [exact H1 | now apply IH in H2].
Qed.

Lemma drop_while_suffix p s : exists pre, s = pre ++ drop_while p s.
Proof.
  induction s as [|c r (pre & IH)]; simpl; [now exists []|].
  destruct (p c); [|now exists []]. exists (c :: pre). simpl. now f_equal.
Qed.

Lemma strip_by_infix p s : exists pre post, s = pre ++ strip_by p s ++ post.
Proof.
  unfold strip_by, rstrip_by, lstrip_by.
  destruct (drop_while_suffix p s) as (pre & E).
  destruct (drop_while_suffix p (rev (drop_while p s))) as (q & F).
  exists pre, (rev q). rewrite <- rev_app_distr, <- F, rev_involutive.
  exact E.
Qed.

Lemma strip_by_single_spaced b s :
  single_spaced b s -> single_spaced false (strip_by Py_UNICODE_ISSPACE s).
Proof.
  intros H. destruct (strip_by_infix Py_UNICODE_ISSPACE s) as (pre & post & E).
  rewrite E in H. apply single_spaced_suffix in H.
  now apply single_spaced_prefix in H.
Qed.

Lemma _clean_piece_ws_normal t : ws_normal (_clean_piece t).
Proof.
  destruct (nonempty (_clean_piece t)) eqn:N.
  - right. split; [now apply _clean_piece_clean|].
    unfold _clean_piece, strip, re_sub_ws.
    eapply strip_by_single_spaced, collapse_ws_single_spaced.
  - left. now apply nonempty_false.
Qed.

Lemma single_spaced_replace b s old :
  Py_UNICODE_ISSPACE old = true -> old <> 32 ->
  single_spaced b s -> replace old 32 s = s.
Proof.
  intros Ho Hn. revert b. induction s as [|c r IH]; intros b; [reflexivity|].
  simpl. intros [H1 H2]. rewrite (IH _ H2).
  destruct (N.eqb_spec c old) as [->|_]; [|reflexivity].
  destruct (H1 Ho) as [E _]. contradiction.
Qed.

Lemma single_spaced_collapse s : forall b,
  single_spaced b s -> collapse_ws b s = s.
Proof.
  induction s as [|c r IH]; intros b; [reflexivity|]. simpl.
  intros [H1 H2]. destruct (Py_UNICODE_ISSPACE c) eqn:E.
  - destruct (H1 eq_refl) as [-> ->]. f_equal. now apply IH.
  - f_equal. now apply IH.
Qed.

Lemma ws_normal_fixed s : ws_normal s -> _clean_piece s = s.
Proof.
  intros [->|[Hc Hs]]; [reflexivity|]. unfold _clean_piece, re_sub_ws.
  rewrite (single_spaced_replace false s newline) by (auto; discriminate).
  rewrite (single_spaced_replace false s 13) by (auto; discriminate).
  rewrite (single_spaced_collapse s false Hs).
  now apply strip_by_trimmed.
Qed.

(** Cleaned text is in normal form: it is empty, or it has no whitespace at
    either end and no whitespace inside but single ASCII spaces. The strings
    in this form are exactly those cleaning leaves unchanged, so cleaning
    twice is cleaning once. *)
Theorem clean_piece_normal_form :
  (forall t, ws_normal (_clean_piece t))
  /\ (forall s, _clean_piece s = s <-> ws_normal s)
  /\ (forall t, _clean_piece (_clean_piece t) = _clean_piece t).
Proof.
  split; [exact _clean_piece_ws_normal|]. split.
  - intros s. split; [|apply ws_normal_fixed].
    intros <-. apply _clean_piece_ws_normal.
  - intros t. apply ws_normal_fixed, _clean_piece_ws_normal.
Qed.

Lemma single_spaced_app a : forall b c,
  single_spaced b a -> starts_ok Py_UNICODE_ISSPACE (rev a) ->
  single_spaced false c -> single_spaced b (a ++ c).
Proof.
  induction a as [|x a IH]; intros b c Ha He Hc; [contradiction|].
  simpl in *. destruct Ha as [H1 H2]. split; [exact H1|].
  destruct a as [|y a'].
  - simpl in *. now rewrite He.
  - apply IH; [exact H2| |exact Hc].
    destruct (rev (y :: a')) eqn:E.
    + apply (f_equal (@List.length _)) in E. rewrite length_rev in E.
      discriminate.
    + exact He.
Qed.

Lemma joined_single_spaced ps b :
  joined ps b -> Forall clean ps -> Forall (single_spaced false) ps ->
  single_spaced false (List.concat b).
Proof.
  induction 1 as [p|ps b p J IH|ps b p J IH]; intros Fc Fs.
  - simpl. rewrite app_nil_r. now inversion Fs.
  - apply Forall_app in Fc as [Fc1 Fc2]. apply Forall_app in Fs as [Fs1 Fs2].
    rewrite concat_app. cbn [List.concat]. rewrite app_nil_r.
    apply single_spaced_app; [now apply IH| |now inversion Fs2].
    apply (joined_clean_concat ps b J Fc1).
  - apply Forall_app in Fc as [Fc1 Fc2]. apply Forall_app in Fs as [Fs1 Fs2].
    inversion Fc2 as [|? ? [Hp _] _]; subst. inversion Fs2; subst.
    rewrite !concat_app. cbn [List.concat]. rewrite !app_nil_r.
    apply single_spaced_app; [now apply IH| |].
    + apply (joined_clean_concat ps b J Fc1).
    + change (py " " ++ p) with (32 :: p). simpl. split; [auto|].
      now apply single_spaced_start.
Qed.

Lemma cleaned_pieces_single_spaced segs :
  Forall (single_spaced false) (cleaned_pieces segs).
Proof.
  unfold cleaned_pieces. induction segs as [|seg segs IH]; simpl;
    [constructor|].
  destruct (nonempty (_clean_piece (text seg))) eqn:N; [|exact IH].
  constructor; [|exact IH].
  destruct (_clean_piece_ws_normal (text seg)) as [E|[_ H]]; [|exact H].
  rewrite E. exact I.
Qed.

Lemma single_spaced_free b s c :
  Py_UNICODE_ISSPACE c = true -> c <> 32 -> single_spaced b s -> free_of c s.
Proof.
  intros Hc Hn. revert b. induction s as [|d r IH]; intros b; [constructor|].
  simpl. intros [H1 H2]. constructor; [|now apply (IH _ H2)].
  intros ->. destruct (H1 Hc) as [E _]. contradiction.
Qed.

(** Without kept timestamps every paragraph is in the normal form of
    cleaned text: no whitespace at either end and none inside but single
    ASCII spaces; in particular it holds no newline, carriage return or tab,
    so the blank lines between paragraphs are the only ones in the
    paragraph text. *)
Theorem paragraphs_single_spaced segs gap max_chars end_punct :
  exists paragraphs,
    segments_to_paragraphs segs gap max_chars end_punct false = Ok paragraphs
    /\ Forall (fun p => clean p /\ single_spaced false p
                        /\ free_of newline p /\ free_of 13 p /\ free_of 9 p)
         paragraphs.
Proof.
  destruct (segments_to_paragraphs_groups segs gap max_chars end_punct false)
    as (groups & E & Hg & Hd).
  exists (List.map (render false) groups). split; [exact E|].
  assert (Hs : Forall (single_spaced false)
                 (List.concat (List.map g_pieces groups))).
  { rewrite Hd. apply cleaned_pieces_single_spaced. }
  clear E Hd. apply Forall_map.
  induction Hg as [|g l Hok _ IH]; [constructor|].
  simpl in Hs. apply Forall_app in Hs as [Hs1 Hs2].
  constructor; [|now apply IH].
  assert (Hss : single_spaced false (body g)).
  { destruct Hok as [J F]. now apply (joined_single_spaced (g_pieces g)). }
  unfold render, ts_prefix. simpl.
  split; [now apply group_ok_body|]. split; [exact Hss|].
  repeat split; eapply single_spaced_free; try exact Hss;
    try reflexivity; discriminate.
Qed.

(** ** The soft length cap *)

Lemma total_len_app a b : total_len (a ++ b) = (total_len a + total_len b)%Z.
Proof.
  unfold total_len. induction a as [|x a IH]; simpl; [reflexivity|].
  rewrite IH. lia.
Qed.

Lemma total_len_concat l : total_len l = Z.of_nat (List.length (List.concat l)).
Proof.
  unfold total_len. induction l as [|x l IH]; simpl; [reflexivity|].
  rewrite IH, length_app. lia.
Qed.

Lemma strip_by_length p s : (List.length (strip_by p s) <= List.length s)%nat.
Proof.
  destruct (strip_by_infix p s) as (pre & post & E).
  rewrite E at 2. rewrite !length_app. lia.
Qed.

Lemma capped_mono keep max_chars done more para :
  capped keep max_chars done para -> capped keep max_chars (done ++ more) para.
Proof.
  intros (start & b & p & E & Hin & Hb). exists start, b, p.
  split; [exact E|]. split; [|exact Hb]. apply in_or_app. now left.
Qed.

Lemma cap_inv_flush keep max_chars st done :
  cap_inv keep max_chars st done -> buf st <> [] ->
  cap_inv keep max_chars (flush keep st) done.
Proof.
  intros [Hp Hb] Hne. destruct Hb as [E|(b & p & E & Hin & Hc)];
    [contradiction|].
  split; [|now left]. simpl. apply Forall_app. split; [exact Hp|].
  constructor; [|constructor]. exists (para_start_ts st), b, p.
  rewrite E. auto.
Qed.

Lemma after_break_small gap max_chars keep st seg :
  buf (after_break gap max_chars keep st seg) = []
  \/ (total_len (buf (after_break gap max_chars keep st seg)) < max_chars)%Z.
Proof.
  unfold after_break, break_phase.
  destruct (should_break gap max_chars st (secs_of seg)) eqn:S; simpl.
  - destruct (nonempty (buf st)) eqn:N; [now left|].
    left. now apply nonempty_false.
  - destruct (buf st) as [|x l] eqn:E; [now left|]. right.
    destruct (Z.ltb_spec (total_len (x :: l)) max_chars) as [H|H]; [exact H|].
    assert (should_break gap max_chars st (secs_of seg) = true);
      [|congruence].
    apply should_break_iff. right. rewrite E. split; [discriminate | exact H].
Qed.

Lemma cap_inv_step keep gap max_chars end_punct st seg done :
  cap_inv keep max_chars st done ->
  exists st',
    para_step gap max_chars end_punct keep st seg = Ok st'
    /\ cap_inv keep max_chars st'
         (done ++ List.filter nonempty [_clean_piece (text seg)]).
Proof.
  intros Hinv. rewrite para_step_eq. eexists. split; [reflexivity|].
  simpl. destruct (nonempty (_clean_piece (text seg))) eqn:N;
    [|now rewrite app_nil_r].
  set (piece := _clean_piece (text seg)) in *.
  assert (H1 : cap_inv keep max_chars
                 (after_break gap max_chars keep st seg) done).
  { unfold after_break, break_phase.
    destruct (should_break _ _ _ _ && nonempty (buf st)) eqn:B; [|assumption].
    apply andb_true_iff in B as [_ B]. apply nonempty_true in B.
    now apply cap_inv_flush. }
  assert (H2 : cap_inv keep max_chars
                 (after_append gap max_chars end_punct keep st seg)
                 (done ++ [piece])).
  { destruct H1 as [Hp _].
    pose proof (after_break_small gap max_chars keep st seg) as Hs.
    unfold after_append, append_phase. fold piece.
    set (s1 := after_break gap max_chars keep st seg) in *.
    split; simpl.
    - eapply List.Forall_impl; [|exact Hp]. intros a. apply capped_mono.
    - right. eexists _, piece. split; [reflexivity|].
      split; [apply in_or_app; right; now left|].
      destruct (buf s1) as [|x l] eqn:E; [now left|]. right.
      destruct Hs as [Hs|Hs]; [discriminate|]. cbn [nonempty].
      destruct (negb (ends_with_punct end_punct (x :: l))); [|lia].
      rewrite total_len_app. change (total_len [py " "]) with 1%Z. lia. }
  unfold eager_phase. destruct (eager_flush _ _ _); [|exact H2].
  apply cap_inv_flush; [exact H2|].
  unfold after_append, append_phase. simpl.
  intros E. apply app_eq_nil in E. destruct E. discriminate.
Qed.

Lemma cap_inv_loop keep gap max_chars end_punct segs : forall st done,
  cap_inv keep max_chars st done ->
  exists st',
    para_loop gap max_chars end_punct keep segs st = Ok st'
    /\ cap_inv keep max_chars st' (done ++ cleaned_pieces segs).
Proof.
  induction segs as [|seg segs IH]; intros st done Hinv.
  - exists st. split; [reflexivity|]. unfold cleaned_pieces. simpl.
    now rewrite app_nil_r.
  - destruct (cap_inv_step keep gap max_chars end_punct st seg done Hinv)
      as (st1 & E1 & H1).
    destruct (IH st1 _ H1) as (st' & E' & H').
    exists st'. split.
    + simpl. rewrite E1. exact E'.
    + now rewrite cleaned_pieces_cons, app_assoc.
Qed.

(** The length cap is soft by one piece: without kept timestamps, every
    paragraph is at most [max_chars] characters (none, if [max_chars] is
    negative) longer than one of the cleaned pieces of the input, the last
    one merged into it. *)
Theorem paragraph_length_soft_cap segs gap max_chars end_punct :
  exists paragraphs,
    segments_to_paragraphs segs gap max_chars end_punct false = Ok paragraphs
    /\ Forall (fun para =>
                 exists p,
                   In p (cleaned_pieces segs)
                   /\ (Z.of_nat (List.length para)
                       <= Z.max 0 max_chars + Z.of_nat (List.length p))%Z)
         paragraphs.
Proof.
  destruct (cap_inv_loop false gap max_chars end_punct segs init_state [])
    as (st & E & Hinv).
  { split; [constructor | now left]. }
  assert (Hfin : cap_inv false max_chars
                   (if nonempty (buf st) then flush false st else st)
                   (cleaned_pieces segs)).
  { destruct (nonempty (buf st)) eqn:N; [|exact Hinv].
    apply cap_inv_flush; [exact Hinv | now apply nonempty_true]. }
  eexists. split; [unfold segments_to_paragraphs; rewrite E; reflexivity|].
  destruct Hfin as [Hp _]. eapply List.Forall_impl; [|exact Hp].
  intros para (start & b & p & -> & Hin & Hb). exists p. split; [exact Hin|].
  unfold para_of. cbn [andb]. rewrite join_nil_concat.
  pose proof (strip_by_length Py_UNICODE_ISSPACE (List.concat (b ++ [p]))) as Hl.
  unfold strip.
  assert (Ht : total_len (b ++ [p])
               = (total_len b + Z.of_nat (List.length p))%Z).
  { rewrite total_len_app. unfold total_len at 2. simpl. lia. }
  rewrite total_len_concat in Ht.
  destruct Hb as [->|Hb]; [simpl in *; lia | lia].
Qed.

(** ** Names of saved files *)

Lemma Forall_infix {A} (P : A -> Prop) pre x post :
  Forall P (pre ++ x ++ post) -> Forall P x.
Proof.
  intros H. apply Forall_app in H as [_ H]. now apply Forall_app in H as [H _].
Qed.

Lemma Forall_firstn {A} (P : A -> Prop) n l :
  Forall P l -> Forall P (firstn n l).
Proof.
  intros H. rewrite <- (firstn_skipn n l) in H.
  now apply Forall_app in H as [H _].
Qed.

Lemma strip_by_Forall (P : char -> Prop) p s :
  Forall P s -> Forall P (strip_by p s).
Proof.
  intros H. destruct (strip_by_infix p s) as (pre & post & E).
  rewrite E in H. exact (Forall_infix P _ _ _ H).
Qed.

Lemma strip_by_none p s :
  Forall (fun c => p c = false) s -> strip_by p s = s.
Proof.
  intros H. destruct s as [|c r]; [reflexivity|].
  apply strip_by_trimmed. split.
  - simpl. now inversion H.
  - apply Forall_rev in H. destruct (rev (c :: r)) as [|d x] eqn:E.
    + apply (f_equal (@List.length _)) in E. rewrite length_rev in E.
      discriminate.
    + simpl. now inversion H.
Qed.

Lemma sub_unsafe_safe s : forall in_run,
  Forall safe_char (sub_unsafe in_run s).
Proof.
  induction s as [|c r IH]; intros in_run; cbn [sub_unsafe]; [constructor|].
  destruct (char_in c unsafe_chars) eqn:E.
  - destruct in_run; [apply IH|]. constructor; [reflexivity | apply IH].
  - constructor; [exact E | apply IH].
Qed.

Lemma sub_unsafe_id s : forall in_run,
  Forall safe_char s -> sub_unsafe in_run s = s.
Proof.
  induction s as [|c r IH]; intros in_run H; [reflexivity|].
  inversion H as [|? ? Hc Hr]; subst. cbn [sub_unsafe]. unfold safe_char in Hc.
  rewrite Hc. f_equal. now apply IH.
Qed.

(** A saved file's name is never empty, has at most 120 characters and
    none of the characters that Windows forbids in file names. *)
Theorem safe_name_shape (s : pystr) :
  Forall safe_char (_safe_name s)
  /\ (1 <= List.length (_safe_name s) <= 120)%nat.
Proof.
  unfold _safe_name.
  set (t := strip_chars (py ".") (strip (sub_unsafe false s))).
  assert (Ht : Forall safe_char t).
  { unfold t, strip_chars, strip. do 2 apply strip_by_Forall.
    apply sub_unsafe_safe. }
  assert (Hu : Forall safe_char (if nonempty t then t else py "transcript")).
  { destruct (nonempty t); [exact Ht|].
    vm_compute. repeat (constructor; [reflexivity|]). constructor. }
  split; [now apply Forall_firstn|].
  rewrite length_firstn.
  assert (1 <= List.length (if nonempty t then t else py "transcript"))%nat.
  { destruct t; simpl; [vm_compute|]; lia. }
  lia.
Qed.

(** A name that is already safe is kept as it is: no forbidden character,
    no whitespace or dot at either end, at most 120 characters. *)
Theorem safe_name_identity (s : pystr) :
  Forall safe_char s -> clean s ->
  trimmed (fun c => char_in c (py ".")) s ->
  (List.length s <= 120)%nat ->
  _safe_name s = s.
Proof.
  intros Hs Hc Hd Hl. unfold _safe_name, strip, strip_chars.
  rewrite (sub_unsafe_id s false Hs), (strip_by_trimmed _ s Hc),
    (strip_by_trimmed _ s Hd).
  destruct s as [|c r]; [destruct Hc as [[] _]|]. cbn [nonempty].
  now apply firstn_all2.
Qed.

Lemma safe_name_identity_witness :
  _safe_name (py "dQw4w9WgXcQ") = py "dQw4w9WgXcQ".
Proof.
  apply safe_name_identity.
  - vm_compute. repeat (constructor; [reflexivity|]). constructor.
  - split; reflexivity.
  - split; reflexivity.
  - vm_compute. lia.
Defined.

(** ** The identifier of a video *)

Lemma strip_prefix_Some pre : forall s r,
  strip_prefix pre s = Some r -> s = pre ++ r.
Proof.
  induction pre as [|a pre IH]; intros s r H; simpl in H.
  - now inversion H.
  - destruct s as [|c s]; [discriminate|].
    destruct (N.eqb_spec a c) as [->|]; [|discriminate].
    simpl. f_equal. now apply IH.
Qed.

Lemma strip_prefix_app pre s : strip_prefix pre (pre ++ s) = Some s.
Proof.
  induction pre as [|a pre IH]; simpl; [reflexivity|].
  now rewrite N.eqb_refl.
Qed.

Lemma take_while_spec p s :
  Forall (fun c => p c = true) (take_while p s)
  /\ exists rest, s = take_while p s ++ rest /\ (rest = [] \/ starts_ok p rest).
Proof.
  induction s as [|c r (IH1 & rest & IH2 & IH3)]; simpl.
  - split; [constructor|]. exists []. split; [reflexivity | now left].
  - destruct (p c) eqn:E.
    + split; [now constructor|]. exists rest. split; [|exact IH3].
      simpl. now f_equal.
    + split; [constructor|]. exists (c :: r). split; [reflexivity|].
      right. exact E.
Qed.

Lemma take_while_app p g rest :
  Forall (fun c => p c = true) g -> rest = [] \/ starts_ok p rest ->
  take_while p (g ++ rest) = g.
Proof.
  intros Hg Hr. induction Hg as [|c g Hc _ IH]; simpl.
  - destruct Hr as [->|Hr]; [reflexivity|].
    destruct rest as [|d x]; [reflexivity|]. simpl in *. now rewrite Hr.
  - rewrite Hc. now f_equal.
Qed.

Lemma match_markers_Some markers : forall s g,
  match_markers markers s = Some g ->
  exists m rest,
    In m markers /\ s = m ++ g ++ rest
    /\ (6 <= List.length g)%nat
    /\ Forall (fun c => is_id_char c = true) g
    /\ ends_id rest.
Proof.
  induction markers as [|m markers IH]; intros s g H;
    cbn [match_markers] in H; [discriminate|].
  assert (Hrec : match_markers markers s = Some g ->
                 exists m0 rest,
                   In m0 (m :: markers) /\ s = m0 ++ g ++ rest
                   /\ (6 <= List.length g)%nat
                   /\ Forall (fun c => is_id_char c = true) g
                   /\ ends_id rest).
  { intros H'. destruct (IH s g H') as (m0 & rest & Hin & Hrest).
    exists m0, rest. split; [now right | exact Hrest]. }
  destruct (strip_prefix m s) as [r|] eqn:E; [|now apply Hrec].
  destruct (6 <=? List.length (take_while is_id_char r))%nat eqn:Hlen;
    [|now apply Hrec].
  apply Nat.leb_le in Hlen. inversion H; subst g.
  apply strip_prefix_Some in E.
  destruct (take_while_spec is_id_char r) as (Hall & rest & Hr & Hend).
  exists m, rest. split; [now left|]. split; [now rewrite <- Hr|].
  split; [exact Hlen|]. split; [exact Hall | exact Hend].
Qed.

Lemma search_video_id_Some s : forall g,
  search_video_id s = Some g ->
  exists pre m rest,
    In m video_markers /\ s = pre ++ m ++ g ++ rest
    /\ (6 <= List.length g)%nat
    /\ Forall (fun c => is_id_char c = true) g
    /\ ends_id rest.
Proof.
  induction s as [|c s IH]; intros g H.
  - cbn [search_video_id] in H.
    destruct (match_markers video_markers []) eqn:E; [|discriminate].
    inversion H; subst. apply match_markers_Some in E as (m & rest & E).
    now exists [], m, rest.
  - cbn [search_video_id] in H.
    destruct (match_markers video_markers (c :: s)) eqn:E.
    + inversion H; subst. apply match_markers_Some in E as (m & rest & E).
      now exists [], m, rest.
    + destruct (IH g H) as (pre & m & rest & Hin & -> & Hrest).
      exists (c :: pre), m, rest. split; [exact Hin|]. split; [reflexivity|].
      exact Hrest.
Qed.

Lemma id_char_plain c :
  is_id_char c = true ->
  safe_char c /\ Py_UNICODE_ISSPACE c = false
  /\ char_in c (py ".") = false /\ c <> 47 /\ c <> 61.
Proof.
  intros H.
  assert (R : 65 <= c <= 90 \/ 97 <= c <= 122 \/ 48 <= c <= 57
              \/ c = 95 \/ c = 45).
  { unfold is_id_char in H.
    rewrite !orb_true_iff, !andb_true_iff, !N.leb_le, !N.eqb_eq in H. lia. }
  clear H. unfold safe_char, Py_UNICODE_ISSPACE.
  change (py ".") with [46]. unfold char_in, unsafe_chars. cbn [existsb].
  rewrite !orb_false_iff, !andb_false_iff, !N.leb_gt, !N.eqb_neq. lia.
Qed.

Lemma Forall_id_plain g :
  Forall (fun c => is_id_char c = true) g ->
  Forall safe_char g
  /\ Forall (fun c => Py_UNICODE_ISSPACE c = false) g
  /\ Forall (fun c => char_in c (py ".") = false) g
  /\ Forall (fun c => c <> 47 /\ c <> 61) g.
Proof.
  intros H. split; [|split; [|split]];
    (eapply List.Forall_impl; [|exact H]); intros c Hc;
    apply id_char_plain in Hc; tauto.
Qed.

(** An identifier is used as a file name as it is, cut to 120 characters. *)
Lemma safe_name_id g :
  Forall (fun c => is_id_char c = true) g -> g <> [] ->
  _safe_name g = firstn 120 g.
Proof.
  intros H Hne. destruct (Forall_id_plain g H) as (H1 & H2 & H3 & _).
  unfold _safe_name, strip, strip_chars.
  rewrite (sub_unsafe_id g false H1), (strip_by_none _ g H2),
    (strip_by_none _ g H3).
  destruct g; [contradiction | reflexivity].
Qed.

Lemma match_markers_id_chars s :
  Forall (fun c => is_id_char c = true) s ->
  match_markers video_markers s = None.
Proof.
  intros H. destruct (match_markers video_markers s) as [g|] eqn:E;
    [|reflexivity].
  apply match_markers_Some in E as (m & rest & Hin & -> & _).
  apply Forall_app in H as [H _]. apply Forall_id_plain in H as (_ & _ & _ & H).
  exfalso. unfold video_markers in Hin. simpl in Hin.
  destruct Hin as [<-|[<-|[<-|[<-|[]]]]];
    vm_compute in H; inversion H as [|? ? [Ha Hb] Hr]; subst;
    try (now apply Ha);
    inversion Hr as [|? ? [Hc Hd] _]; subst; now apply Hd.
Qed.

Lemma search_video_id_id_chars s :
  Forall (fun c => is_id_char c = true) s -> search_video_id s = None.
Proof.
  induction 1 as [|c s Hc Hs IH].
  - reflexivity.
  - cbn [search_video_id].
    rewrite (match_markers_id_chars (c :: s)); [exact IH|].
    now constructor.
Qed.

(** The identifier of a video is never empty. It is the input itself, or
    the fixed word for an empty input, or else at least six identifier
    characters that follow one of the four markers in the input and are not
    continued by a further identifier character; such an identifier is
    used as the file name unchanged up to 120 characters. *)
Theorem video_id_shape (s : pystr) :
  _video_id_of s <> []
  /\ ((s <> [] /\ _video_id_of s = s)
      \/ (s = [] /\ _video_id_of s = py "video")
      \/ (exists pre m rest,
            In m video_markers
            /\ s = pre ++ m ++ _video_id_of s ++ rest
            /\ (6 <= List.length (_video_id_of s))%nat
            /\ Forall (fun c => is_id_char c = true) (_video_id_of s)
            /\ ends_id rest
            /\ _safe_name (_video_id_of s) = firstn 120 (_video_id_of s))).
Proof.
  unfold _video_id_of. destruct s as [|c s]; cbn [nonempty negb].
  - split; [discriminate|]. right. left. now split.
  - destruct (search_video_id (c :: s)) as [g|] eqn:E.
    + apply search_video_id_Some in E
        as (pre & m & rest & Hin & E & Hlen & Hid & Hend).
      assert (Hne : g <> []) by (destruct g; [simpl in Hlen; lia | discriminate]).
      split; [exact Hne|]. right. right. exists pre, m, rest.
      split; [exact Hin|]. split; [exact E|]. split; [exact Hlen|].
      split; [exact Hid|]. split; [exact Hend|]. now apply safe_name_id.
    + split; [discriminate|]. left. split; [discriminate | reflexivity].
Qed.

(** An input of identifier characters only, such as a bare video
    identifier, is returned as it is, whatever its length. *)
Theorem bare_video_id_unchanged (s : pystr) :
  s <> [] -> Forall (fun c => is_id_char c = true) s -> _video_id_of s = s.
Proof.
  intros Hne H. unfold _video_id_of.
  rewrite (search_video_id_id_chars s H).
  destruct s; [contradiction | reflexivity].
Qed.

Lemma bare_video_id_unchanged_witness :
  _video_id_of (py "abc") = py "abc".
Proof.
  apply bare_video_id_unchanged.
  - discriminate.
  - vm_compute. repeat (constructor; [reflexivity|]). constructor.
Defined.

Lemma search_video_id_skip c s :
  match_markers video_markers (c :: s) = None ->
  search_video_id (c :: s) = search_video_id s.
Proof. intros H. cbn [search_video_id]. now rewrite H. Qed.

Lemma search_video_id_hit s g :
  match_markers video_markers s = Some g -> search_video_id s = Some g.
Proof. intros H. destruct s; cbn [search_video_id]; now rewrite H. Qed.

Lemma match_markers_hit m g rest :
  In m video_markers ->
  Forall (fun c => is_id_char c = true) g -> (6 <= List.length g)%nat ->
  ends_id rest ->
  match_markers video_markers (m ++ g ++ rest) = Some g.
Proof.
  intros Hin Hg Hlen Hend. apply Nat.leb_le in Hlen.
  pose proof (take_while_app is_id_char g rest Hg Hend) as Ht.
  unfold video_markers in *. simpl in Hin.
  destruct Hin as [<-|[<-|[<-|[<-|[]]]]].
  - cbn [match_markers]. rewrite strip_prefix_app, Ht, Hlen. reflexivity.
  - cbn [match_markers].
    replace (strip_prefix (py "v=") (py "/shorts/" ++ g ++ rest))
      with (@None pystr) by reflexivity.
    rewrite strip_prefix_app, Ht, Hlen. reflexivity.
  - cbn [match_markers].
    replace (strip_prefix (py "v=") (py "/live/" ++ g ++ rest))
      with (@None pystr) by reflexivity.
    replace (strip_prefix (py "/shorts/") (py "/live/" ++ g ++ rest))
      with (@None pystr) by reflexivity.
    rewrite strip_prefix_app, Ht, Hlen. reflexivity.
  - cbn [match_markers].
    replace (strip_prefix (py "v=") (py "/embed/" ++ g ++ rest))
      with (@None pystr) by reflexivity.
    replace (strip_prefix (py "/shorts/") (py "/embed/" ++ g ++ rest))
      with (@None pystr) by reflexivity.
    replace (strip_prefix (py "/live/") (py "/embed/" ++ g ++ rest))
      with (@None pystr) by reflexivity.
    rewrite strip_prefix_app, Ht, Hlen. reflexivity.
Qed.

Lemma search_video_id_url prefix g rest :
  In prefix video_url_prefixes ->
  Forall (fun c => is_id_char c = true) g -> (6 <= List.length g)%nat ->
  ends_id rest ->
  search_video_id (prefix ++ g ++ rest) = Some g.
Proof.
  intros Hin Hg Hlen Hend. unfold video_url_prefixes in Hin. simpl in Hin.
  destruct Hin as [<-|[<-|[<-|[<-|[]]]]].
  - change (py "https://www.youtube.com/watch?v=")
      with (py "https://www.youtube.com/watch?" ++ py "v=").
    rewrite <- app_assoc.
    let l := eval vm_compute in (py "https://www.youtube.com/watch?") in
    change (py "https://www.youtube.com/watch?") with l.
    cbn [app]. repeat (rewrite search_video_id_skip by reflexivity).
    apply search_video_id_hit, match_markers_hit; auto.
    vm_compute. tauto.
  - change (py "https://www.youtube.com/shorts/")
      with (py "https://www.youtube.com" ++ py "/shorts/").
    rewrite <- app_assoc.
    let l := eval vm_compute in (py "https://www.youtube.com") in
    change (py "https://www.youtube.com") with l.
    cbn [app]. repeat (rewrite search_video_id_skip by reflexivity).
    apply search_video_id_hit, match_markers_hit; auto.
    vm_compute. tauto.
  - change (py "https://www.youtube.com/live/")
      with (py "https://www.youtube.com" ++ py "/live/").
    rewrite <- app_assoc.
    let l := eval vm_compute in (py "https://www.youtube.com") in
    change (py "https://www.youtube.com") with l.
    cbn [app]. repeat (rewrite search_video_id_skip by reflexivity).
    apply search_video_id_hit, match_markers_hit; auto.
    vm_compute. tauto.
  - change (py "https://www.youtube.com/embed/")
      with (py "https://www.youtube.com" ++ py "/embed/").
    rewrite <- app_assoc.
    let l := eval vm_compute in (py "https://www.youtube.com") in
    change (py "https://www.youtube.com") with l.
    cbn [app]. repeat (rewrite search_video_id_skip by reflexivity).
    apply search_video_id_hit, match_markers_hit; auto.
    vm_compute. tauto.
Qed.

(** From an address of one of the four usual forms, the identifier is
    read back exactly, whatever follows it (a query parameter, say), and it
    names the saved file unchanged up to 120 characters. *)
Theorem video_url_identifier prefix g rest :
  In prefix video_url_prefixes ->
  Forall (fun c => is_id_char c = true) g -> (6 <= List.length g)%nat ->
  ends_id rest ->
  _video_id_of (prefix ++ g ++ rest) = g
  /\ _safe_name (_video_id_of (prefix ++ g ++ rest)) = firstn 120 g.
Proof.
  intros Hin Hg Hlen Hend.
  assert (E : _video_id_of (prefix ++ g ++ rest) = g).
  { unfold _video_id_of.
    rewrite (search_video_id_url prefix g rest Hin Hg Hlen Hend).
    destruct (prefix ++ g ++ rest) eqn:F; [|reflexivity].
    apply app_eq_nil in F as [_ F]. apply app_eq_nil in F as [-> _].
    simpl in Hlen. lia. }
  split; [exact E|]. rewrite E. apply safe_name_id; [exact Hg|].
  destruct g; [simpl in Hlen; lia | discriminate].
Qed.

Lemma video_url_identifier_witness :
  _video_id_of (py "https://www.youtube.com/watch?v=" ++ py "dQw4w9WgXcQ"
                ++ py "&t=42s") = py "dQw4w9WgXcQ"
  /\ _safe_name (_video_id_of (py "https://www.youtube.com/watch?v="
                               ++ py "dQw4w9WgXcQ" ++ py "&t=42s"))
     = firstn 120 (py "dQw4w9WgXcQ").
Proof.
  apply video_url_identifier.
  - left. reflexivity.
  - vm_compute. repeat (constructor; [reflexivity|]). constructor.
  - vm_compute. lia.
  - right. reflexivity.
Defined.

(** ** Failures of [to_srt] *)

Lemma map_result_int_cases l :
  map_result int l = Raise ValueError
  \/ exists zs, map_result int l = Ok zs /\ List.length zs = List.length l.
Proof.
  induction l as [|a l IH]; [right; now exists []|].
  cbn [map_result]. change (int a) with (or_raise ValueError (py_int a)).
  destruct (py_int a) as [z|]; [|now left]. cbn [or_raise bind].
  destruct IH as [->|(zs & -> & Hl)]; [now left|].
  right. exists (z :: zs). split; [reflexivity|]. simpl. now rewrite Hl.
Qed.

Lemma hms_to_secs_eq ts :
  hms_to_secs ts
  = or_raise ValueError
      (hms_parts_secs (List.map py_int (split colon ts))).
Proof.
  unfold hms_to_secs.
  destruct (split colon ts) as [|a [|b [|c [|d l]]]]; cbn [List.map].
  - reflexivity.
  - cbn [map_result]. unfold int. simpl. now destruct (py_int a).
  - cbn [map_result]. unfold int. simpl.
    destruct (py_int a); [|reflexivity]. simpl.
    destruct (py_int b); [|reflexivity]. simpl. do 2 f_equal.
  - cbn [map_result]. unfold int. simpl.
    destruct (py_int a); [|reflexivity]. simpl.
    destruct (py_int b); [|reflexivity]. simpl.
    destruct (py_int c); reflexivity.
  - replace (hms_parts_secs
               (py_int a :: py_int b :: py_int c :: py_int d
                  :: List.map py_int l)) with (@None Z)
      by (simpl; destruct (py_int a), (py_int b), (py_int c); reflexivity).
    change (map_result int (a :: b :: c :: d :: l))
      with (x <- int a ;; bs <- (y <- int b ;; bs <- (z <- int c ;;
              bs <- map_result int (d :: l) ;; Ok (z :: bs)) ;; Ok (y :: bs)) ;;
            Ok (x :: bs)).
    change (int a) with (or_raise ValueError (py_int a)).
    change (int b) with (or_raise ValueError (py_int b)).
    change (int c) with (or_raise ValueError (py_int c)).
    destruct (py_int a); [|reflexivity]. cbn [or_raise bind].
    destruct (py_int b); [|reflexivity]. cbn [or_raise bind].
    destruct (py_int c); [|reflexivity]. cbn [or_raise bind].
    destruct (map_result_int_cases (d :: l)) as [->|(zs & -> & Hl)];
      [reflexivity|].
    destruct zs as [|w zs]; [discriminate|]. reflexivity.
Qed.

Lemma srt_normalize_cases seg :
  (srt_normalize seg = Raise ValueError /\ srt_start seg = None)
  \/ exists e,
       srt_normalize seg = Ok e /\ n_text e = text seg
       /\ hms_to_secs (n_timestamp e) = or_raise ValueError (srt_start seg).
Proof.
  destruct (srt_start seg) as [s|] eqn:E.
  - right. destruct (srt_normalize_ok seg s E) as (e & H1 & H2 & H3).
    now exists e.
  - unfold srt_start in E. unfold srt_normalize.
    set (ts := str_or (timestamp seg) (py "00:00:00")) in *.
    destruct (Nat.eqb_spec (count colon ts) 1) as [Hc|Hc].
    + left. split; [|reflexivity].
      assert (Hl := split_length colon ts). rewrite Hc in Hl.
      destruct (split colon ts) as [|a [|b [|c l]]]; try discriminate.
      simpl in E. unfold int.
      destruct (py_int a); [|reflexivity].
      destruct (py_int b); [discriminate | reflexivity].
    + right. eexists. split; [reflexivity|]. split; [reflexivity|].
      cbn [n_timestamp]. now rewrite hms_to_secs_eq, E.
Qed.

Lemma srt_norm_loop_cases segments : forall acc,
  (srt_norm_loop segments acc = Raise ValueError
   /\ Exists (fun seg => srt_start seg = None) segments)
  \/ exists norm,
       srt_norm_loop segments acc = Ok (acc ++ norm)
       /\ Forall2 (fun seg e =>
                     hms_to_secs (n_timestamp e)
                     = or_raise ValueError (srt_start seg)) segments norm.
Proof.
  induction segments as [|seg segments IH]; intros acc.
  - right. exists []. split; [simpl; now rewrite app_nil_r | constructor].
  - cbn [srt_norm_loop].
    destruct (srt_normalize_cases seg) as [[-> Hn]|(e & -> & _ & He)].
    + left. split; [reflexivity | now left].
    + cbn [bind]. destruct (IH (acc ++ [e])) as [[-> Hx]|(norm & -> & Hf)].
      * left. split; [reflexivity | now right].
      * right. exists (e :: norm). rewrite <- app_assoc.
        split; [reflexivity | now constructor].
Qed.

Lemma srt_loop_raises todo : forall done i srt_lines,
  Exists (fun e => hms_to_secs (n_timestamp e) = Raise ValueError) todo ->
  i = S (List.length done) ->
  srt_loop (done ++ todo) i todo srt_lines = Raise ValueError.
Proof.
  induction todo as [|seg rest IH]; intros done i srt_lines H Hi;
    [inversion H|]. subst i. cbn [srt_loop].
  destruct (hms_to_secs (n_timestamp seg)) as [s|x] eqn:Hs.
  2:{ rewrite hms_to_secs_eq in Hs.
      destruct (hms_parts_secs _); [discriminate|]. now inversion Hs. }
  cbn [bind].
  inversion H as [? ? Hhd|? ? Htl]; subst; [congruence|].
  destruct rest as [|e2 rest']; [inversion Htl|].
  destruct (Nat.ltb_spec (S (List.length done))
              (List.length (done ++ seg :: e2 :: rest'))) as [_|Hge].
  2:{ rewrite length_app in Hge. simpl in Hge. lia. }
  assert (Hlk : (done ++ seg :: e2 :: rest') !! S (List.length done)
                = Some e2).
  { change (done ++ seg :: e2 :: rest') with (done ++ [seg] ++ e2 :: rest').
    rewrite app_assoc.
    replace (S (List.length done)) with (List.length (done ++ [seg]))
      by (rewrite length_app; simpl; lia).
    apply list_lookup_middle. reflexivity. }
  rewrite Hlk. cbn [or_raise bind].
  destruct (hms_to_secs (n_timestamp e2)) as [s2|x] eqn:Hs2.
  2:{ rewrite hms_to_secs_eq in Hs2.
      destruct (hms_parts_secs _); [discriminate|]. now inversion Hs2. }
  cbn [bind].
  change (done ++ seg :: e2 :: rest') with (done ++ [seg] ++ e2 :: rest').
  rewrite app_assoc. apply IH; [exact Htl|].
  rewrite length_app. simpl. lia.
Qed.

Lemma srt_starts_cases segments :
  (exists starts, Forall2 (fun seg s => srt_start seg = Some s) segments starts)
  \/ Exists (fun seg => srt_start seg = None) segments.
Proof.
  induction segments as [|seg segments IH]; [left; exists []; constructor|].
  destruct (srt_start seg) as [s|] eqn:E; [|right; now left].
  destruct IH as [(starts & IH)|IH]; [|right; now right].
  left. exists (s :: starts). now constructor.
Qed.

Lemma to_srt_cases segments :
  (exists starts,
     Forall2 (fun seg s => srt_start seg = Some s) segments starts
     /\ to_srt segments
        = Ok (join [newline]
                (cues 1 starts (cue_ends starts) (List.map text segments))))
  \/ (Exists (fun seg => srt_start seg = None) segments
      /\ to_srt segments = Raise ValueError).
Proof.
  destruct (srt_starts_cases segments) as [(starts & H)|H].
  - left. exists starts. split; [exact H | now apply to_srt_spec].
  - right. split; [exact H|]. unfold to_srt.
    destruct (srt_norm_loop_cases segments []) as [[-> _]|(norm & -> & Hf)];
      [reflexivity|].
    cbn [app bind].
    pose proof (srt_loop_raises norm [] 1%nat []) as Hr. cbn [app] in Hr.
    rewrite Hr; [reflexivity| |reflexivity].
    clear -H Hf. induction Hf as [|seg e segments norm He _ IH];
      [inversion H|].
    inversion H as [? ? Hhd|? ? Htl]; subst.
    + left. now rewrite He, Hhd.
    + right. now apply IH.
Qed.

(** [to_srt] fails with a [ValueError] whenever the timestamp of some
    segment is not of the form [M:SS] or [H:MM:SS], wherever that segment
    stands, and it never fails with another exception: the look-ahead at
    the next cue raises no [IndexError]. *)
Theorem to_srt_failure segments :
  (Exists (fun seg => srt_start seg = None) segments ->
   to_srt segments = Raise ValueError)
  /\ (forall e, to_srt segments = Raise e -> e = ValueError).
Proof.
  destruct (to_srt_cases segments) as [(starts & Hf & E)|[Hx E]].
  - split.
    + intros Hx. exfalso. clear E.
      induction Hf as [|seg s segments starts Hs _ IH];
        inversion Hx; subst; [congruence | now apply IH].
    + intros e He. rewrite E in He. discriminate.
  - split.
    + intros _. exact E.
    + intros e He. rewrite E in He. now inversion He.
Qed.

(** ** Failures of the normalizer *)

Lemma normalize_loop_records raw : forall out0,
  normalize_loop raw out0
  = (outs <- map_result record_segment raw ;; Ok (out0 ++ segments_of outs)).
Proof.
  induction raw as [|i raw IH]; intros out0.
  - simpl. now rewrite app_nil_r.
  - cbn [normalize_loop map_result]. unfold record_segment at 1.
    destruct (normalize_record i) as [[[start text]|]|e]; cbn [bind];
      [| |reflexivity].
    + destruct (sec_to_hms start) as [ts|e]; cbn [bind]; [|reflexivity].
      rewrite IH. destruct (map_result record_segment raw); cbn [bind];
        [|reflexivity].
      unfold segments_of. cbn [flat_map]. now rewrite <- app_assoc.
    + rewrite IH. destruct (map_result record_segment raw); reflexivity.
Qed.

Lemma map_result_raise {A B} (f : A -> result B) pre i post e :
  Forall (fun a => exists b, f a = Ok b) pre -> f i = Raise e ->
  map_result f (pre ++ i :: post) = Raise e.
Proof.
  intros Hpre Hi. induction Hpre as [|a pre (b & Ha) _ IH]; simpl.
  - now rewrite Hi.
  - now rewrite Ha, IH.
Qed.

Lemma map_result_Ok {A B} (f : A -> result B) l bs :
  map_result f l = Ok bs <-> Forall2 (fun a b => f a = Ok b) l bs.
Proof.
  revert bs. induction l as [|a l IH]; intros bs; simpl.
  - split; [intros [= <-]; constructor | intros H; now inversion H].
  - destruct (f a) as [b|e] eqn:Ea; simpl.
    + destruct (map_result f l) as [bs'|e] eqn:El; simpl.
      * split.
        -- intros [= <-]. constructor; [exact Ea | now apply IH].
        -- intros H. inversion H as [|? b' ? l' Hb Hl]; subst.
           apply IH in Hl. congruence.
      * split; [discriminate|]. intros H.
        inversion H as [|? b' ? l' Hb Hl]; subst. apply IH in Hl.
        discriminate.
    + split; [discriminate|]. intros H. inversion H; congruence.
Qed.

(** The normalizer is all or nothing: the first record whose conversion
    raises aborts the whole call with that exception, whatever follows it,
    and a result is returned only when every record converts; the result
    then holds the segments of the recognized records, in order. *)
Theorem normalizer_all_or_nothing (raw : list raw) :
  (forall pre i post e,
      raw = pre ++ i :: post ->
      Forall (fun r => exists o, record_segment r = Ok o) pre ->
      record_segment i = Raise e ->
      _normalize_segments raw = Raise e)
  /\ (forall out,
         _normalize_segments raw = Ok out
         <-> exists outs,
               Forall2 (fun r o => record_segment r = Ok o) raw outs
               /\ out = segments_of outs).
Proof.
  unfold _normalize_segments. split.
  - intros pre i post e -> Hpre Hi. rewrite normalize_loop_records.
    now rewrite (map_result_raise record_segment pre i post e Hpre Hi).
  - intros out. rewrite normalize_loop_records. split.
    + destruct (map_result record_segment raw) as [outs|e] eqn:E;
        [|discriminate].
      intros [= <-]. exists outs. split; [now apply map_result_Ok | reflexivity].
    + intros (outs & Hf & ->). apply map_result_Ok in Hf. now rewrite Hf.
Qed.

(** A start that is [None] is an error in a mapping but zero in a
    sequence: a mapping whose [start] is [None] aborts the normalizer with
    a [TypeError], whatever its text and whatever follows, while a pair or
    triple whose start is [None] is given the timestamp [00:00:00]. *)
Theorem none_start_by_shape :
  (forall d rest,
      d !! "start"%string = Some VNone ->
      _normalize_segments (RDict d :: rest) = Raise TypeError)
  /\ (forall t,
         record_segment (RSeq [VNone; VStr t])
         = Ok (Some {| timestamp := Some (py "00:00:00");
                       text := strip (replace newline 32 t) |}))
  /\ (forall dur t more,
         record_segment (RSeq (VNone :: dur :: VStr t :: more))
         = Ok (Some {| timestamp := Some (py "00:00:00");
                       text := strip (replace newline 32 t) |})).
Proof.
  split; [|split].
  - intros d rest Hd. unfold _normalize_segments. cbn [normalize_loop].
    unfold normalize_record. rewrite Hd. reflexivity.
  - intros t. unfold record_segment, normalize_record.
    cbn [py_or truthy]. destruct t; reflexivity.
  - intros dur t more. unfold record_segment, normalize_record.
    cbn [py_or truthy]. destruct t; reflexivity.
Qed.

Lemma none_start_by_shape_witness :
  _normalize_segments
    [RDict {[ "start"%string := VNone ]}]
  = Raise TypeError.
Proof.
  apply (proj1 none_start_by_shape). reflexivity.
Defined.

(** ** What the normalizer hands to the renderers *)

Lemma normalize_loop_Forall (P : segment -> Prop) raw :
  (forall i start t ts,
      normalize_record i = Ok (Some (start, t)) -> sec_to_hms start = Ok ts ->
      P {| timestamp := Some ts; text := t |}) ->
  forall out0 out,
    Forall P out0 -> normalize_loop raw out0 = Ok out -> Forall P out.
Proof.
  intros HP. induction raw as [|i raw IH]; intros out0 out H0; simpl.
  - now intros [= <-].
  - destruct (normalize_record i) as [[[start t]|]|e] eqn:Er; simpl;
      [| |discriminate].
    + destruct (sec_to_hms start) as [ts|e] eqn:E; simpl; [|discriminate].
      apply IH. apply Forall_app. split; [assumption|].
      constructor; [|constructor]. now apply (HP i start t ts).
    + now apply IH.
Qed.

Lemma replace_free old new s : old <> new -> free_of old (replace old new s).
Proof.
  intros Hne. unfold free_of, replace. apply Forall_map.
  induction s as [|c s IH]; constructor; [|exact IH].
  destruct (N.eqb_spec c old); congruence.
Qed.

Lemma replace_strip_one_line v t : replace_strip v = Ok t -> one_line t.
Proof.
  unfold replace_strip. destruct (as_str v) as [s|e]; [|discriminate].
  intros [= <-]. split.
  - apply strip_by_Forall, replace_free. discriminate.
  - apply strip_by_cases.
Qed.

Lemma normalize_record_one_line i start t :
  normalize_record i = Ok (Some (start, t)) -> one_line t.
Proof.
  destruct i as [d|o|items|]; simpl; [| | |discriminate].
  - destruct (float _); [|discriminate]. simpl.
    destruct (replace_strip _) as [t'|] eqn:E; [|discriminate].
    intros [= _ <-]. now apply replace_strip_one_line in E.
  - destruct (_ || _); [|discriminate].
    destruct (float _); [|discriminate]. simpl.
    match goal with
    | |- (x <- ?m ;; _) = _ -> _ => destruct m as [v|]; [|discriminate]
    end.
    simpl. destruct (replace_strip v) as [t'|] eqn:E; [|discriminate].
    intros [= _ <-]. now apply replace_strip_one_line in E.
  - destruct items as [|a [|b [|c l]]]; try discriminate.
    + destruct (float _); [|discriminate]. simpl.
      destruct (replace_strip _) as [t'|] eqn:E; [|discriminate].
      intros [= _ <-]. now apply replace_strip_one_line in E.
    + destruct (float _); [|discriminate]. simpl.
      destruct (replace_strip _) as [t'|] eqn:E; [|discriminate].
      intros [= _ <-]. now apply replace_strip_one_line in E.
Qed.

Lemma format_0d_chars w z :
  Forall (fun c => c = 45 \/ 48 <= c <= 57) (format_0d w z).
Proof.
  destruct (format_0d_shape w z) as (body & -> & Hd & _).
  apply Forall_app. split.
  - destruct (z <? 0)%Z; [|constructor]. constructor; [now left|constructor].
  - eapply List.Forall_impl; [|exact Hd]. intros c Hc.
    apply is_digit_range in Hc. now right.
Qed.

Lemma hms_of_secs_chars n :
  Forall (fun c => c = 45 \/ 48 <= c <= 58) (hms_of_secs n).
Proof.
  assert (H : forall w z,
             Forall (fun c => c = 45 \/ 48 <= c <= 58) (format_0d w z)).
  { intros w z. eapply List.Forall_impl; [|apply format_0d_chars].
    simpl. lia. }
  assert (Hc : Forall (fun c => c = 45 \/ 48 <= c <= 58) [colon]).
  { constructor; [unfold colon; lia | constructor]. }
  unfold hms_of_secs.
  apply Forall_app; split; [apply H|].
  apply Forall_app; split; [exact Hc|].
  apply Forall_app; split; [apply H|].
  apply Forall_app; split; [exact Hc | apply H].
Qed.

Lemma join_sep_cons sep p q ps :
  join [sep] (p :: q :: ps) = p ++ sep :: join [sep] (q :: ps).
Proof. reflexivity. Qed.

Lemma split_join sep parts :
  parts <> [] -> Forall (free_of sep) parts ->
  split sep (join [sep] parts) = parts.
Proof.
  intros Hne H. induction H as [|p ps Hp Hps IH]; [contradiction|].
  destruct ps as [|q ps].
  - simpl. now apply split_no_sep.
  - rewrite join_sep_cons, (split_app_sep sep p _ Hp). f_equal.
    apply IH. discriminate.
Qed.

(** The timestamp the normalizer prints for a record is read back as the
    same number of seconds by the paragraph reconstructor and by the SRT
    renderer, negative values and values of a hundred hours or more
    included; so [to_srt] never fails on the normalizer's output, and the
    plain-text line of every segment carries its timestamp in brackets. *)
Theorem normalized_timestamps_read_back raw out :
  _normalize_segments raw = Ok out ->
  exists starts,
    Forall2 (fun seg n =>
               exists ts,
                 timestamp seg = Some ts
                 /\ _ts_to_secs ts = Ok n
                 /\ hms_to_secs ts = Ok n
                 /\ srt_start seg = Some n
                 /\ plain_line seg = py "[" ++ ts ++ py "] " ++ text seg)
      out starts
    /\ to_srt out
       = Ok (join [newline]
               (cues 1 starts (cue_ends starts) (List.map text out))).
Proof.
  intros H.
  assert (Hts := normalize_loop_timestamps raw [] out (List.Forall_nil _) H).
  assert (Hst : exists starts,
             Forall2 (fun seg n => timestamp seg = Some (hms_of_secs n))
               out starts).
  { clear H. induction Hts as [|seg out (n & Hn) _ (starts & IH)].
    - exists []. constructor.
    - exists (n :: starts). now constructor. }
  destruct Hst as (starts & Hst). exists starts. split.
  - eapply Forall2_impl; [exact Hst|]. intros seg n Hn.
    exists (hms_of_secs n). split; [exact Hn|].
    split; [apply ts_to_secs_hms|].
    pose proof (srt_start_hms seg n Hn) as Hs.
    split; [|split; [exact Hs|]].
    + apply hms_to_secs_parts. rewrite split_hms. cbn [List.map].
      rewrite !py_int_format_0d. cbn [hms_parts_secs]. f_equal.
      apply hms_value.
    + apply plain_line_known; [exact Hn | apply hms_of_secs_nonempty].
  - apply to_srt_spec. eapply Forall2_impl; [exact Hst|].
    intros seg n Hn. now apply srt_start_hms.
Qed.

Lemma normalized_timestamps_read_back_witness :
  exists starts,
    Forall2 (fun seg n =>
               exists ts,
                 timestamp seg = Some ts
                 /\ _ts_to_secs ts = Ok n
                 /\ hms_to_secs ts = Ok n
                 /\ srt_start seg = Some n
                 /\ plain_line seg = py "[" ++ ts ++ py "] " ++ text seg)
      [{| timestamp := Some (py "00:00:00"); text := py "hi" |}] starts
    /\ to_srt [{| timestamp := Some (py "00:00:00"); text := py "hi" |}]
       = Ok (join [newline]
               (cues 1 starts (cue_ends starts)
                  (List.map text
                     [{| timestamp := Some (py "00:00:00");
                         text := py "hi" |}]))).
Proof.
  apply (normalized_timestamps_read_back [RSeq [VNone; VStr (py "hi")]]).
  reflexivity.
Defined.

(** Every text the normalizer returns is on one line and is empty or free
    of whitespace at both ends; so the plain-text rendering of its output
    has exactly one line per segment, and splitting it at the line breaks
    gives the lines back. *)
Theorem normalized_plain_text_lines raw out :
  _normalize_segments raw = Ok out ->
  Forall (fun seg => one_line (text seg)) out
  /\ (out <> [] ->
      split newline (to_plain_text out) = List.map plain_line out)
  /\ (out = [] -> to_plain_text out = [])
  /\ List.length (split newline (to_plain_text out))
     = Nat.max 1 (List.length out).
Proof.
  intros H.
  assert (Hts := normalize_loop_timestamps raw [] out (List.Forall_nil _) H).
  assert (Hol : Forall (fun seg => one_line (text seg)) out).
  { apply (normalize_loop_Forall _ raw) with (out0 := []) (out := out);
      [|constructor | exact H].
    intros i start t ts Hr _. cbn [text].
    now apply (normalize_record_one_line i start t). }
  assert (Hlines : Forall (free_of newline) (List.map plain_line out)).
  { apply Forall_map. clear H.
    induction Hts as [|seg out' (n & Hn) _ IH]; [constructor|].
    inversion Hol as [|? ? [Hfree _] Hrest]; subst.
    constructor; [|now apply IH].
    rewrite (plain_line_known seg _ Hn (hms_of_secs_nonempty n)).
    unfold free_of.
    apply Forall_app; split; [repeat constructor; discriminate|].
    apply Forall_app; split.
    { eapply List.Forall_impl; [|apply hms_of_secs_chars].
      simpl. unfold newline. lia. }
    apply Forall_app; split; [repeat constructor; discriminate | exact Hfree]. }
  assert (Hsplit : out <> [] ->
            split newline (to_plain_text out) = List.map plain_line out).
  { intros Hne. rewrite to_plain_text_lines. apply split_join; [|exact Hlines].
    destruct out; [contradiction | discriminate]. }
  split; [exact Hol|]. split; [exact Hsplit|]. split.
  - intros ->. reflexivity.
  - destruct out as [|seg out']; [reflexivity|].
    rewrite Hsplit by discriminate. rewrite length_map. simpl. lia.
Qed.

Lemma normalized_plain_text_lines_witness :
  Forall (fun seg => one_line (text seg))
    [{| timestamp := Some (py "00:00:00"); text := py "hi" |}]
  /\ ([{| timestamp := Some (py "00:00:00"); text := py "hi" |}] <> [] ->
      split newline
        (to_plain_text
           [{| timestamp := Some (py "00:00:00"); text := py "hi" |}])
      = List.map plain_line
          [{| timestamp := Some (py "00:00:00"); text := py "hi" |}])
  /\ ([{| timestamp := Some (py "00:00:00"); text := py "hi" |}] = [] ->
      to_plain_text
        [{| timestamp := Some (py "00:00:00"); text := py "hi" |}] = [])
  /\ List.length
       (split newline
          (to_plain_text
             [{| timestamp := Some (py "00:00:00"); text := py "hi" |}]))
     = Nat.max 1
         (List.length
            [{| timestamp := Some (py "00:00:00"); text := py "hi" |}]).
Proof.
  apply (normalized_plain_text_lines [RSeq [VNone; VStr (py "hi")]]).
  reflexivity.
Defined.

(** ** Timestamps in brackets and between blanks *)

Lemma drop_while_all p a s :
  Forall (fun c => p c = true) a -> drop_while p (a ++ s) = drop_while p s.
Proof.
  induction 1 as [|c a Hc _ IH]; [reflexivity|]. simpl. now rewrite Hc.
Qed.

Lemma drop_while_app_all p s b :
  Forall (fun c => p c = true) b ->
  drop_while p (s ++ b)
  = if nonempty (drop_while p s) then drop_while p s ++ b else [].
Proof.
  intros Hb. induction s as [|c r IH]; simpl.
  - rewrite <- (app_nil_r b). now rewrite drop_while_all.
  - destruct (p c); [exact IH | reflexivity].
Qed.

Lemma strip_by_absorb p a s b :
  Forall (fun c => p c = true) a -> Forall (fun c => p c = true) b ->
  strip_by p (a ++ s ++ b) = strip_by p s.
Proof.
  intros Ha Hb. unfold strip_by, lstrip_by, rstrip_by.
  rewrite (drop_while_all p a _ Ha), (drop_while_app_all p s b Hb).
  destruct (drop_while p s) as [|d x]; [reflexivity|]. cbn [nonempty].
  rewrite rev_app_distr. f_equal. apply drop_while_all.
  now apply Forall_rev.
Qed.

(** The reader of timestamps ignores what surrounds one: any whitespace
    around it, and any square brackets around a timestamp that itself has
    no whitespace at either end, as the renderers print it. *)
Theorem ts_to_secs_ignores_wrapping (ts a b : pystr) :
  (Forall (fun c => Py_UNICODE_ISSPACE c = true) a ->
   Forall (fun c => Py_UNICODE_ISSPACE c = true) b ->
   _ts_to_secs (a ++ ts ++ b) = _ts_to_secs ts)
  /\ (strip ts = ts ->
      Forall (fun c => char_in c (py "[]") = true) a ->
      Forall (fun c => char_in c (py "[]") = true) b ->
      _ts_to_secs (a ++ ts ++ b) = _ts_to_secs ts).
Proof.
  split.
  - intros Ha Hb. rewrite !_ts_to_secs_value. unfold strip.
    now rewrite (strip_by_absorb _ a ts b Ha Hb).
  - intros Hts Ha Hb. rewrite !_ts_to_secs_value. rewrite Hts.
    assert (Hns : forall l,
               Forall (fun c => char_in c (py "[]") = true) l ->
               Forall (fun c => Py_UNICODE_ISSPACE c = false) l).
    { intros l Hl. eapply List.Forall_impl; [|exact Hl]. intros c Hc.
      apply char_in_In in Hc. change (py "[]") with [91; 93] in Hc.
      destruct Hc as [<-|[<-|[]]]; reflexivity. }
    assert (Hw : strip (a ++ ts ++ b) = a ++ ts ++ b).
    { destruct a as [|x a'].
      - cbn [app]. destruct b as [|y b'] using rev_ind.
        + now rewrite app_nil_r.
        + clear IHb'. destruct ts as [|t ts'].
          * cbn [app]. apply strip_by_none, Hns, Hb.
          * unfold strip in *. destruct (strip_by_cases Py_UNICODE_ISSPACE
                                           (t :: ts')) as [E|[Hs _]];
              [rewrite Hts in E; discriminate|].
            rewrite Hts in Hs. apply strip_by_trimmed. split; [exact Hs|].
            rewrite !rev_app_distr. simpl.
            apply Forall_app in Hb as [_ Hb]. apply Hns in Hb.
            now inversion Hb.
      - destruct b as [|y b'] using rev_ind.
        + rewrite app_nil_r. destruct ts as [|t ts'] using rev_ind.
          * rewrite app_nil_r. apply strip_by_none, Hns, Ha.
          * clear IHts'. unfold strip in *.
            destruct (strip_by_cases Py_UNICODE_ISSPACE (ts' ++ [t]))
              as [E|[_ He]];
              [rewrite Hts in E; now destruct ts'|].
            rewrite Hts in He. apply strip_by_trimmed. split.
            -- simpl. apply Hns in Ha. now inversion Ha.
            -- rewrite rev_app_distr. now apply starts_ok_app.
        + clear IHb'. apply strip_by_trimmed. split.
          * simpl. apply Hns in Ha. now inversion Ha.
          * rewrite !app_assoc, rev_app_distr. simpl.
            apply Forall_app in Hb as [_ Hb]. apply Hns in Hb.
            now inversion Hb. }
    rewrite Hw. unfold strip_chars.
    now rewrite (strip_by_absorb _ a ts b Ha Hb).
Qed.

Lemma ts_to_secs_ignores_wrapping_witness :
  _ts_to_secs (py " " ++ py "1:05" ++ py " ") = _ts_to_secs (py "1:05")
  /\ _ts_to_secs (py "[" ++ py "1:05" ++ py "]") = _ts_to_secs (py "1:05").
Proof.
  split.
  - apply (proj1 (ts_to_secs_ignores_wrapping (py "1:05") (py " ") (py " ")));
      repeat constructor.
  - apply (proj2 (ts_to_secs_ignores_wrapping (py "1:05") (py "[") (py "]")));
      [reflexivity | repeat constructor | repeat constructor].
Defined.

(** ** The paragraph text *)

Lemma count_app c a b : count c (a ++ b) = (count c a + count c b)%nat.
Proof. unfold count. now rewrite List.filter_app, length_app. Qed.

Lemma count_free c s : free_of c s -> count c s = 0%nat.
Proof.
  unfold count. induction 1 as [|d s Hd _ IH]; [reflexivity|]. simpl.
  destruct (N.eqb_spec c d); [congruence | exact IH].
Qed.

Lemma join_cons sep p q ps :
  join sep (p :: q :: ps) = p ++ sep ++ join sep (q :: ps).
Proof. reflexivity. Qed.

Lemma count_join_blank_lines ps :
  Forall (free_of newline) ps ->
  count newline (join [newline; newline] ps)
  = (2 * (List.length ps - 1))%nat.
Proof.
  induction 1 as [|p ps Hp Hps IH]; [reflexivity|].
  destruct ps as [|q ps].
  - simpl. rewrite (count_free _ _ Hp). reflexivity.
  - rewrite join_cons, !count_app, IH, (count_free _ _ Hp).
    change (count newline [newline; newline]) with 2%nat. simpl. lia.
Qed.

Lemma join_nonempty sep ps :
  ps <> [] -> Forall (fun p => p <> []) ps -> join sep ps <> [].
Proof.
  intros Hne H. destruct H as [|p ps Hp _]; [contradiction|].
  destruct ps as [|q ps]; [exact Hp|]. rewrite join_cons.
  intros E. apply app_eq_nil in E as [E _]. contradiction.
Qed.

(** The paragraph text, without kept timestamps, is empty exactly when no
    segment has text left after cleaning; otherwise its paragraphs are
    separated by blank lines and these are the only line breaks in it. *)
Theorem paragraph_text_blank_lines segs gap max_chars end_punct :
  exists paragraphs out,
    segments_to_paragraphs segs gap max_chars end_punct false = Ok paragraphs
    /\ to_paragraph_text segs gap max_chars end_punct false = Ok out
    /\ count newline out = (2 * (List.length paragraphs - 1))%nat
    /\ (out = [] <-> cleaned_pieces segs = []).
Proof.
  destruct (segments_to_paragraphs_groups segs gap max_chars end_punct false)
    as (groups & E & Hg & Hd).
  exists (List.map (render false) groups). eexists.
  split; [exact E|]. unfold to_paragraph_text. rewrite E. cbn [bind].
  split; [reflexivity|].
  assert (Hs : Forall (single_spaced false)
                 (List.concat (List.map g_pieces groups))).
  { rewrite Hd. apply cleaned_pieces_single_spaced. }
  assert (Hfree : Forall (free_of newline) (List.map (render false) groups)).
  { clear E Hd. apply Forall_map.
    induction Hg as [|g l Hok _ IH]; [constructor|].
    simpl in Hs. apply Forall_app in Hs as [Hs1 Hs2].
    constructor; [|now apply IH].
    unfold render, ts_prefix. simpl.
    apply (single_spaced_free false); [reflexivity | discriminate|].
    destruct Hok as [J F]. now apply (joined_single_spaced (g_pieces g)). }
  split; [now apply count_join_blank_lines|].
  rewrite <- Hd. split.
  - intros H. destruct groups as [|g l]; [reflexivity|]. exfalso.
    revert H. apply join_nonempty; [discriminate|].
    apply Forall_map. eapply List.Forall_impl; [|exact Hg].
    intros g'. apply render_nonempty.
  - intros H. pose proof (groups_count groups Hg) as Hc. rewrite H in Hc.
    destruct groups; [reflexivity | simpl in Hc; lia].
Qed.

(** ** The automatic file name *)

Lemma _video_id_of_url prefix g rest :
  In prefix video_url_prefixes ->
  Forall (fun c => is_id_char c = true) g -> (6 <= List.length g)%nat ->
  ends_id rest ->
  _video_id_of (prefix ++ g ++ rest) = g.
Proof.
  intros Hin Hg Hlen Hend. unfold _video_id_of.
  rewrite (search_video_id_url prefix g rest Hin Hg Hlen Hend).
  destruct (prefix ++ g ++ rest) eqn:F; [|reflexivity].
  apply app_eq_nil in F as [_ F]. apply app_eq_nil in F as [-> _].
  simpl in Hlen. lia.
Qed.

Lemma _safe_name_chars s :
  Forall safe_char (_safe_name s) /\ _safe_name s <> [].
Proof.
  unfold _safe_name.
  set (t := strip_chars (py ".") (strip (sub_unsafe false s))).
  assert (Ht : Forall safe_char t).
  { unfold t, strip_chars, strip. do 2 apply strip_by_Forall.
    apply sub_unsafe_safe. }
  split.
  - apply Forall_firstn. destruct (nonempty t); [exact Ht|].
    vm_compute. repeat (constructor; [reflexivity|]). constructor.
  - destruct t; [vm_compute|simpl]; discriminate.
Qed.

Lemma safe_literal (s : pystr) :
  forallb (fun c => negb (char_in c unsafe_chars)) s = true ->
  Forall safe_char s.
Proof.
  intros H. apply List.Forall_forall. intros c Hc.
  rewrite forallb_forall in H. specialize (H c Hc).
  unfold safe_char. now destruct (char_in c unsafe_chars).
Qed.

(** The automatic file name is a single path component: it holds neither
    a slash nor a backslash nor any other character forbidden on Windows,
    whatever the video address or the page's name is, and it ends with the
    extension of the output format after a non-empty base. *)
Theorem auto_save_name_safe video html_stem paragraphs f :
  Forall safe_char (auto_save_name video html_stem paragraphs f)
  /\ free_of 47 (auto_save_name video html_stem paragraphs f)
  /\ free_of 92 (auto_save_name video html_stem paragraphs f)
  /\ exists base,
       auto_save_name video html_stem paragraphs f = base ++ _ext_for f
       /\ base <> [].
Proof.
  assert (Hsafe : Forall safe_char
                    (auto_save_name video html_stem paragraphs f)).
  { unfold auto_save_name. apply Forall_app. split.
    - destruct (nonempty (default [] video)).
      + destruct (paragraphs && is_text f); apply Forall_app; split;
          try apply _safe_name_chars; now apply safe_literal.
      + destruct (paragraphs && is_text f);
          [apply Forall_app; split|]; try apply _safe_name_chars.
        now apply safe_literal.
    - destruct f; now apply safe_literal. }
  split; [exact Hsafe|]. split; [|split].
  - eapply List.Forall_impl; [|exact Hsafe]. intros c Hc ->. discriminate.
  - eapply List.Forall_impl; [|exact Hsafe]. intros c Hc ->. discriminate.
  - unfold auto_save_name. eexists. split; [reflexivity|].
    destruct (nonempty (default [] video)).
    + destruct (paragraphs && is_text f); discriminate.
    + destruct (_safe_name_chars html_stem) as [_ Hne].
      destruct (paragraphs && is_text f); [|exact Hne].
      intros E. apply app_eq_nil in E as [E _]. contradiction.
Qed.

(** For a video address of one of the four usual forms the automatic file
    name is the identifier, cut to 120 characters, between the fixed prefix
    and the extension. *)
Theorem auto_save_name_of_url prefix g rest html_stem paragraphs f :
  In prefix video_url_prefixes ->
  Forall (fun c => is_id_char c = true) g -> (6 <= List.length g)%nat ->
  ends_id rest ->
  auto_save_name (Some (prefix ++ g ++ rest)) html_stem paragraphs f
  = (if paragraphs && is_text f
     then py "transcript_paras_" else py "transcript_")
    ++ firstn 120 g ++ _ext_for f.
Proof.
  intros Hin Hg Hlen Hend. unfold auto_save_name.
  change (default [] (Some (prefix ++ g ++ rest))) with (prefix ++ g ++ rest).
  assert (Hne : nonempty (prefix ++ g ++ rest) = true).
  { destruct (prefix ++ g ++ rest) eqn:F; [|reflexivity].
    apply app_eq_nil in F as [_ F]. apply app_eq_nil in F as [-> _].
    simpl in Hlen. lia. }
  rewrite Hne, (_video_id_of_url prefix g rest Hin Hg Hlen Hend).
  rewrite (safe_name_id g Hg) by (destruct g; [simpl in Hlen; lia | discriminate]).
  destruct (paragraphs && is_text f); now rewrite <- app_assoc.
Qed.

Lemma auto_save_name_of_url_witness :
  auto_save_name
    (Some (py "https://www.youtube.com/watch?v=" ++ py "dQw4w9WgXcQ"
           ++ py "&t=42s")) [] true FmtText
  = (if true && is_text FmtText
     then py "transcript_paras_" else py "transcript_")
    ++ firstn 120 (py "dQw4w9WgXcQ") ++ _ext_for FmtText.
Proof.
  apply auto_save_name_of_url.
  - left. reflexivity.
  - vm_compute. repeat (constructor; [reflexivity|]). constructor.
  - vm_compute. lia.
  - right. reflexivity.
Defined.

(** The two pairs of definitions of [_video_id_of] and [_safe_name] in the
    file agree on every string, so replacing the earlier pair by the later
    one changes nothing. *)
Theorem shadowed_definitions_agree (s : pystr) :
  _video_id_of_first s = _video_id_of s
  /\ _safe_name_first s = _safe_name s.
Proof.
  split; [|reflexivity].
  unfold _video_id_of_first, _video_id_of. destruct s; reflexivity.
Qed.

(** ** Segments extracted from a page *)

Lemma extract_from_html_filter els :
  extract_from_html els
  = List.map (fun el => {| timestamp := ts_el el;
                           text := default [] (text_el el) |})
      (List.filter (fun el => nonempty (default [] (text_el el))
                              || nonempty (default [] (ts_el el))) els).
Proof.
  unfold extract_from_html.
  set (f := fun el => {| timestamp := ts_el el;
                         text := default [] (text_el el) |}).
  set (k := fun el => nonempty (default [] (text_el el))
                      || nonempty (default [] (ts_el el))).
  assert (H : forall acc,
             List.fold_left
               (fun segments seg =>
                  if nonempty (default [] (text_el seg))
                     || nonempty (default [] (ts_el seg))
                  then segments ++ [{| timestamp := ts_el seg;
                                       text := default [] (text_el seg) |}]
                  else segments) els acc
             = acc ++ List.map f (List.filter k els)).
  { induction els as [|el els IH]; intros acc; simpl.
    - now rewrite app_nil_r.
    - rewrite IH. unfold k at 2. destruct (_ || _); [|reflexivity].
      simpl. now rewrite <- app_assoc. }
  apply (H []).
Qed.

(** The segments extracted from a page are those of the elements that have
    a text or a timestamp, in page order; each renders as a non-empty line
    of plain text, so the plain text of a page is empty only when no
    segment was extracted. *)
Theorem extracted_lines_nonempty (els : list html_element) :
  extract_from_html els
  = List.map (fun el => {| timestamp := ts_el el;
                           text := default [] (text_el el) |})
      (List.filter (fun el => nonempty (default [] (text_el el))
                              || nonempty (default [] (ts_el el))) els)
  /\ Forall (fun seg => plain_line seg <> []) (extract_from_html els)
  /\ (to_plain_text (extract_from_html els) = []
      <-> extract_from_html els = []).
Proof.
  split; [apply extract_from_html_filter|].
  assert (Hl : Forall (fun seg => plain_line seg <> [])
                 (extract_from_html els)).
  { rewrite extract_from_html_filter. apply Forall_map.
    apply List.Forall_forall. intros el Hel.
    apply List.filter_In in Hel as [_ Hk]. unfold plain_line. cbn [timestamp text].
    destruct (ts_el el) as [ts|]; cbn [str_or default] in *.
    - destruct ts as [|c ts]; [|discriminate]. cbn [nonempty] in *.
      rewrite orb_false_r in Hk. now apply nonempty_true.
    - cbn [nonempty] in *. rewrite orb_false_r in Hk.
      now apply nonempty_true. }
  split; [exact Hl|]. rewrite to_plain_text_lines. split.
  - intros E. destruct (extract_from_html els) as [|seg segs]; [reflexivity|].
    exfalso. revert E. apply join_nonempty; [discriminate|].
    now apply Forall_map.
  - intros ->. reflexivity.
Qed.

(** ** Paragraphs already flushed *)

Lemma break_phase_grows keep sb st :
  exists extra, paras (break_phase keep sb st) = paras st ++ extra.
Proof.
  unfold break_phase. destruct (sb && nonempty (buf st)).
  - eexists. reflexivity.
  - exists []. now rewrite app_nil_r.
Qed.

Lemma eager_phase_grows end_punct keep piece st :
  exists extra, paras (eager_phase end_punct keep piece st) = paras st ++ extra.
Proof.
  unfold eager_phase. destruct (eager_flush end_punct piece (buf st)).
  - eexists. reflexivity.
  - exists []. now rewrite app_nil_r.
Qed.

Lemma para_step_grows gap max_chars end_punct keep st seg :
  exists st' extra,
    para_step gap max_chars end_punct keep st seg = Ok st'
    /\ paras st' = paras st ++ extra.
Proof.
  rewrite para_step_eq.
  destruct (nonempty (_clean_piece (text seg)));
    [|exists st, []; split; [reflexivity | now rewrite app_nil_r]].
  destruct (eager_phase_grows end_punct keep (_clean_piece (text seg))
              (after_append gap max_chars end_punct keep st seg)) as (e2 & H2).
  destruct (break_phase_grows keep
              (should_break gap max_chars st (secs_of seg)) st) as (e1 & H1).
  eexists. exists (e1 ++ e2). split; [reflexivity|].
  rewrite H2. unfold after_append, after_break. cbn [append_phase paras].
  now rewrite H1, app_assoc.
Qed.

Lemma para_loop_grows gap max_chars end_punct keep segs : forall st,
  exists st' extra,
    para_loop gap max_chars end_punct keep segs st = Ok st'
    /\ paras st' = paras st ++ extra.
Proof.
  induction segs as [|seg segs IH]; intros st.
  - exists st, []. split; [reflexivity | now rewrite app_nil_r].
  - destruct (para_step_grows gap max_chars end_punct keep st seg)
      as (st1 & e1 & E1 & H1).
    destruct (IH st1) as (st' & e2 & E2 & H2).
    exists st', (e1 ++ e2). split.
    + cbn [para_loop]. rewrite E1. exact E2.
    + now rewrite H2, H1, app_assoc.
Qed.

(** Paragraphs are settled as the input grows: of the paragraphs of a
    sequence of segments, all but at most the last one are also the first
    paragraphs of every continuation of the sequence. *)
Theorem paragraphs_settled segs gap max_chars end_punct keep :
  exists settled last,
    segments_to_paragraphs segs gap max_chars end_punct keep
    = Ok (settled ++ last)
    /\ (List.length last <= 1)%nat
    /\ forall more,
         exists rest,
           segments_to_paragraphs (segs ++ more) gap max_chars end_punct keep
           = Ok (settled ++ rest).
Proof.
  destruct (para_loop_grows gap max_chars end_punct keep segs init_state)
    as (st & e & E & _).
  exists (paras st),
    (if nonempty (buf st) then [para_of keep (para_start_ts st) (buf st)]
     else []).
  split; [|split].
  - unfold segments_to_paragraphs. rewrite E. cbn [bind].
    now rewrite final_paras.
  - destruct (nonempty (buf st)); simpl; lia.
  - intros more.
    destruct (para_loop_grows gap max_chars end_punct keep more st)
      as (st' & e' & E' & H').
    eexists. unfold segments_to_paragraphs.
    rewrite para_loop_app, E. cbn [bind]. rewrite E'. cbn [bind].
    rewrite final_paras, H', <- app_assoc. reflexivity.
Qed.

(** ** Segments far apart *)

Lemma own_paragraph_para_of keep seg :
  nonempty (_clean_piece (text seg)) = true ->
  para_of keep (Some (str_or (timestamp seg) [])) [_clean_piece (text seg)]
  = own_paragraph keep seg.
Proof.
  intros N. unfold own_paragraph.
  rewrite (para_of_joined keep _ [_clean_piece (text seg)]
             [_clean_piece (text seg)]).
  - simpl. now rewrite app_nil_r.
  - constructor.
  - constructor; [now apply _clean_piece_clean | constructor].
Qed.

Lemma last_secs_snoc vs s : last_secs (vs ++ [s]) = Some (secs_of s).
Proof. unfold last_secs. now rewrite rev_app_distr. Qed.

Lemma spaced_after_break keep gap max_chars st vs seg :
  spaced_inv keep st vs -> known (secs_of seg) ->
  match last_secs vs with
  | Some p => exceeds (secs_of seg - p) gap
  | None => True
  end ->
  buf (after_break gap max_chars keep st seg) = []
  /\ paras (after_break gap max_chars keep st seg)
     = List.map (own_paragraph keep) vs.
Proof.
  intros (Hprev & Hk & Hst) Hs Hgap. unfold after_break, break_phase.
  destruct Hst as [[Hb Hp]|(vs0 & s & -> & Hb & N & Hts & Hp)].
  - rewrite Hb. cbn [nonempty]. rewrite andb_false_r. now split.
  - rewrite last_secs_snoc in *.
    assert (Hsb : should_break gap max_chars st (secs_of seg) = true).
    { apply should_break_iff. left. exists (secs_of s).
      split; [exact Hprev|]. split; [now apply Hk|]. now split. }
    rewrite Hsb, Hb. cbn [nonempty andb flush buf paras].
    split; [reflexivity|]. rewrite Hb, Hts, Hp, map_app.
    cbn [List.map]. now rewrite own_paragraph_para_of.
Qed.

Lemma spaced_inv_step keep gap max_chars end_punct st vs seg :
  spaced_inv keep st vs ->
  nonempty (_clean_piece (text seg)) = true ->
  known (secs_of seg) ->
  match last_secs vs with
  | Some p => exceeds (secs_of seg - p) gap
  | None => True
  end ->
  exists st',
    para_step gap max_chars end_punct keep st seg = Ok st'
    /\ spaced_inv keep st' (vs ++ [seg]).
Proof.
  intros Hinv N Hs Hgap. rewrite para_step_eq, N. eexists.
  split; [reflexivity|].
  destruct (spaced_after_break keep gap max_chars st vs seg Hinv Hs Hgap)
    as [Hb Hp].
  assert (Hk : (0 <=? secs_of seg)%Z = true) by now apply Z.leb_le.
  unfold eager_phase, after_append, append_phase.
  rewrite !Hb. cbn [nonempty app buf]. rewrite Hk.
  destruct (eager_flush _ _ _).
  - split; [|split].
    + cbn [flush prev_secs]. now rewrite last_secs_snoc.
    + intros p. rewrite last_secs_snoc. now intros [= <-].
    + left. cbn [flush buf paras para_start_ts]. split; [reflexivity|].
      now rewrite Hp, map_app, own_paragraph_para_of.
  - split; [|split].
    + cbn [prev_secs]. now rewrite last_secs_snoc.
    + intros p. rewrite last_secs_snoc. now intros [= <-].
    + right. exists vs, seg. cbn [buf paras para_start_ts]. auto.
Qed.

Lemma spaced_inv_loop keep gap max_chars end_punct segs : forall st vs,
  spaced_inv keep st vs ->
  well_spaced gap (last_secs vs) (List.map secs_of (voiced segs)) ->
  exists st',
    para_loop gap max_chars end_punct keep segs st = Ok st'
    /\ spaced_inv keep st' (vs ++ voiced segs).
Proof.
  induction segs as [|seg segs IH]; intros st vs Hinv Hw.
  - exists st. split; [reflexivity|]. unfold voiced. simpl.
    now rewrite app_nil_r.
  - unfold voiced in *. cbn [List.filter] in *.
    destruct (nonempty (_clean_piece (text seg))) eqn:N.
    + cbn [List.map well_spaced] in Hw. destruct Hw as (Hs & Hgap & Hrest).
      destruct (spaced_inv_step keep gap max_chars end_punct st vs seg
                  Hinv N Hs Hgap) as (st1 & E1 & H1).
      destruct (IH st1 (vs ++ [seg]) H1) as (st' & E' & H').
      { now rewrite last_secs_snoc. }
      exists st'. split.
      * cbn [para_loop]. rewrite E1. exact E'.
      * now rewrite <- app_assoc in H'.
    + destruct (IH st vs Hinv Hw) as (st' & E' & H').
      exists st'. split; [|exact H'].
      cbn [para_loop].
      rewrite (para_step_empty gap max_chars end_punct keep st seg)
        by now apply nonempty_false.
      exact E'.
Qed.

(** When the segments that have text carry known timestamps, each more
    than the gap threshold after the one before, every such segment is a
    paragraph of its own, whatever the length limit and the punctuation
    are: the paragraphs are the cleaned texts, in order, each after its own
    bracketed timestamp when timestamps are kept. *)
Theorem spaced_segments_own_paragraphs segs gap max_chars end_punct keep :
  well_spaced gap None (List.map secs_of (voiced segs)) ->
  segments_to_paragraphs segs gap max_chars end_punct keep
  = Ok (List.map (own_paragraph keep) (voiced segs)).
Proof.
  intros Hw.
  destruct (spaced_inv_loop keep gap max_chars end_punct segs init_state [])
    as (st & E & Hprev & Hk & Hst).
  { split; [reflexivity|]. split; [discriminate|]. left. now split. }
  { exact Hw. }
  unfold segments_to_paragraphs. rewrite E. cbn [bind app].
  rewrite final_paras. cbn [app] in Hst.
  destruct Hst as [[Hb Hp]|(vs0 & s & Hv & Hb & N & Hts & Hp)].
  - rewrite Hb, Hp. cbn [nonempty]. now rewrite app_nil_r.
  - rewrite Hb, Hts, Hp, Hv, map_app. cbn [nonempty List.map].
    now rewrite own_paragraph_para_of.
Qed.

Lemma spaced_segments_own_paragraphs_witness :
  segments_to_paragraphs
    [{| timestamp := Some (py "0:00"); text := py "a" |};
     {| timestamp := Some (py "0:10"); text := py "b" |}]
    default_gap default_max_chars END_PUNCT true
  = Ok (List.map (own_paragraph true)
          (voiced [{| timestamp := Some (py "0:00"); text := py "a" |};
                   {| timestamp := Some (py "0:10"); text := py "b" |}])).
Proof.
  apply spaced_segments_own_paragraphs. vm_compute.
  repeat split; discriminate.
Defined.

(** ** The progress bar *)

Lemma str_mul_single c n :
  str_mul [c] n = List.repeat c (Z.to_nat n).
Proof.
  unfold str_mul. induction (Z.to_nat n) as [|k IH]; [reflexivity|].
  simpl. now rewrite IH.
Qed.

Lemma dict_get_FILLER_OPTION fill :
  (1 <= fill <= 14)%Z <-> exists f, dict_get fill FILLER_OPTION = Some f.
Proof.
  unfold FILLER_OPTION. cbn [dict_get]. split.
  - intros H.
    repeat (match goal with
            | |- context [(fill =? ?k)%Z] =>
                destruct (Z.eqb_spec fill k); [eexists; reflexivity|]
            end).
    lia.
  - intros (f & H).
    repeat (match type of H with
            | context [(fill =? ?k)%Z] =>
                destruct (Z.eqb_spec fill k); [lia|]
            end).
    discriminate.
Qed.

(** For a valid bar option and a progress between nothing and all of a
    positive total, the bar printed has exactly [length] characters: the
    fill character [length * iteration // total] times, then dashes; and it
    is filled entirely exactly when the progress is complete. *)
Theorem progress_bar_length (iteration total length fill : Z) :
  (1 <= fill <= 14)%Z -> (0 < total)%Z -> (0 <= iteration <= total)%Z ->
  (0 <= length)%Z ->
  exists f filled,
    dict_get fill FILLER_OPTION = Some f
    /\ filled = (length * iteration / total)%Z
    /\ (0 <= filled <= length)%Z
    /\ PrintProgressBar true iteration total length fill
       = BarPrinted (List.repeat f (Z.to_nat filled)
                     ++ List.repeat 45 (Z.to_nat (length - filled)))
    /\ Z.of_nat (List.length (List.repeat f (Z.to_nat filled)
                              ++ List.repeat 45 (Z.to_nat (length - filled))))
       = length
    /\ ((0 < length)%Z -> (filled = length <-> iteration = total)).
Proof.
  intros Hfill Ht Hi Hl.
  destruct (proj1 (dict_get_FILLER_OPTION fill) Hfill) as (f & Hf).
  set (filled := (length * iteration / total)%Z).
  assert (H0 : (0 <= filled)%Z).
  { unfold filled. apply Z.div_pos; nia. }
  assert (H1 : (filled <= length)%Z).
  { unfold filled. apply Z.div_le_upper_bound; nia. }
  exists f, filled. split; [exact Hf|]. split; [reflexivity|].
  split; [lia|]. split; [|split].
  - unfold PrintProgressBar. cbn [negb].
    destruct (Z.eqb_spec total 0); [lia|]. rewrite Hf.
    fold filled. now rewrite !str_mul_single.
  - rewrite length_app, !repeat_length. lia.
  - intros Hpos. split.
    + intros E. unfold filled in E.
      assert (Hm : (total * length <= length * iteration)%Z).
      { rewrite <- E at 1. apply Z.mul_div_le. lia. }
      nia.
    + intros ->. unfold filled. apply Z.div_mul. lia.
Qed.

Lemma progress_bar_length_witness :
  exists f filled,
    dict_get 2 FILLER_OPTION = Some f
    /\ filled = (50 * 1 / 3)%Z
    /\ (0 <= filled <= 50)%Z
    /\ PrintProgressBar true 1 3 50 2
       = BarPrinted (List.repeat f (Z.to_nat filled)
                     ++ List.repeat 45 (Z.to_nat (50 - filled)))
    /\ Z.of_nat (List.length (List.repeat f (Z.to_nat filled)
                              ++ List.repeat 45 (Z.to_nat (50 - filled))))
       = 50%Z
    /\ ((0 < 50)%Z -> (filled = 50%Z <-> 1%Z = 3%Z)).
Proof.
  apply (progress_bar_length 1 3 50 2); lia.
Defined.

(** ** The further theorems at concrete inputs *)

Lemma clean_piece_normal_form_witness :
  _clean_piece (py "a b") = py "a b".
Proof.
  apply (proj1 (proj2 clean_piece_normal_form)). right. split.
  - split; reflexivity.
  - vm_compute. repeat split; try discriminate; intros; discriminate.
Defined.

Lemma to_srt_failure_witness :
  to_srt [{| timestamp := Some (py "soon"); text := py "hi" |}]
  = Raise ValueError.
Proof.
  apply (proj1 (to_srt_failure _)). left. reflexivity.
Defined.

Lemma normalizer_all_or_nothing_witness :
  _normalize_segments
    [RSeq [VNone; VStr (py "a")]; RDict {[ "start"%string := VNone ]};
     ROther]
  = Raise TypeError.
Proof.
  apply (proj1 (normalizer_all_or_nothing _)
           [RSeq [VNone; VStr (py "a")]]
           (RDict {[ "start"%string := VNone ]}) [ROther] TypeError).
  - reflexivity.
  - constructor; [|constructor]. eexists. reflexivity.
  - reflexivity.
Defined.

(** ** Short texts *)

Lemma weight_app a b : weight (a ++ b) = (weight a + weight b)%Z.
Proof. unfold weight. rewrite total_len_app, length_app. lia. Qed.

Lemma weight_nonneg a : (0 <= weight a)%Z.
Proof. unfold weight. rewrite total_len_concat. lia. Qed.

Lemma weight_single p : weight [p] = (Z.of_nat (List.length p) + 1)%Z.
Proof. unfold weight. rewrite total_len_single. simpl. lia. Qed.

Lemma should_break_no_gap gap max_chars st secs :
  gap = FNaN \/ gap = FInf false \/ (secs < 0)%Z ->
  buf st = [] \/ (total_len (buf st) < max_chars)%Z ->
  should_break gap max_chars st secs = false.
Proof.
  intros Hg Hb. destruct (should_break gap max_chars st secs) eqn:E;
    [|reflexivity].
  exfalso. apply should_break_iff in E.
  destruct E as [(prev & _ & _ & Hk & He)|[Hne Hc]].
  - destruct Hg as [->|[->|Hs]]; simpl in He.
    + contradiction.
    + discriminate.
    + unfold known in Hk. lia.
  - destruct Hb as [Hb|Hb]; [contradiction | lia].
Qed.

Lemma merge_inv_step gap max_chars end_punct keep st seg done :
  merge_inv st done ->
  nonempty (_clean_piece (text seg)) = true ->
  gap = FNaN \/ gap = FInf false \/ (secs_of seg < 0)%Z ->
  (weight (done ++ [_clean_piece (text seg)]) <= Z.min 30 max_chars)%Z ->
  exists st',
    para_step gap max_chars end_punct keep st seg = Ok st'
    /\ merge_inv st' (done ++ [_clean_piece (text seg)]).
Proof.
  intros (Hp & Hiff & Hbound) N Hg Hw. rewrite para_step_eq, N.
  eexists. split; [reflexivity|].
  set (piece := _clean_piece (text seg)) in *.
  rewrite weight_app, weight_single in Hw.
  pose proof (weight_nonneg done) as Hd.
  assert (Hsb : should_break gap max_chars st (secs_of seg) = false).
  { apply should_break_no_gap; [exact Hg|].
    destruct (buf st) as [|x l] eqn:Eb; [now left|]. right.
    assert (total_len (x :: l) + 1 <= weight done)%Z
      by (apply Hbound; discriminate).
    lia. }
  unfold eager_phase, after_append, after_break, break_phase.
  rewrite Hsb. cbn [andb]. fold piece.
  set (st2 := append_phase end_punct (str_or (timestamp seg) [])
                (secs_of seg) piece st).
  assert (Hlen : (total_len (buf st2) + 1
                  <= weight done + (Z.of_nat (List.length piece) + 1))%Z).
  { unfold st2, append_phase. cbn [buf].
    destruct (buf st) as [|x l] eqn:Eb.
    - cbn [nonempty app]. rewrite total_len_single. lia.
    - assert (total_len (x :: l) + 1 <= weight done)%Z
        by (apply Hbound; discriminate).
      cbn [nonempty].
      destruct (negb (ends_with_punct end_punct (x :: l)));
        rewrite !total_len_app, ?total_len_single;
        change (Z.of_nat (List.length (py " "))) with 1%Z; lia. }
  assert (He : eager_flush end_punct piece (buf st2) = false).
  { unfold eager_flush.
    destruct (Z.leb_spec 30 (total_len (buf st2))) as [H30|_]; [lia|].
    now rewrite andb_false_r. }
  rewrite He. split; [exact Hp|]. split.
  - split.
    + unfold st2, append_phase. cbn [buf]. intros E.
      apply app_eq_nil in E as [_ E]. discriminate.
    + intros E. apply app_eq_nil in E as [_ E]. discriminate.
  - intros _. rewrite weight_app, weight_single. exact Hlen.
Qed.

Lemma merge_inv_loop gap max_chars end_punct keep segs : forall st done,
  merge_inv st done -> no_gap gap segs ->
  (weight (done ++ cleaned_pieces segs) <= Z.min 30 max_chars)%Z ->
  exists st',
    para_loop gap max_chars end_punct keep segs st = Ok st'
    /\ merge_inv st' (done ++ cleaned_pieces segs).
Proof.
  induction segs as [|seg segs IH]; intros st done Hinv Hg Hw.
  - exists st. split; [reflexivity|]. unfold cleaned_pieces. simpl.
    now rewrite app_nil_r.
  - assert (Hg1 : gap = FNaN \/ gap = FInf false \/ (secs_of seg < 0)%Z).
    { destruct Hg as [Hg|[Hg|Hg]]; [now left | right; now left|].
      right. right. now inversion Hg. }
    assert (Hg2 : no_gap gap segs).
    { destruct Hg as [Hg|[Hg|Hg]]; [now left | right; now left|].
      right. right. now inversion Hg. }
    rewrite cleaned_pieces_cons in *. cbn [List.filter] in *.
    destruct (nonempty (_clean_piece (text seg))) eqn:N.
    + rewrite app_assoc in Hw.
      assert (Hw1 : (weight (done ++ [_clean_piece (text seg)])
                     <= Z.min 30 max_chars)%Z).
      { eapply Z.le_trans; [|exact Hw].
        eapply Z.le_trans;
          [|apply Z.eq_le_incl; symmetry; apply weight_app].
        assert (Hadd : forall a b : Z, (0 <= b -> a <= a + b)%Z)
          by (intros; lia).
        apply Hadd, weight_nonneg. }
      destruct (merge_inv_step gap max_chars end_punct keep st seg done
                  Hinv N Hg1 Hw1) as (st1 & E1 & H1).
      destruct (IH st1 _ H1 Hg2 Hw) as (st' & E' & H').
      exists st'. split.
      * cbn [para_loop]. rewrite E1. exact E'.
      * now rewrite app_assoc.
    + cbn [app] in *. destruct (IH st done Hinv Hg2 Hw) as (st' & E' & H').
      exists st'. split; [|exact H'].
      cbn [para_loop].
      rewrite (para_step_empty gap max_chars end_punct keep st seg)
        by now apply nonempty_false.
      exact E'.
Qed.

(** A short text without usable time gaps is one paragraph, whatever its
    punctuation is: when the time-gap test cannot fire and the cleaned
    pieces, counted with one joiner each, stay within 30 characters and
    within [max_chars], all pieces are merged into a single paragraph. *)
Theorem short_text_one_paragraph segs gap max_chars end_punct keep :
  no_gap gap segs ->
  (weight (cleaned_pieces segs) <= Z.min 30 max_chars)%Z ->
  exists paragraphs,
    segments_to_paragraphs segs gap max_chars end_punct keep = Ok paragraphs
    /\ List.length paragraphs = Nat.min 1 (List.length (cleaned_pieces segs)).
Proof.
  intros Hg Hw.
  destruct (merge_inv_loop gap max_chars end_punct keep segs init_state [])
    as (st & E & Hp & Hiff & _); [|exact Hg|exact Hw|].
  { split; [reflexivity|]. split; [tauto | intros H; now elim H]. }
  cbn [app] in Hiff. eexists. split.
  - unfold segments_to_paragraphs. rewrite E. reflexivity.
  - rewrite final_paras, Hp. cbn [app].
    destruct (buf st) as [|x l] eqn:Eb.
    + rewrite (proj1 Hiff eq_refl). reflexivity.
    + cbn [nonempty]. destruct (cleaned_pieces segs) as [|p ps] eqn:Ec.
      * destruct Hiff as [_ Hiff]. discriminate (Hiff eq_refl).
      * reflexivity.
Qed.

Lemma short_text_one_paragraph_witness :
  exists paragraphs,
    segments_to_paragraphs
      [{| timestamp := None; text := py "Hi." |};
       {| timestamp := None; text := py "Bye!" |}]
      default_gap default_max_chars END_PUNCT false = Ok paragraphs
    /\ List.length paragraphs
       = Nat.min 1
           (List.length
              (cleaned_pieces
                 [{| timestamp := None; text := py "Hi." |};
                  {| timestamp := None; text := py "Bye!" |}])).
Proof.
  apply short_text_one_paragraph.
  - right. right. repeat constructor.
  - vm_compute. discriminate.
Defined.
